(** * VectorLite storage engine (pkg/storage): model and verified properties

    The development embeds the Go package [storage] of VectorLite:
    the header, record and index-entry codecs and the key hasher
    ([types.go]), the LRU cache of hot vectors, and the store engine
    ([db.go]: create/open, build-index, Insert, Get, FindSimilar, Stats,
    Close).

    Modelling conventions.
    - Bytes are [Init.Byte.byte]; a file is the list of its bytes together
      with the state of its descriptor.  Little-endian integers use
      coqutil's [le_split]/[le_combine].
    - A [uint32]/[uint64]/[int64] is a [Z]; conversions and arithmetic on
      values that come from file bytes are wrapped explicitly ([u32],
      [u64], [i64]).
    - A [float32] stored in a vector is its IEEE-754 bit pattern (a [Z]
      below 2^32), so [math.Float32bits] and [math.Float32frombits] are
      the identity; arithmetic goes through [F32.of_bits] into the
      binary32 instance of [SpecFloat].  [SpecFloat] has one NaN: the
      sign and payload of a NaN are not modelled, so a result that is NaN
      is known as NaN and no further; every other result is an exact
      binary32 value, the sign of zero included.
    - A Go slice of floats is a reference into a heap of arrays, so that
      sharing between the cache and a caller is visible.
    - Errors are results: an operation yields [Ok], one of the package's
      error values, or [Panic] (a Go run-time panic or a fault on the
      mapping).  The file system is ideal: a read or write fails only on
      a closed descriptor, an invalid offset or a short file.
    - The order in which Go ranges over a map is not specified; operations
      that range over the index take the enumeration as an argument. *)

From Stdlib Require Import ZArith List Lia String.
From Stdlib Require Import Floats.SpecFloat.
From coqutil Require Import Byte Word.LittleEndianList.
From stdpp Require Import base gmap list sorting.

Local Open Scope Z_scope.

(** ** Fixed-width integers *)

Definition u32 (z : Z) : Z := z mod 2 ^ 32.
Definition u64 (z : Z) : Z := z mod 2 ^ 64.
(** [int64(x)] of a 64-bit pattern: two's complement. *)
Definition i64 (z : Z) : Z := (z + 2 ^ 63) mod 2 ^ 64 - 2 ^ 63.

(** ** Byte slices *)

#[global] Instance byte_eq_dec : EqDecision byte := Byte.byte_eq_dec.

Definition zeros (n : nat) : list byte := replicate n Byte.x00.

(** [b[lo:hi]] for a slice whose capacity is its length; [None] is the
    run-time panic "slice bounds out of range". *)
Definition slice (b : list byte) (lo hi : Z) : option (list byte) :=
  if (0 <=? lo) && (lo <=? hi) && (hi <=? Z.of_nat (length b))
  then Some (take (Z.to_nat (hi - lo)) (drop (Z.to_nat lo) b))
  else None.

(** [b[lo:hi]] with constant bounds inside a buffer of known size. *)
Definition sub (b : list byte) (lo hi : nat) : list byte :=
  take (hi - lo) (drop lo b).

(** ** binary32 arithmetic *)

Module F32.
Definition prec : Z := 24.
Definition emax : Z := 128.

(** The value of a bit pattern.  All NaN patterns have the one value
    [S754_nan]. *)
Definition of_bits (b : Z) : spec_float :=
  let s := Z.testbit b 31 in
  let e := Z.land (Z.shiftr b 23) 255 in
  let m := Z.land b (2 ^ 23 - 1) in
  if e =? 0 then
    match m with
    | Zpos p => S754_finite s p (-149)
    | _ => S754_zero s
    end
  else if e =? 255 then
    (if m =? 0 then S754_infinity s else S754_nan)
  else
    match m + 2 ^ 23 with
    | Zpos p => S754_finite s p (e - 150)
    | _ => S754_nan
    end.

Definition zero : spec_float := S754_zero false.
Definition neg_one : spec_float := S754_finite true (2 ^ 23) (-23).

Definition add : spec_float -> spec_float -> spec_float := SFadd prec emax.
Definition mul : spec_float -> spec_float -> spec_float := SFmul prec emax.
Definition div : spec_float -> spec_float -> spec_float := SFdiv prec emax.

(** [x == y], [x > y], [x >= y]; all false on NaN. *)
Definition eqb (x y : spec_float) : bool := SFeqb x y.
Definition gtb (x y : spec_float) : bool := SFltb y x.
Definition geb (x y : spec_float) : bool := SFleb y x.

(** [float64(x)]: exact. *)
Definition to_f64 (x : spec_float) : spec_float :=
  match x with
  | S754_finite s m e => binary_round 53 1024 s m e
  | _ => x
  end.

(** [float32(x)] of a float64: round to nearest, ties to even. *)
Definition of_f64 (x : spec_float) : spec_float :=
  match x with
  | S754_finite s m e => binary_round prec emax s m e
  | _ => x
  end.

(** [float32(math.Sqrt(float64(x)))]. *)
Definition sqrt (x : spec_float) : spec_float :=
  of_f64 (SFsqrt 53 1024 (to_f64 x)).
End F32.

(** ** types.go *)

Definition MagicBytes : list byte := [Byte.x45; Byte.x44; Byte.x42; Byte.x00].
Definition CurrentVersion : Z := 2.
Definition HeaderSize : Z := 256.
Definition RecordMetaSize : Z := 16.
Definition IndexEntrySize : Z := 16.

(** The file header.  The struct's [Reserved] array is never read or
    written by the codec and is left out. *)
Record Header := mkHeader {
  Magic : list byte;
  Version : Z;
  Dimension : Z;
  RecordCount : Z;
  IndexOffset : Z;
  DataOffset : Z
}.

Record IndexEntry := mkIndexEntry {
  Hash : Z;
  Offset : Z
}.

(** [binary.LittleEndian.PutUint32/PutUint64] and [Uint32/Uint64] on a
    buffer of exactly the right size. *)
Definition PutUint32 (v : Z) : list byte := le_split 4 v.
Definition PutUint64 (v : Z) : list byte := le_split 8 v.
Definition Uint32 (b : list byte) : Z := le_combine (take 4 b).
Definition Uint64 (b : list byte) : Z := le_combine (take 8 b).

(** FNV-1a, 64 bit ([hash/fnv.New64a]). *)
Definition fnv_offset64 : Z := 14695981039346656037.
Definition fnv_prime64 : Z := 1099511628211.

Definition fnv1a_step (h : Z) (b : byte) : Z :=
  u64 (Z.lxor h (byte.unsigned b) * fnv_prime64).

Definition HashText (text : string) : Z :=
  fold_left fnv1a_step (list_byte_of_string text) fnv_offset64.

Definition Header_Encode (h : Header) : list byte :=
  resize 4 Byte.x00 (Magic h)
  ++ PutUint32 (Version h)
  ++ PutUint32 (Dimension h)
  ++ PutUint64 (RecordCount h)
  ++ PutUint64 (IndexOffset h)
  ++ PutUint64 (DataOffset h)
  ++ zeros 220.

Definition DecodeHeader (buf : list byte) : Header :=
  {| Magic := sub buf 0 4;
     Version := Uint32 (sub buf 4 8);
     Dimension := Uint32 (sub buf 8 12);
     RecordCount := Uint64 (sub buf 12 20);
     IndexOffset := Uint64 (sub buf 20 28);
     DataOffset := Uint64 (sub buf 28 36) |}.

Definition NewHeader (dimension : Z) : Header :=
  {| Magic := MagicBytes;
     Version := CurrentVersion;
     Dimension := dimension;
     RecordCount := 0;
     IndexOffset := 0;
     DataOffset := HeaderSize |}.

Definition EncodeIndexEntry (entry : IndexEntry) : list byte :=
  PutUint64 (Hash entry) ++ PutUint64 (u64 (Offset entry)).

Definition DecodeIndexEntry (buf : list byte) : IndexEntry :=
  {| Hash := Uint64 (sub buf 0 8);
     Offset := i64 (Uint64 (sub buf 8 16)) |}.

(** ** Results *)

Inductive error :=
  | ErrNotFound
  | ErrInvalidFormat
  | ErrDimensionMismatch
  | ErrIO.   (* an error of the [os] or [syscall] package, passed through *)

Inductive outcome (A : Type) :=
  | Ok (a : A)
  | Err (e : error)
  | Panic.
Arguments Ok {A} a.
Arguments Err {A} e.
Arguments Panic {A}.

(** ** The heap of float slices *)

(** A [[]float32] value is the address of its backing array. *)
Definition vecref := nat.
Definition Heap := list (list Z).

(** [make([]float32, n)] filled with [v]. *)
Definition alloc (hp : Heap) (v : list Z) : vecref * Heap :=
  (length hp, hp ++ [v]).

Definition deref (hp : Heap) (r : vecref) : list Z :=
  default [] (hp !! r).


(** ** The LRU cache *)

(** The Go cache pairs a [container/list] (front = most recently used)
    with a map from hash to list element.  The map is the index of the
    list by hash: both are updated together in [Put], [evict] and [Clear].
    The model keeps the list; a map lookup is a search by hash. *)
Module LRU.
Record cacheEntry := mkEntry {
  hash : Z;
  vector : vecref
}.

Record LRUCache := mkLRU {
  capacity : Z;
  lru : list cacheEntry
}.

Definition NewLRUCache (capacity : Z) : LRUCache :=
  {| capacity := capacity; lru := [] |}.

(** [c.cache[hash]] *)
Fixpoint lookup (h : Z) (l : list cacheEntry) : option cacheEntry :=
  match l with
  | [] => None
  | e :: l' => if hash e =? h then Some e else lookup h l'
  end.

(** The list without the element of hash [h]. *)
Fixpoint unlink (h : Z) (l : list cacheEntry) : list cacheEntry :=
  match l with
  | [] => []
  | e :: l' => if hash e =? h then l' else e :: unlink h l'
  end.

Definition Get (h : Z) (c : LRUCache) : option vecref * LRUCache :=
  match lookup h (lru c) with
  | Some e =>
      (* MoveToFront *)
      (Some (vector e), {| capacity := capacity c; lru := e :: unlink h (lru c) |})
  | None => (None, c)
  end.

Definition evict (c : LRUCache) : LRUCache :=
  {| capacity := capacity c; lru := removelast (lru c) |}.

Definition Put (h : Z) (v : vecref) (c : LRUCache) : LRUCache :=
  match lookup h (lru c) with
  | Some e =>
      {| capacity := capacity c;
         lru := {| hash := hash e; vector := v |} :: unlink h (lru c) |}
  | None =>
      let c' := {| capacity := capacity c;
                   lru := {| hash := h; vector := v |} :: lru c |} in
      if Z.of_nat (length (lru c')) >? capacity c' then evict c' else c'
  end.

Definition Len (c : LRUCache) : Z := Z.of_nat (length (lru c)).

Definition Clear (c : LRUCache) : LRUCache :=
  {| capacity := capacity c; lru := [] |}.

(** The hashes held, most recently used first. *)
Definition keys (c : LRUCache) : list Z := map hash (lru c).

(** Operations of a client, for traces. *)
Inductive op :=
  | OpGet (h : Z)
  | OpPut (h : Z) (v : vecref).

Definition op_key (o : op) : Z :=
  match o with OpGet h => h | OpPut h _ => h end.

Definition step (c : LRUCache) (o : op) : LRUCache :=
  match o with
  | OpGet h => snd (Get h c)
  | OpPut h v => Put h v c
  end.

Definition run (c : LRUCache) (ops : list op) : LRUCache :=
  fold_left step ops c.

(** Does the operation touch an entry?  Every [Put] does; a [Get] does
    when it hits. *)
Definition touches (c : LRUCache) (o : op) : bool :=
  match o with
  | OpGet h => bool_decide (is_Some (fst (Get h c)))
  | OpPut _ _ => true
  end.

(** The keys touched by a trace, oldest first. *)
Fixpoint touched (c : LRUCache) (ops : list op) : list Z :=
  match ops with
  | [] => []
  | o :: ops' =>
      (if touches c o then [op_key o] else []) ++ touched (step c o) ops'
  end.

(** The distinct keys of a list of touches, most recently touched
    first. *)
Definition mru_order (ts : list Z) : list Z :=
  fold_left (fun acc k => k :: filter (fun k' => k' <> k) acc) ts [].

(** One plus the position of the last operation on key [k] in a trace;
    0 when there is none. *)
Fixpoint last_use (k : Z) (ops : list op) (pos : nat) : nat :=
  match ops with
  | [] => 0%nat
  | o :: ops' =>
      match last_use k ops' (S pos) with
      | O => if op_key o =? k then S pos else 0%nat
      | n => n
      end
  end.

(** In a trace, [a] was used after [b] was. *)
Definition newer (ops : list op) (a b : Z) : Prop :=
  (last_use b ops 0 < last_use a ops 0)%nat.
End LRU.

(** ** Files *)

Record File := mkFile {
  contents : list byte;
  closed : bool
}.

(** The largest offset of a file ([off_t] is an [int64]). *)
Definition max_off : Z := 2 ^ 63 - 1.

(** [f.WriteAt(buf, off)]; [None] is the error. *)
Definition WriteAt (f : File) (buf : list byte) (off : Z) : option File :=
  if closed f then None
  else if off <? 0 then None
  else if off + Z.of_nat (length buf) >? max_off then None
  else
    let o := Z.to_nat off in
    let old := contents f in
    (* a gap between the old end and [off] reads as zeros *)
    Some {| contents :=
              resize o Byte.x00 old ++ buf ++ drop (o + length buf) old;
            closed := false |}.

(** [f.Truncate(size)] *)
Definition Truncate (f : File) (size : Z) : option File :=
  if closed f then None
  else if (size <? 0) || (size >? max_off) then None
  else
    Some {| contents := resize (Z.to_nat size) Byte.x00 (contents f);
            closed := false |}.

(** [f.ReadAt(buf, 0)] with [len(buf) = n]: the error is [io.EOF] on a
    short file. *)
Definition ReadAt0 (f : File) (n : nat) : option (list byte) :=
  if closed f then None
  else if (length (contents f) <? n)%nat then None
  else Some (take n (contents f)).

(** [f.Stat()] then [.Size()] *)
Definition StatSize (f : File) : option Z :=
  if closed f then None else Some (Z.of_nat (length (contents f))).

(** [f.Close()] *)
Definition CloseFile (f : File) : option File :=
  if closed f then None
  else Some {| contents := contents f; closed := true |}.

(** ** db.go: the engine state *)

(** [db.mmap].  A mapping is shared with the file, so it is a window of
    [len] bytes onto the file's current contents; after [Munmap] in
    [Close] the field still holds the slice of the mapping that is gone. *)
Inductive Mmap :=
  | MmapNil
  | Mapped (len : Z)
  | Unmapped (len : Z).

Record OpenOptions := mkOptions {
  LazyLoad : bool;
  CacheSize : Z
}.

Record DB := mkDB {
  file : File;
  mmap : Mmap;
  header : Header;
  index : gmap Z Z;
  cache : LRU.LRUCache;
  dimension : Z;
  dataEndOffset : Z
}.

Definition set_file (f : File) (db : DB) : DB :=
  mkDB f (mmap db) (header db) (index db) (cache db) (dimension db) (dataEndOffset db).
Definition set_mmap (m : Mmap) (db : DB) : DB :=
  mkDB (file db) m (header db) (index db) (cache db) (dimension db) (dataEndOffset db).
Definition set_header (h : Header) (db : DB) : DB :=
  mkDB (file db) (mmap db) h (index db) (cache db) (dimension db) (dataEndOffset db).
Definition set_index (i : gmap Z Z) (db : DB) : DB :=
  mkDB (file db) (mmap db) (header db) i (cache db) (dimension db) (dataEndOffset db).
Definition set_cache (c : LRU.LRUCache) (db : DB) : DB :=
  mkDB (file db) (mmap db) (header db) (index db) c (dimension db) (dataEndOffset db).
Definition set_dataEndOffset (o : Z) (db : DB) : DB :=
  mkDB (file db) (mmap db) (header db) (index db) (cache db) (dimension db) o.

Definition set_RecordCount (n : Z) (h : Header) : Header :=
  mkHeader (Magic h) (Version h) (Dimension h) n (IndexOffset h) (DataOffset h).
Definition set_IndexOffset (o : Z) (h : Header) : Header :=
  mkHeader (Magic h) (Version h) (Dimension h) (RecordCount h) o (DataOffset h).

(** [len(db.mmap)] *)
Definition mmap_len (db : DB) : Z :=
  match mmap db with
  | MmapNil => 0
  | Mapped n => n
  | Unmapped n => n
  end.

(** [db.mmap[lo:hi]], read.  [None] is a fatal outcome: a slice-bounds
    panic, or a fault because the page is not mapped or lies beyond the
    end of the file.  The bounds are passed as sums without wrap-around:
    where the [int64] sum of the source wraps it is negative, where this
    one does not it exceeds every mapping length, and both are out of
    bounds. *)
Definition mmap_slice (db : DB) (lo hi : Z) : option (list byte) :=
  match mmap db with
  | Mapped n =>
      if (0 <=? lo) && (lo <=? hi) && (hi <=? n)
      then slice (contents (file db)) lo hi
      else None
  | _ => None
  end.

(** [binary.LittleEndian.Uint32(db.mmap[lo:])]: the slice expression needs
    [lo <= len], the decoder four bytes. *)
Definition mmap_u32_from (db : DB) (lo : Z) : option Z :=
  option_map Uint32 (mmap_slice db lo (lo + 4)).

(** ** Create and open *)

Definition create (db : DB) : outcome DB :=
  let hdr := NewHeader (dimension db) in
  Ok (set_dataEndOffset HeaderSize
        (set_header hdr
           (set_file {| contents := Header_Encode hdr; closed := false |} db))).

(** The loop of [buildIndexFromSection]: [n] iterations left, at [i]. *)
Fixpoint section_loop (db : DB) (indexOffset fileSize : Z) (i : Z) (n : nat)
    (idx : gmap Z Z) : outcome (gmap Z Z) :=
  match n with
  | O => Ok idx
  | S n' =>
      let offset := i64 (indexOffset + i64 (i * IndexEntrySize)) in
      if i64 (offset + IndexEntrySize) >? fileSize then Ok idx
      else
        match mmap_slice db offset (offset + IndexEntrySize) with
        | None => Panic
        | Some buf =>
            let entry := DecodeIndexEntry buf in
            section_loop db indexOffset fileSize (i + 1) n'
              (<[Hash entry := Offset entry]> idx)
        end
  end.

Definition buildIndexFromSection (db : DB) : outcome DB :=
  let indexOffset := i64 (IndexOffset (header db)) in
  let fileSize := mmap_len db in
  let indexSize := i64 (fileSize - indexOffset) in
  let numEntries := Z.quot indexSize IndexEntrySize in
  if numEntries =? 0 then Ok db
  else
    match section_loop db indexOffset fileSize 0 (Z.to_nat numEntries) (index db) with
    | Ok idx => Ok (set_index idx db)
    | Err e => Err e
    | Panic => Panic
    end.

(** The loop of [buildIndexLegacy].  Every iteration moves [offset]
    forward by at least 16 bytes or ends the loop, so [fuel] above the
    mapped length never runs out ([None]). *)
Fixpoint legacy_loop (db : DB) (fileSize : Z) (fuel : nat) (offset : Z)
    (idx : gmap Z Z) : option (outcome (gmap Z Z)) :=
  match fuel with
  | O => None
  | S fuel' =>
      if negb (offset <? fileSize) then Some (Ok idx)
      else if i64 (offset + RecordMetaSize) >? fileSize then Some (Ok idx)
      else
        match mmap_slice db offset (offset + 8),
              mmap_slice db (offset + 8) (offset + 12) with
        | Some hb, Some db_ =>
            let hash := Uint64 hb in
            let dim := Uint32 db_ in
            let recordSize := i64 (RecordMetaSize + i64 (dim * 4)) in
            legacy_loop db fileSize fuel' (i64 (offset + recordSize))
              (<[hash := offset]> idx)
        | _, _ => Some Panic
        end
  end.

Definition legacy_fuel (db : DB) : nat := S (S (Z.to_nat (mmap_len db))).

Definition buildIndexLegacy (db : DB) : outcome DB :=
  match legacy_loop db (mmap_len db) (legacy_fuel db) HeaderSize (index db) with
  | Some (Ok idx) => Ok (set_index idx db)
  | Some (Err e) => Err e
  | Some Panic | None => Panic
  end.

Definition has_section (h : Header) : bool :=
  (Version h >=? 2) && (IndexOffset h >? 0).

Definition buildIndex (db : DB) : outcome DB :=
  if has_section (header db) then buildIndexFromSection db
  else buildIndexLegacy db.

(** [db.open()] on a file that exists. *)
Definition open (db : DB) : outcome DB :=
  match ReadAt0 (file db) 256 with
  | None => Err ErrIO
  | Some headerBytes =>
      let hdr := DecodeHeader headerBytes in
      if negb (bool_decide (Magic hdr = MagicBytes)) then Err ErrInvalidFormat
      else if negb (Dimension hdr =? dimension db) then Err ErrDimensionMismatch
      else
        let db := set_header hdr db in
        match StatSize (file db) with
        | None => Err ErrIO
        | Some size =>
            if size >? HeaderSize then
              let db := set_mmap (Mapped size) db in
              match buildIndex db with
              | Ok db =>
                  if has_section (header db)
                  then Ok (set_dataEndOffset (i64 (IndexOffset (header db))) db)
                  else Ok (set_dataEndOffset size db)
              | Err e => Err e
              | Panic => Panic
              end
            else Ok (set_dataEndOffset HeaderSize db)
        end
  end.

(** The struct literal of [OpenWithOptions], before the file is created
    or read; [bytes] is what the path holds. *)
Definition new_DB (bytes : list byte) (dimension : Z) (cacheSize : Z) : DB :=
  {| file := {| contents := bytes; closed := false |};
     mmap := MmapNil;
     header := mkHeader [] 0 0 0 0 0;
     index := ∅;
     cache := LRU.NewLRUCache cacheSize;
     dimension := dimension;
     dataEndOffset := 0 |}.

(** [OpenWithOptions(path, dimension, opts)]; [disk] is what [path] names:
    nothing, or a file with these bytes. *)
Definition OpenWithOptions (disk : option (list byte)) (dimension : Z)
    (opts : OpenOptions) : outcome DB :=
  let size := if CacheSize opts =? 0 then 100 else CacheSize opts in
  let db := new_DB (default [] disk) dimension size in
  match disk with
  | None => create db
  | Some _ => open db
  end.

Definition Open (disk : option (list byte)) (dimension : Z) : outcome DB :=
  OpenWithOptions disk dimension {| LazyLoad := true; CacheSize := 100 |}.

(** ** Insert *)

(** The record written for [hash] and [vector]: hash, dimension, four
    reserved zero bytes, then the floats. *)
Definition record_bytes (hash : Z) (vector : list Z) : list byte :=
  PutUint64 hash
  ++ PutUint32 (u32 (Z.of_nat (length vector)))
  ++ zeros 4
  ++ flat_map PutUint32 vector.

(** [if db.mmap != nil { syscall.Munmap(db.mmap) }]: unmapping a range
    that is not mapped is an error of the system call. *)
Definition unmap (db : DB) : option DB :=
  match mmap db with
  | MmapNil => Some db
  | Mapped n => Some (set_mmap (Unmapped n) db)
  | Unmapped _ => None
  end.

Definition remap (db : DB) : outcome DB :=
  match unmap db with
  | None => Err ErrIO
  | Some db =>
      match StatSize (file db) with
      | None => Err ErrIO
      | Some sz =>
          if sz <=? HeaderSize then Ok (set_mmap MmapNil db)
          else Ok (set_mmap (Mapped sz) db)
      end
  end.

Definition Insert (text : string) (vector : list Z) (db : DB) : outcome unit * DB :=
  if negb (Z.of_nat (length vector) =? dimension db) then (Err ErrDimensionMismatch, db)
  else
    let hash := HashText text in
    match index db !! hash with
    | Some _ => (Ok tt, db)
    | None =>
        let recordSize := RecordMetaSize + Z.of_nat (length vector) * 4 in
        let buf := record_bytes hash vector in
        let offset := dataEndOffset db in
        match WriteAt (file db) buf offset with
        | None => (Err ErrIO, db)
        | Some f =>
            let db := set_file f db in
            let db := set_index (<[hash := offset]> (index db)) db in
            let db := set_header
                        (set_RecordCount (u64 (RecordCount (header db) + 1)) (header db)) db in
            let db := set_dataEndOffset (i64 (offset + recordSize)) db in
            match remap db with
            | Ok db => (Ok tt, db)
            | Err e => (Err e, db)
            | Panic => (Panic, db)
            end
        end
    end.

(** ** Reading *)

(** The loop of [readVector]: [n] floats from [pos] on. *)
Fixpoint read_floats (db : DB) (pos : Z) (n : nat) : option (list Z) :=
  match n with
  | O => Some []
  | S n' =>
      match mmap_u32_from db pos with
      | None => None
      | Some bits =>
          match read_floats db (pos + 4) n' with
          | None => None
          | Some v => Some (bits :: v)
          end
      end
  end.

(** [db.readVector(offset)]: the vector is a new slice. *)
Definition readVector (db : DB) (hp : Heap) (offset : Z) : outcome vecref * Heap :=
  match mmap db with
  | MmapNil => (Err ErrNotFound, hp)
  | _ =>
      match mmap_slice db (offset + 8) (offset + 12) with
      | None => (Panic, hp)
      | Some d =>
          let dim := Uint32 d in
          let vectorOffset := offset + RecordMetaSize in
          match read_floats db vectorOffset (Z.to_nat dim) with
          | None => (Panic, hp)
          | Some v => let (r, hp') := alloc hp v in (Ok r, hp')
          end
      end
  end.

Definition Get (text : string) (hp : Heap) (db : DB) : outcome vecref * Heap * DB :=
  let hash := HashText text in
  match LRU.Get hash (cache db) with
  | (Some cached, c) => (Ok cached, hp, set_cache c db)
  | (None, _) =>
      match index db !! hash with
      | None => (Err ErrNotFound, hp, db)
      | Some offset =>
          match readVector db hp offset with
          | (Ok vector, hp') =>
              (Ok vector, hp', set_cache (LRU.Put hash vector (cache db)) db)
          | (Err e, hp') => (Err e, hp', db)
          | (Panic, hp') => (Panic, hp', db)
          end
      end
  end.

(** ** Similarity *)

(** The accumulation loop of [cosineSimilarity], each operation rounded
    to binary32 on its own (the Go compiler may fuse [x*y + z] on some
    architectures; on amd64 it does not). *)
Definition cosine_sums (a b : list Z) : spec_float * spec_float * spec_float :=
  fold_left
    (fun '(dotProduct, normA, normB) '(x, y) =>
       let fx := F32.of_bits x in
       let fy := F32.of_bits y in
       (F32.add dotProduct (F32.mul fx fy),
        F32.add normA (F32.mul fx fx),
        F32.add normB (F32.mul fy fy)))
    (combine a b) (F32.zero, F32.zero, F32.zero).

Definition cosineSimilarity (a b : list Z) : spec_float :=
  if negb (length a =? length b)%nat then F32.neg_one
  else
    let '(dotProduct, normA, normB) := cosine_sums a b in
    if F32.eqb normA F32.zero || F32.eqb normB F32.zero then F32.zero
    else F32.div dotProduct (F32.mul (F32.sqrt normA) (F32.sqrt normB)).

(** The scan of [FindSimilar] over the snapshot of offsets;
    [best = (bestVector, bestScore)], a nil slice being [None]. *)
Fixpoint scan (db : DB) (vector : list Z) (offsets : list Z) (hp : Heap)
    (best : option vecref * spec_float) : outcome (option vecref * spec_float) * Heap :=
  match offsets with
  | [] => (Ok best, hp)
  | offset :: rest =>
      match readVector db hp offset with
      | (Err _, hp') => scan db vector rest hp' best
      | (Panic, hp') => (Panic, hp')
      | (Ok cached, hp') =>
          let score := cosineSimilarity vector (deref hp' cached) in
          if F32.gtb score (snd best)
          then scan db vector rest hp' (Some cached, score)
          else scan db vector rest hp' best
      end
  end.

Definition FindSimilar (range : gmap Z Z -> list (Z * Z)) (vector : list Z)
    (threshold : spec_float) (hp : Heap) (db : DB)
    : outcome (option vecref * spec_float) * Heap :=
  if negb (Z.of_nat (length vector) =? dimension db) then (Err ErrDimensionMismatch, hp)
  else
    let offsets := map snd (range (index db)) in
    match scan db vector offsets hp (None, F32.neg_one) with
    | (Ok (bestVector, bestScore), hp') =>
        if F32.geb bestScore threshold then (Ok (bestVector, bestScore), hp')
        else (Err ErrNotFound, hp')
    | (Err e, hp') => (Err e, hp')
    | (Panic, hp') => (Panic, hp')
    end.

(** ** Stats and Close *)

Record StatsMap := mkStats {
  records : Z;
  stat_dimension : Z;
  file_size : Z;
  index_size : Z;
  cache_size : Z;
  cache_capacity : Z
}.

(** [stat, _ := db.file.Stat()] drops the error; on a closed file [stat]
    is nil and [stat.Size()] panics. *)
Definition Stats (db : DB) : outcome StatsMap :=
  match StatSize (file db) with
  | None => Panic
  | Some sz =>
      Ok {| records := Z.of_nat (size (index db));
            stat_dimension := dimension db;
            file_size := sz;
            index_size := Z.of_nat (size (index db));
            cache_size := LRU.Len (cache db);
            cache_capacity := LRU.capacity (cache db) |}
  end.

(** The write loop of [writeIndexSection]: the file after the writes and
    [currentOffset], or the file as the failing write found it. *)
Fixpoint write_entries (f : File) (entries : list (Z * Z)) (currentOffset : Z)
    : File + File * Z :=
  match entries with
  | [] => inr (f, currentOffset)
  | (hash, offset) :: rest =>
      match WriteAt f (EncodeIndexEntry {| Hash := hash; Offset := offset |}) currentOffset with
      | None => inl f
      | Some f' => write_entries f' rest (i64 (currentOffset + IndexEntrySize))
      end
  end.

Definition writeIndexSection (range : gmap Z Z -> list (Z * Z)) (db : DB)
    : outcome unit * DB :=
  let indexOffset := dataEndOffset db in
  let entries := range (index db) in
  match write_entries (file db) entries indexOffset with
  | inl f => (Err ErrIO, set_file f db)
  | inr (f, currentOffset) =>
      match Truncate f currentOffset with
      | None => (Err ErrIO, set_file f db)
      | Some f' =>
          (Ok tt,
           set_header (set_IndexOffset (u64 indexOffset) (header db)) (set_file f' db))
      end
  end.

Definition Close (range : gmap Z Z -> list (Z * Z)) (db : DB) : outcome unit * DB :=
  let step1 :=
    if (0 <? Z.of_nat (size (index db))) && (Version (header db) >=? 2)
    then writeIndexSection range db
    else (Ok tt, db) in
  match step1 with
  | (Ok _, db) =>
      match WriteAt (file db) (Header_Encode (header db)) 0 with
      | None => (Err ErrIO, db)
      | Some f =>
          let db := set_file f db in
          match unmap db with
          | None => (Err ErrIO, db)
          | Some db =>
              match CloseFile (file db) with
              | None => (Err ErrIO, db)
              | Some f' => (Ok tt, set_file f' db)
              end
          end
      end
  | (Err e, db) => (Err e, db)
  | (Panic, db) => (Panic, db)
  end.

(** Typing of the engine's integers. *)
Definition is_u32 (z : Z) : Prop := 0 <= z < 2 ^ 32.
Definition is_u64 (z : Z) : Prop := 0 <= z < 2 ^ 64.
Definition is_i64 (z : Z) : Prop := - 2 ^ 63 <= z < 2 ^ 63.

(** An index entry as a pair, and its bytes. *)
Definition encode_pair (e : Z * Z) : list byte :=
  EncodeIndexEntry {| Hash := e.1; Offset := e.2 |}.

Definition typed_pair (e : Z * Z) : Prop := is_u64 e.1 /\ is_i64 e.2.

(** ** Clients and layouts used in the statements *)

(** A caller inserting pairs one after the other, stopping at the first
    failure. *)
Fixpoint insert_all (kvs : list (string * list Z)) (db : DB) : outcome unit * DB :=
  match kvs with
  | [] => (Ok tt, db)
  | (k, v) :: rest =>
      match Insert k v db with
      | (Ok _, db') => insert_all rest db'
      | r => r
      end
  end.

(** A caller reading keys one after the other and dropping the results. *)
Fixpoint get_all (ks : list string) (hp : Heap) (db : DB) : Heap * DB :=
  match ks with
  | [] => (hp, db)
  | k :: rest =>
      let '(_, hp', db') := Get k hp db in get_all rest hp' db'
  end.

(** A byte string cut into index entries of 16 bytes; a shorter rest is
    not an entry. *)
Fixpoint index_entries (n : nat) (bs : list byte) : list (Z * Z) :=
  match n with
  | O => []
  | S n' =>
      let e := DecodeIndexEntry (take 16 bs) in
      (Hash e, Offset e) :: index_entries n' (drop 16 bs)
  end.

Definition file_tail (f : File) (from : Z) : list byte :=
  drop (Z.to_nat from) (contents f).

Definition tail_entries (f : File) (from : Z) : list (Z * Z) :=
  let t := file_tail f from in
  index_entries (length t / 16) t.

(** The file that a clean close leaves: the encoded header, then what
    lay between the header and [dataEndOffset], then the entries. *)
Definition closed_image (range : gmap Z Z -> list (Z * Z)) (db : DB) : list byte :=
  Header_Encode (set_IndexOffset (dataEndOffset db) (header db))
  ++ drop 256 (resize (Z.to_nat (dataEndOffset db)) Byte.x00 (contents (file db))
               ++ concat (map encode_pair (range (index db)))).

(** The last offset paired with [h] in a sequence of (hash, offset)
    pairs, and the first one. *)
Definition last_offset (h : Z) (es : list (Z * Z)) : option Z :=
  snd <$> List.find (fun e => fst e =? h) (rev es).

Definition first_offset (h : Z) (es : list (Z * Z)) : option Z :=
  snd <$> List.find (fun e => fst e =? h) es.

(** The index obtained by assigning the pairs in order, as both
    build-index loops do ([db.index[hash] = offset]). *)
Definition index_of_pairs (idx : gmap Z Z) (es : list (Z * Z)) : gmap Z Z :=
  fold_left (fun m e => <[e.1 := e.2]> m) es idx.

(** What build-index reads, in scan order: the entries of the index
    section, and the (hash, offset) of the records met by the legacy walk
    from [offset] on ([n] steps at most). *)
Definition section_pairs (db : DB) : list (Z * Z) :=
  tail_entries (file db) (i64 (IndexOffset (header db))).

Fixpoint legacy_pairs (db : DB) (n : nat) (offset : Z) : list (Z * Z) :=
  match n with
  | O => []
  | S n' =>
      if (offset <? mmap_len db) && (offset + RecordMetaSize <=? mmap_len db) then
        match mmap_slice db offset (offset + 8),
              mmap_slice db (offset + 8) (offset + 12) with
        | Some hb, Some d =>
            (Uint64 hb, offset)
            :: legacy_pairs db n' (offset + RecordMetaSize + Uint32 d * 4)
        | _, _ => []
        end
      else []
  end.

(** ** Invariants of an open engine *)

(** The record of [h] with vector [v] starts at [off], inside the data
    section. *)
Definition record_at (db : DB) (h off : Z) (v : list Z) : Prop :=
  HeaderSize <= off /\
  off + RecordMetaSize + 4 * Z.of_nat (length v) <= dataEndOffset db /\
  Forall is_u32 v /\
  is_u32 (Z.of_nat (length v)) /\
  exists rest,
    drop (Z.to_nat off) (contents (file db)) = record_bytes h v ++ rest.

(** The engine holds exactly the vectors of [m], by hash: the file is
    open and mapped whole, the data section ends inside the file, and the
    index points at the records. *)
Definition store_inv (m : gmap Z (list Z)) (db : DB) : Prop :=
  closed (file db) = false /\
  HeaderSize <= dataEndOffset db /\
  dataEndOffset db <= Z.of_nat (length (contents (file db))) <= max_off /\
  mmap db = (if Z.of_nat (length (contents (file db))) <=? HeaderSize
             then MmapNil
             else Mapped (Z.of_nat (length (contents (file db))))) /\
  (forall h, index db !! h = None <-> m !! h = None) /\
  (forall h off, index db !! h = Some off ->
                 exists v, m !! h = Some v /\ record_at db h off v).

(** Every cached slice holds the vector stored under its hash. *)
Definition cache_inv (m : gmap Z (list Z)) (hp : Heap) (db : DB) : Prop :=
  forall e, e ∈ LRU.lru (cache db) ->
            exists v, m !! LRU.hash e = Some v /\ hp !! LRU.vector e = Some v.

(** The scan of [FindSimilar] told on the vectors themselves: the best
    vector so far and its score, replaced by a vector that scores strictly
    higher. *)
Definition better (vector : list Z) (best : option (list Z) * spec_float)
    (v : list Z) : option (list Z) * spec_float :=
  let score := cosineSimilarity vector v in
  if F32.gtb score (snd best) then (Some v, score) else best.

Definition best_of (vector : list Z) (vs : list (list Z))
    : option (list Z) * spec_float :=
  fold_left (better vector) vs (None, F32.neg_one).

(** A slice (nil or not) holds a vector (absent or not). *)
Definition slice_holds (hp : Heap) (s : option vecref) (v : option (list Z)) : Prop :=
  match s, v with
  | Some r, Some w => hp !! r = Some w
  | None, None => True
  | _, _ => False
  end.

(** The vectors that the index points at, in the order of an enumeration
    of the index. *)
Definition stored_vectors (m : gmap Z (list Z)) (entries : list (Z * Z))
    : list (list Z) :=
  map (fun e => default [] (m !! e.1)) entries.

(** ** Records laid out back to back *)

(** The data section that holds these (hash, vector) records one after
    the other, and the index pairs of the records when the first starts
    at [off]. *)
Definition data_section (recs : list (Z * list Z)) : list byte :=
  flat_map (fun r => record_bytes r.1 r.2) recs.

Fixpoint record_offsets (recs : list (Z * list Z)) (off : Z) : list (Z * Z) :=
  match recs with
  | [] => []
  | r :: rest =>
      (r.1, off)
      :: record_offsets rest (off + RecordMetaSize + 4 * Z.of_nat (length r.2))
  end.

(** A caller inserting pairs one after the other and going on whatever
    each Insert returns. *)
Fixpoint insert_each (kvs : list (string * list Z)) (db : DB) : DB :=
  match kvs with
  | [] => db
  | (k, v) :: rest => insert_each rest (snd (Insert k v db))
  end.

(** The records that a caller's pairs become. *)
Definition records_of (kvs : list (string * list Z)) : list (Z * list Z) :=
  map (fun kv => (HashText kv.1, kv.2)) kvs.

(** An open engine whose file is the header block [hd] followed by
    exactly the records [recs], each of them indexed, with the mapping as
    [remap] leaves it. *)
Definition packed (hd : list byte) (recs : list (Z * list Z)) (db : DB) : Prop :=
  let bytes := hd ++ data_section recs in
  length hd = 256%nat /\
  file db = {| contents := bytes; closed := false |} /\
  dataEndOffset db = Z.of_nat (length bytes) /\
  mmap db = (if Z.of_nat (length bytes) <=? HeaderSize then MmapNil
             else Mapped (Z.of_nat (length bytes))) /\
  index db = index_of_pairs ∅ (record_offsets recs HeaderSize) /\
  size (index db) = length recs.

(** During the scan of [FindSimilar] that started on the heap [hp0]: the
    best slice so far was allocated by the scan, and the score kept with
    it is its similarity to the query. *)
Definition best_fresh (vector : list Z) (hp0 hp : Heap)
    (best : option vecref * spec_float) : Prop :=
  match fst best with
  | Some s =>
      (length hp0 <= s < length hp)%nat /\
      snd best = cosineSimilarity vector (deref hp s)
  | None => True
  end.

(** ** Durable engines and sessions *)

(** A sound engine of dimension [D] holding the vectors [m], with a
    well-typed header of the current version; an engine that holds
    nothing has a file of the header alone. *)
Definition durable (m : gmap Z (list Z)) (D : Z) (db : DB) : Prop :=
  store_inv m db /\
  dimension db = D /\ is_u32 D /\
  Magic (header db) = MagicBytes /\
  Version (header db) = CurrentVersion /\
  Dimension (header db) = D /\
  is_u64 (RecordCount (header db)) /\
  is_u64 (DataOffset (header db)) /\
  (forall h, is_Some (m !! h) -> is_u64 h) /\
  (m = ∅ ->
   Z.of_nat (length (contents (file db))) = HeaderSize /\
   IndexOffset (header db) = 0).

(** The vectors held after inserting pairs one after the other. *)
Definition insert_pairs (m : gmap Z (list Z)) (kvs : list (string * list Z))
    : gmap Z (list Z) :=
  fold_left (fun m kv => <[HashText kv.1 := kv.2]> m) kvs m.

(** A caller running sessions on one file: in each session a batch of
    pairs is inserted, the engine is closed, and the file is opened
    again. *)
Fixpoint sessions (range : gmap Z Z -> list (Z * Z)) (D : Z) (opts : OpenOptions)
    (batches : list (list (string * list Z))) (db : DB) : outcome DB :=
  match batches with
  | [] => Ok db
  | kvs :: rest =>
      match insert_all kvs db with
      | (Ok _, db1) =>
          match Close range db1 with
          | (Ok _, db2) =>
              match OpenWithOptions (Some (contents (file db2))) D opts with
              | Ok db3 => sessions range D opts rest db3
              | r => r
              end
          | (Err e, _) => Err e
          | (Panic, _) => Panic
          end
      | (Err e, _) => Err e
      | (Panic, _) => Panic
      end
  end.

(** ** Example engines *)

Definition the_db (r : outcome DB) : DB :=
  match r with
  | Ok db => db
  | _ => new_DB [] 0 0
  end.

(** The float 1.0 and a one-dimensional vector holding it. *)
Definition one_bits : Z := 1065353216.
Definition ex_vec : list Z := [one_bits].

(** A fresh engine of dimension 1, then with key "a" inserted, then with
    "a" read once (so that it is cached), then closed. *)
Definition ex_fresh : DB := the_db (Open None 1).
Definition ex_one : DB := snd (Insert "a" ex_vec ex_fresh).
Definition ex_read : Heap * DB :=
  let '(_, hp, db) := Get "a" [] ex_one in (hp, db).
Definition ex_closed : DB := snd (Close map_to_list (snd ex_read)).

(** The bytes left behind by a process that inserted "a" and ended
    without calling Close, and the engine that opens them. *)
Definition ex_unclosed_bytes : list byte := contents (file ex_one).
Definition ex_reopened : DB := the_db (Open (Some ex_unclosed_bytes) 1).


(** A trace on a cache of capacity 2. *)
Definition ex_trace_prefix : list LRU.op :=
  [LRU.OpPut 1 0%nat; LRU.OpPut 2 0%nat; LRU.OpGet 1].
Definition ex_trace : list LRU.op := ex_trace_prefix ++ [LRU.OpPut 3 0%nat].

(** Two files in which the hash 7 occurs twice, at offsets 256 and 276:
    one without index section, one with. *)
Definition ex_dup_legacy_bytes : list byte :=
  Header_Encode (NewHeader 1) ++ record_bytes 7 ex_vec ++ record_bytes 7 [0].
Definition ex_dup_section_bytes : list byte :=
  Header_Encode (mkHeader MagicBytes 2 1 2 296 HeaderSize)
  ++ record_bytes 7 ex_vec ++ record_bytes 7 [0]
  ++ encode_pair (7, 256) ++ encode_pair (7, 276).

(** The engine as [open] has it when it calls [buildIndex] on a file of
    these bytes with this header. *)
Definition before_buildIndex (bytes : list byte) (D : Z) : DB :=
  set_mmap (Mapped (Z.of_nat (length bytes)))
    (set_header (DecodeHeader (take 256 bytes)) (new_DB bytes D 100)).

(** A store holding the float -1.0 under key "n". *)
Definition neg_one_bits : Z := 3212836864.
Definition ex_neg : DB := snd (Insert "n" [neg_one_bits] ex_fresh).

(** Two keys with the same FNV-1a hash: eight bytes that hash to 0, and
    the same bytes followed by a zero byte. *)
Definition ex_key_zero : string :=
  string_of_list_byte
    [Byte.xd5; Byte.x6b; Byte.xb9; Byte.x53; Byte.x42; Byte.x87; Byte.x08; Byte.x36].
Definition ex_key_zero' : string :=
  string_of_list_byte
    [Byte.xd5; Byte.x6b; Byte.xb9; Byte.x53; Byte.x42; Byte.x87; Byte.x08; Byte.x36;
     Byte.x00].

(** Two pairs to insert. *)
Definition ex_pairs : list (string * list Z) :=
  [("a"%string, ex_vec); ("b"%string, [0])].
Definition ex_colliding_pairs : list (string * list Z) :=
  [(ex_key_zero, ex_vec); (ex_key_zero', [0])].

(** The engine that opens the file left by the clean close of the engine
    holding "a". *)
Definition ex_reopened_closed : DB :=
  the_db (Open (Some (contents (file ex_closed))) 1).

(** A file of 257 bytes whose header points the index section at offset
    1000. *)
Definition ex_beyond_bytes : list byte :=
  Header_Encode (mkHeader MagicBytes 2 1 0 1000 HeaderSize) ++ [Byte.x00].

(** * Properties *)

(** ** Integers and bytes *)

Lemma i64_id z : is_i64 z -> i64 z = z.
Proof.
  unfold is_i64, i64. intros H.
  rewrite Z.mod_small by lia. lia.
Qed.

Lemma u64_id z : is_u64 z -> u64 z = z.
Proof. unfold is_u64, u64. intros H. by rewrite Z.mod_small. Qed.

Lemma u32_id z : is_u32 z -> u32 z = z.
Proof. unfold is_u32, u32. intros H. by rewrite Z.mod_small. Qed.

Lemma i64_u64 z : is_i64 z -> i64 (u64 z) = z.
Proof.
  unfold is_i64, i64, u64. intros H.
  destruct (Z.leb_spec 0 z).
  - rewrite (Z.mod_small z) by lia. rewrite Z.mod_small by lia. lia.
  - replace (z mod 2 ^ 64) with (z + 2 ^ 64).
    + replace (z + 2 ^ 64 + 2 ^ 63) with (z + 2 ^ 63 + 1 * 2 ^ 64) by lia.
      rewrite Z.mod_add by lia. rewrite Z.mod_small by lia. lia.
    + symmetry. rewrite <- (Z.mod_add z 1) by lia. apply Z.mod_small. lia.
Qed.

Lemma length_PutUint32 v : length (PutUint32 v) = 4%nat.
Proof. apply length_le_split. Qed.

Lemma length_PutUint64 v : length (PutUint64 v) = 8%nat.
Proof. apply length_le_split. Qed.

Lemma Uint32_PutUint32 v rest : is_u32 v -> Uint32 (PutUint32 v ++ rest) = v.
Proof.
  intros H. unfold Uint32.
  rewrite take_app_length' by (by rewrite length_PutUint32).
  unfold PutUint32. rewrite le_combine_split.
  apply Z.mod_small. exact H.
Qed.

Lemma Uint64_PutUint64 v rest : is_u64 v -> Uint64 (PutUint64 v ++ rest) = v.
Proof.
  intros H. unfold Uint64.
  rewrite take_app_length' by (by rewrite length_PutUint64).
  unfold PutUint64. rewrite le_combine_split.
  apply Z.mod_small. exact H.
Qed.

Lemma Uint32_range b : is_u32 (Uint32 b).
Proof.
  unfold Uint32, is_u32.
  pose proof (le_combine_bound (take 4 b)) as H.
  rewrite length_take in H.
  assert (2 ^ (8 * Z.of_nat (4 `min` length b)) <= 2 ^ 32).
  { apply Z.pow_le_mono_r; lia. }
  lia.
Qed.

Lemma Uint64_range b : is_u64 (Uint64 b).
Proof.
  unfold Uint64, is_u64.
  pose proof (le_combine_bound (take 8 b)) as H.
  rewrite length_take in H.
  assert (2 ^ (8 * Z.of_nat (8 `min` length b)) <= 2 ^ 64).
  { apply Z.pow_le_mono_r; lia. }
  lia.
Qed.

Lemma HashText_range text : is_u64 (HashText text).
Proof.
  unfold HashText.
  assert (Hgen : forall bs h, is_u64 h -> is_u64 (fold_left fnv1a_step bs h)).
  { induction bs as [|b bs IH]; intros h Hh; simpl; [done|].
    apply IH. unfold fnv1a_step, u64, is_u64. apply Z.mod_pos_bound. lia. }
  apply Hgen. unfold is_u64, fnv_offset64. lia.
Qed.

(** ** The engine record *)

Lemma set_file_same db : set_file (file db) db = db.
Proof. by destruct db. Qed.

(** ** Insert: dimension check and idempotence *)

Lemma Insert_wrong_dimension text vector db :
  Z.of_nat (length vector) <> dimension db ->
  Insert text vector db = (Err ErrDimensionMismatch, db).
Proof.
  intros H. unfold Insert.
  destruct (Z.eqb_spec (Z.of_nat (length vector)) (dimension db)); [done|].
  reflexivity.
Qed.

Lemma Insert_existing text vector db off :
  Z.of_nat (length vector) = dimension db ->
  index db !! HashText text = Some off ->
  Insert text vector db = (Ok tt, db).
Proof.
  intros Hd Hi. unfold Insert.
  rewrite Hd, Z.eqb_refl. simpl. by rewrite Hi.
Qed.

Lemma Insert_Ok_indexed text vector db db1 :
  Insert text vector db = (Ok tt, db1) ->
  dimension db1 = dimension db /\ is_Some (index db1 !! HashText text).
Proof.
  unfold Insert.
  destruct (Z.eqb_spec (Z.of_nat (length vector)) (dimension db)); simpl; [|done].
  destruct (index db !! HashText text) as [off|] eqn:Hi.
  { intros [= <-]. by rewrite Hi. }
  destruct (WriteAt _ _ _) as [f|]; [|done].
  unfold remap, unmap. simpl.
  destruct (mmap db); simpl; try done;
    destruct (StatSize f); try done;
    destruct (_ <=? _); intros [= <-]; simpl;
    rewrite lookup_insert_eq; eauto.
Qed.

(** C8.  Insert is idempotent per key for vectors of the engine's
    dimension: an Insert of a vector of the right length under a key
    whose hash is indexed succeeds and returns the engine unchanged, and
    so does a second Insert of a pair whose first Insert succeeded. *)
Theorem Insert_idempotent text vector db :
  (forall off vector',
      index db !! HashText text = Some off ->
      Z.of_nat (length vector') = dimension db ->
      Insert text vector' db = (Ok tt, db)) /\
  (forall db1,
      Insert text vector db = (Ok tt, db1) ->
      Insert text vector db1 = (Ok tt, db1)).
Proof.
  split.
  - intros off vector' Hi Hd. by eapply Insert_existing.
  - intros db1 H.
    destruct (Insert_Ok_indexed _ _ _ _ H) as [Hd [off Hi]].
    eapply Insert_existing; [|done].
    rewrite Hd. unfold Insert in H.
    destruct (Z.eqb_spec (Z.of_nat (length vector)) (dimension db)); simpl in H; done.
Qed.
Lemma Get_absent text hp db :
  index db !! HashText text = None ->
  LRU.lookup (HashText text) (LRU.lru (cache db)) = None ->
  Get text hp db = (Err ErrNotFound, hp, db).
Proof.
  intros Hi Hc. unfold Get, LRU.Get. by rewrite Hc, Hi.
Qed.

(** C7.  An Insert of a vector whose length is not the dimension fails
    with DimensionMismatch and returns the engine unchanged, so a Get of
    that key afterwards does what it would have done before; it is
    NotFound when the key's hash is neither indexed nor cached. *)
Theorem Insert_dimension_mismatch text vector db :
  Z.of_nat (length vector) <> dimension db ->
  Insert text vector db = (Err ErrDimensionMismatch, db) /\
  forall hp,
    Get text hp (snd (Insert text vector db)) = Get text hp db /\
    (index db !! HashText text = None ->
     LRU.lookup (HashText text) (LRU.lru (cache db)) = None ->
     Get text hp (snd (Insert text vector db)) = (Err ErrNotFound, hp, db)).
Proof.
  intros H. rewrite (Insert_wrong_dimension _ _ _ H). simpl.
  split; [done|]. intros hp. split; [done|]. apply Get_absent.
Qed.

(** ** Open: what the header decides *)





(** ** After Close *)

Lemma WriteAt_closed f buf off : closed f = true -> WriteAt f buf off = None.
Proof. intros H. unfold WriteAt. by rewrite H. Qed.

Lemma Close_closed range db :
  closed (file db) = true -> Close range db = (Err ErrIO, db).
Proof.
  intros Hc. unfold Close.
  destruct (_ && _).
  - unfold writeIndexSection.
    destruct (range (index db)) as [|[h o] rest]; simpl.
    + unfold Truncate. rewrite Hc. by rewrite set_file_same.
    + rewrite WriteAt_closed by done. by rewrite set_file_same.
  - by rewrite WriteAt_closed.
Qed.

Lemma Close_Ok_closed range db db1 :
  Close range db = (Ok tt, db1) -> closed (file db1) = true.
Proof.
  unfold Close.
  destruct (if _ && _ then _ else _) as [[[]| |] db'] eqn:E; try done.
  destruct (WriteAt _ _ _) as [f|]; [|done].
  destruct (unmap _) as [db2|]; [|done].
  unfold CloseFile. destruct (closed (file db2)); [done|].
  by intros [= <-].
Qed.

Lemma Insert_closed text vector db :
  closed (file db) = true ->
  Z.of_nat (length vector) = dimension db ->
  index db !! HashText text = None ->
  Insert text vector db = (Err ErrIO, db).
Proof.
  intros Hc Hd Hi. unfold Insert.
  rewrite Hd, Z.eqb_refl. cbn [negb]. rewrite Hi.
  by rewrite WriteAt_closed.
Qed.

Lemma Get_cached text hp db e :
  LRU.lookup (HashText text) (LRU.lru (cache db)) = Some e ->
  Get text hp db =
    (Ok (LRU.vector e), hp,
     set_cache {| LRU.capacity := LRU.capacity (cache db);
                  LRU.lru := e :: LRU.unlink (HashText text) (LRU.lru (cache db)) |} db).
Proof. intros H. unfold Get, LRU.Get. by rewrite H. Qed.

Lemma FindSimilar_wrong_dimension range vector threshold hp db :
  Z.of_nat (length vector) <> dimension db ->
  FindSimilar range vector threshold hp db = (Err ErrDimensionMismatch, hp).
Proof.
  intros H. unfold FindSimilar.
  by destruct (Z.eqb_spec (Z.of_nat (length vector)) (dimension db)).
Qed.

(** C5.  The engine has no Closed error and no state of its own for
    being closed.  After a successful Close the descriptor is closed: a
    second Close and an Insert of a new key fail with the I/O error of the
    write, and the paths that need neither the file nor the mapping
    behave as before: the dimension checks of Insert and FindSimilar, the
    Insert of an indexed key (success), the Get of a cached key
    (success), the Get of an unknown key (NotFound). *)
Theorem closed_engine_operations range db db1 :
  Close range db = (Ok tt, db1) ->
  closed (file db1) = true /\
  (forall range', Close range' db1 = (Err ErrIO, db1)) /\
  (forall text vector,
      Z.of_nat (length vector) <> dimension db1 ->
      Insert text vector db1 = (Err ErrDimensionMismatch, db1)) /\
  (forall text vector,
      Z.of_nat (length vector) = dimension db1 ->
      index db1 !! HashText text = None ->
      Insert text vector db1 = (Err ErrIO, db1)) /\
  (forall text vector off,
      Z.of_nat (length vector) = dimension db1 ->
      index db1 !! HashText text = Some off ->
      Insert text vector db1 = (Ok tt, db1)) /\
  (forall text hp e,
      LRU.lookup (HashText text) (LRU.lru (cache db1)) = Some e ->
      fst (fst (Get text hp db1)) = Ok (LRU.vector e)) /\
  (forall text hp,
      LRU.lookup (HashText text) (LRU.lru (cache db1)) = None ->
      index db1 !! HashText text = None ->
      Get text hp db1 = (Err ErrNotFound, hp, db1)) /\
  (forall range' vector threshold hp,
      Z.of_nat (length vector) <> dimension db1 ->
      FindSimilar range' vector threshold hp db1 = (Err ErrDimensionMismatch, hp)).
Proof.
  intros H. pose proof (Close_Ok_closed _ _ _ H) as Hc.
  split; [done|].
  split; [intros; by apply Close_closed|].
  split; [intros; by apply Insert_wrong_dimension|].
  split; [intros; by apply Insert_closed|].
  split; [intros; by eapply Insert_existing|].
  split; [intros ??? He; by rewrite (Get_cached _ _ _ _ He)|].
  split; [intros; by apply Get_absent|].
  intros; by apply FindSimilar_wrong_dimension.
Qed.

(** ** The LRU cache *)

Section LRUProps.
Import LRU.

Implicit Types (c : LRUCache) (l : list cacheEntry) (h k : Z) (ops : list op).
Implicit Types (M K : list Z) (n : nat).

Lemma lookup_None h l : lookup h l = None <-> h ∉ map hash l.
Proof.
  induction l as [|e l IH]; simpl.
  - split; [intros _; apply not_elem_of_nil | done].
  - destruct (Z.eqb_spec (hash e) h) as [->|Hne].
    + split; [done|]. intros H. exfalso. apply H. left.
    + rewrite IH, not_elem_of_cons. split; [by intros; split; [congruence|]|by intros [_ ?]].
Qed.

Lemma lookup_Some h l e : lookup h l = Some e -> hash e = h /\ h ∈ map hash l.
Proof.
  induction l as [|e' l IH]; simpl; [done|].
  destruct (Z.eqb_spec (hash e') h) as [Heq|Hne].
  - intros [= <-]. split; [done|]. rewrite Heq. left.
  - intros H. destruct (IH H) as [? ?]. split; [done|]. by right.
Qed.

Lemma filter_ne_id h M : h ∉ M -> filter (fun k' => k' <> h) M = M.
Proof.
  induction M as [|x M IH]; [done|].
  rewrite not_elem_of_cons. intros [Hx HM].
  rewrite filter_cons_True by congruence. by rewrite IH.
Qed.

Lemma keys_unlink h l :
  NoDup (map hash l) ->
  map hash (unlink h l) = filter (fun k' => k' <> h) (map hash l).
Proof.
  induction l as [|e l IH]; simpl; [done|].
  intros Hnd. apply NoDup_cons in Hnd as [Hin Hnd].
  destruct (Z.eqb_spec (hash e) h) as [Heq|Hne].
  - rewrite filter_cons_False by (intros Hc; by apply Hc).
    rewrite filter_ne_id; [done|]. by rewrite <- Heq.
  - rewrite filter_cons_True by done. simpl. by rewrite IH.
Qed.

Lemma map_removelast {A B} (f : A -> B) (l : list A) :
  map f (removelast l) = removelast (map f l).
Proof.
  induction l as [|x [|y l] IH]; try done.
  change (f x :: map f (removelast (y :: l)) = f x :: removelast (map f (y :: l))).
  by rewrite IH.
Qed.

(** The keys after one operation, in terms of the keys before. *)
Lemma keys_step c o :
  NoDup (keys c) ->
  keys (step c o) =
    if touches c o then
      if bool_decide (op_key o ∈ keys c)
      then op_key o :: filter (fun k' => k' <> op_key o) (keys c)
      else if Z.of_nat (S (length (keys c))) >? capacity c
           then removelast (op_key o :: keys c)
           else op_key o :: keys c
    else keys c.
Proof.
  intros Hnd. unfold keys in *. destruct o as [h|h v]; unfold step, touches, op_key.
  - unfold Get. destruct (lookup h (lru c)) as [e|] eqn:E; cbn [fst snd lru].
    + destruct (lookup_Some _ _ _ E) as [He Hin].
      rewrite bool_decide_eq_true_2 by eauto.
      rewrite bool_decide_eq_true_2 by done.
      cbn [map]. by rewrite keys_unlink, He.
    + rewrite bool_decide_eq_false_2; [done|]. by intros [? ?].
  - unfold Put. destruct (lookup h (lru c)) as [e|] eqn:E; cbn [lru].
    + destruct (lookup_Some _ _ _ E) as [He Hin].
      rewrite (bool_decide_eq_true_2 _ Hin).
      cbn [map hash]. by rewrite keys_unlink, He.
    + apply lookup_None in E.
      rewrite bool_decide_eq_false_2 by done.
      rewrite length_map. cbn [capacity length].
      destruct (_ >? _); [|done].
      unfold evict. cbn [lru]. by rewrite map_removelast.
Qed.

Lemma capacity_step c o : capacity (step c o) = capacity c.
Proof.
  destruct o as [h|h v]; simpl.
  - unfold Get. by destruct (lookup h (lru c)).
  - unfold Put. destruct (lookup h (lru c)); [done|].
    simpl. by destruct (_ >? _).
Qed.

Lemma capacity_run ops c : capacity (run c ops) = capacity c.
Proof.
  unfold run. revert c. induction ops as [|o ops IH]; intros c; simpl; [done|].
  by rewrite IH, capacity_step.
Qed.

Lemma run_snoc c ops o : run c (ops ++ [o]) = step (run c ops) o.
Proof. unfold run. by rewrite fold_left_app. Qed.

Lemma touched_snoc c ops o :
  touched c (ops ++ [o]) =
    touched c ops ++ (if touches (run c ops) o then [op_key o] else []).
Proof.
  revert c. induction ops as [|o' ops IH]; intros c; simpl.
  - by rewrite app_nil_r.
  - rewrite IH. by rewrite <- app_assoc.
Qed.

Lemma mru_order_snoc ts k :
  mru_order (ts ++ [k]) = k :: filter (fun k' => k' <> k) (mru_order ts).
Proof. unfold mru_order. by rewrite fold_left_app. Qed.

Lemma NoDup_mru_order ts : NoDup (mru_order ts).
Proof.
  induction ts as [|k ts IH] using rev_ind; [apply NoDup_nil_2|].
  rewrite mru_order_snoc. apply NoDup_cons. split.
  - rewrite list_elem_of_filter. intros [Hc _]. by apply Hc.
  - by apply NoDup_filter.
Qed.

Lemma take_filter_hit h M n :
  NoDup M -> h ∈ take n M ->
  filter (fun k' => k' <> h) (take n M)
  = take (pred n) (filter (fun k' => k' <> h) M).
Proof.
  revert n. induction M as [|x M IH]; intros n Hnd Hin.
  - rewrite take_nil in Hin. by apply elem_of_nil in Hin.
  - destruct n as [|n]; [by apply elem_of_nil in Hin|].
    apply NoDup_cons in Hnd as [Hx Hnd]. simpl in *.
    destruct (decide (x = h)) as [->|Hne].
    + rewrite !filter_cons_False by (intros Hc; by apply Hc).
      rewrite !filter_ne_id; [done|done|].
      intros Hc. apply Hx. by eapply elem_of_sublist, sublist_take.
    + rewrite !filter_cons_True by done.
      apply elem_of_cons in Hin as [->|Hin]; [done|].
      rewrite IH by done.
      destruct n as [|n]; [by apply elem_of_nil in Hin|]. done.
Qed.

Lemma take_filter_miss h M n :
  h ∉ take n M -> take n (filter (fun k' => k' <> h) M) = take n M.
Proof.
  revert n. induction M as [|x M IH]; intros n Hin; [done|].
  destruct n as [|n]; [done|]. simpl in Hin.
  apply not_elem_of_cons in Hin as [Hx Hin].
  rewrite filter_cons_True by congruence. simpl. by rewrite IH.
Qed.

Lemma not_elem_of_take_le h M n n' :
  (n' <= n)%nat -> h ∉ take n M -> h ∉ take n' M.
Proof.
  intros Hle Hout Hc. apply Hout.
  rewrite <- (Nat.min_l n' n) in Hc by done.
  rewrite <- take_take in Hc.
  eapply elem_of_sublist; [exact Hc|apply sublist_take].
Qed.

(** The keys held are the first [capacity] keys in order of recency. *)
Lemma keys_run C ops :
  let c0 := NewLRUCache C in
  keys (run c0 ops) = take (Z.to_nat C) (mru_order (touched c0 ops)).
Proof.
  intros c0. induction ops as [|o ops IH] using rev_ind.
  - by destruct (Z.to_nat C).
  - rewrite run_snoc, touched_snoc.
    pose proof (NoDup_mru_order (touched c0 ops)) as Hnd.
    set (M := mru_order (touched c0 ops)) in *.
    set (c := run c0 ops) in *.
    assert (HndK : NoDup (keys c)).
    { rewrite IH. eapply sublist_NoDup; [done|apply sublist_take]. }
    rewrite keys_step by done.
    assert (Hcap : capacity c = C) by apply capacity_run.
    rewrite Hcap.
    destruct (touches c o); [|by rewrite app_nil_r].
    rewrite mru_order_snoc. fold M.
    set (h := op_key o).
    assert (Hn : forall n, Z.to_nat C = S n -> C = Z.of_nat (S n)) by lia.
    destruct (bool_decide_reflect (h ∈ keys c)) as [Hin|Hout].
    + rewrite IH in Hin |- *.
      rewrite take_filter_hit by done.
      destruct (Z.to_nat C) as [|n]; [by apply elem_of_nil in Hin|]. done.
    + rewrite IH in Hout |- *.
      rewrite length_take.
      destruct (Z.to_nat C) as [|n] eqn:En.
      { assert (C <= 0) by lia.
        destruct (Z.gtb_spec (Z.of_nat (S (0 `min` length M))) C); [done|lia]. }
      rewrite (Hn n eq_refl).
      pose proof (not_elem_of_take_le h M (S n) n ltac:(lia) Hout) as Hout'.
      cbn [take]. rewrite (take_filter_miss _ _ _ Hout').
      destruct (Z.gtb_spec (Z.of_nat (S (S n `min` length M))) (Z.of_nat (S n)))
        as [Hgt|Hle].
      * rewrite removelast_firstn_len. cbn [length pred].
        rewrite length_take, Nat.min_l by lia.
        cbn [firstn]. f_equal. rewrite take_take. f_equal. lia.
      * f_equal. rewrite !take_ge by lia. done.
Qed.

Lemma last_use_snoc k ops o pos :
  last_use k (ops ++ [o]) pos =
    if op_key o =? k then S (pos + length ops) else last_use k ops pos.
Proof.
  revert pos. induction ops as [|o' ops IH]; intros pos; simpl.
  - rewrite Nat.add_0_r. by destruct (op_key o =? k).
  - rewrite IH. destruct (op_key o =? k); [|done].
    f_equal. lia.
Qed.

Lemma last_use_bound k ops pos : (last_use k ops pos <= pos + length ops)%nat.
Proof.
  revert pos. induction ops as [|o ops IH]; intros pos; simpl; [lia|].
  specialize (IH (S pos)).
  destruct (last_use k ops (S pos)); [|lia].
  destruct (op_key o =? k); lia.
Qed.

Lemma touches_false c o : touches c o = false -> op_key o ∉ keys c.
Proof.
  destruct o as [h|h v]; simpl; [|done].
  unfold Get. destruct (lookup h (lru c)) eqn:E; simpl; [done|].
  intros _. by apply lookup_None.
Qed.

Lemma StronglySorted_sublist {A} (R : relation A) (l1 l2 : list A) :
  l1 `sublist_of` l2 -> StronglySorted R l2 -> StronglySorted R l1.
Proof.
  induction 1 as [|x l1 l2 Hs IH|x l1 l2 Hs IH]; [done| |].
  - rewrite !StronglySorted_cons. intros [Hf Hss]. split; [|by apply IH].
    rewrite Forall_forall in Hf |- *. intros y Hy. apply Hf.
    by eapply elem_of_sublist.
  - rewrite StronglySorted_cons. intros [_ Hss]. by apply IH.
Qed.

Lemma StronglySorted_agree {A} (R R' : relation A) (l : list A) :
  (forall a b, a ∈ l -> b ∈ l -> R a b -> R' a b) ->
  StronglySorted R l -> StronglySorted R' l.
Proof.
  induction l as [|x l IH]; intros Hag; [constructor|].
  rewrite !StronglySorted_cons. intros [Hf Hss]. split.
  - rewrite Forall_forall in Hf |- *. intros y Hy.
    apply Hag; [left|by right|by apply Hf].
  - apply IH; [|done]. intros a b Ha Hb. apply Hag; by right.
Qed.

(** The list runs from the most recently used key to the least. *)
Lemma keys_sorted C ops :
  StronglySorted (newer ops) (keys (run (NewLRUCache C) ops)).
Proof.
  induction ops as [|o ops IH] using rev_ind; [constructor|].
  rewrite run_snoc.
  set (c := run (NewLRUCache C) ops) in *.
  assert (HndK : NoDup (keys c)).
  { unfold c. rewrite keys_run.
    eapply sublist_NoDup; [apply NoDup_mru_order|apply sublist_take]. }
  set (h := op_key o).
  assert (Hsame : forall a b, a <> h -> b <> h -> newer ops a b -> newer (ops ++ [o]) a b).
  { intros a b Ha Hb. unfold newer. rewrite !last_use_snoc. fold h.
    destruct (Z.eqb_spec h a); [congruence|].
    destruct (Z.eqb_spec h b); [congruence|]. done. }
  assert (Hfront : forall b, b <> h -> newer (ops ++ [o]) h b).
  { intros b Hb. unfold newer. rewrite !last_use_snoc. fold h.
    rewrite Z.eqb_refl. destruct (Z.eqb_spec h b); [congruence|].
    pose proof (last_use_bound b ops 0). lia. }
  rewrite keys_step by done. fold h.
  destruct (touches c o) eqn:Ht.
  - assert (Hall : StronglySorted (newer (ops ++ [o]))
                     (h :: filter (fun k' => k' <> h) (keys c))).
    { apply StronglySorted_cons. split.
      - apply Forall_forall. intros b Hb.
        apply list_elem_of_filter in Hb as [Hb _]. by apply Hfront.
      - eapply StronglySorted_agree;
          [|eapply StronglySorted_sublist; [apply sublist_filter|exact IH]].
        intros a b Ha Hb.
        apply list_elem_of_filter in Ha as [Ha _].
        apply list_elem_of_filter in Hb as [Hb _].
        by apply Hsame. }
    destruct (bool_decide_reflect (h ∈ keys c)) as [Hin|Hout]; [done|].
    rewrite filter_ne_id in Hall by done.
    destruct (_ >? _); [|done].
    eapply StronglySorted_sublist; [|exact Hall].
    rewrite removelast_firstn_len. apply sublist_take.
  - pose proof (touches_false _ _ Ht) as Hout. fold h in Hout.
    eapply StronglySorted_agree; [|exact IH].
    intros a b Ha Hb. apply Hsame; intros ->; done.
Qed.

(** The entry that an operation removes is older than every other entry
    that was present. *)
Lemma evicted_is_oldest C ops o e k :
  let c := run (NewLRUCache C) ops in
  e ∈ keys c -> e ∉ keys (step c o) ->
  k ∈ keys c -> k <> e ->
  (last_use e ops 0 < last_use k ops 0)%nat.
Proof.
  intros c He Hgone Hk Hne.
  assert (HndK : NoDup (keys c)).
  { unfold c. rewrite keys_run.
    eapply sublist_NoDup; [apply NoDup_mru_order|apply sublist_take]. }
  pose proof (keys_sorted C ops) as Hs. fold c in Hs.
  rewrite keys_step in Hgone by done.
  set (h := op_key o) in *.
  destruct (touches c o); [|done].
  destruct (bool_decide_reflect (h ∈ keys c)) as [Hin|Hout].
  { exfalso. apply Hgone. destruct (decide (e = h)) as [->|Heh]; [left|].
    right. apply list_elem_of_filter. done. }
  destruct (_ >? _); [|exfalso; apply Hgone; by right].
  destruct (keys c) as [|x K] eqn:EK; [by apply elem_of_nil in He|].
  assert (Hnn : x :: K <> []) by done.
  rewrite (app_removelast_last 0 Hnn) in He, Hk, Hs.
  change (removelast (h :: x :: K)) with (h :: removelast (x :: K)) in Hgone.
  set (K' := removelast (x :: K)) in *. set (y := List.last (x :: K) 0) in *.
  apply not_elem_of_cons in Hgone as [_ Hgone].
  apply elem_of_app in He as [He|He]; [done|].
  apply list_elem_of_singleton in He as ->.
  apply elem_of_app in Hk as [Hk|Hk].
  - eapply (StronglySorted_app_1_elem_of _ _ _ _ _ Hs); [done|].
    apply list_elem_of_singleton. done.
  - apply list_elem_of_singleton in Hk. done.
Qed.

(** C9.  After any trace of Put and Get on a cache of capacity C >= 1 the
    keys held, from most to least recently used, are the first C of the
    distinct touched keys in order of recency (all of them if there are
    fewer); a Put touches its key, a Get touches it when it hits.  When
    an operation removes an entry, every other entry that was present has
    a later last Get or Put. *)
Theorem lru_keeps_most_recent C ops :
  1 <= C ->
  let c0 := NewLRUCache C in
  keys (run c0 ops) = take (Z.to_nat C) (mru_order (touched c0 ops)) /\
  (forall k, k ∈ keys (run c0 ops) <->
             k ∈ take (Z.to_nat C) (mru_order (touched c0 ops))) /\
  (forall ops1 o ops2 e k,
      ops = ops1 ++ o :: ops2 ->
      e ∈ keys (run c0 ops1) -> e ∉ keys (step (run c0 ops1) o) ->
      k ∈ keys (run c0 ops1) -> k <> e ->
      (last_use e ops1 0 < last_use k ops1 0)%nat).
Proof.
  intros HC c0. split; [apply keys_run|]. split.
  - intros k. unfold c0. by rewrite keys_run.
  - intros ops1 o ops2 e k _. apply evicted_is_oldest.
Qed.
End LRUProps.
(** ** Files *)

Lemma WriteAt_Some f buf off :
  closed f = false -> 0 <= off -> off + Z.of_nat (length buf) <= max_off ->
  WriteAt f buf off =
    Some {| contents :=
              resize (Z.to_nat off) Byte.x00 (contents f) ++ buf
              ++ drop (Z.to_nat off + length buf) (contents f);
            closed := false |}.
Proof.
  intros Hc H0 Hm. unfold WriteAt. rewrite Hc.
  destruct (Z.ltb_spec off 0); [lia|].
  destruct (Z.gtb_spec (off + Z.of_nat (length buf)) max_off); [lia|].
  done.
Qed.

Lemma length_EncodeIndexEntry e : length (EncodeIndexEntry e) = 16%nat.
Proof.
  unfold EncodeIndexEntry. by rewrite length_app, !length_PutUint64.
Qed.

Lemma sub_app_l b rest lo hi :
  (hi <= length b)%nat -> sub (b ++ rest) lo hi = sub b lo hi.
Proof.
  intros H. unfold sub.
  destruct (decide (lo <= hi)%nat).
  - rewrite drop_app_le by lia. rewrite take_app_le; [done|].
    rewrite length_drop. lia.
  - by replace (hi - lo)%nat with 0%nat by lia.
Qed.

Lemma Decode_EncodeIndexEntry h o rest :
  is_u64 h -> is_i64 o ->
  DecodeIndexEntry (take 16 (EncodeIndexEntry {| Hash := h; Offset := o |} ++ rest))
  = {| Hash := h; Offset := o |}.
Proof.
  intros Hh Ho.
  rewrite take_app_length' by (by rewrite length_EncodeIndexEntry).
  unfold DecodeIndexEntry, EncodeIndexEntry. cbn [Hash Offset].
  f_equal.
  - unfold sub. rewrite drop_0. cbn [Nat.sub].
    rewrite take_app_length' by (by rewrite length_PutUint64).
    rewrite <- (app_nil_r (PutUint64 h)). by apply Uint64_PutUint64.
  - unfold sub. rewrite drop_app_length' by (by rewrite length_PutUint64).
    cbn [Nat.sub]. rewrite take_ge by (by rewrite length_PutUint64).
    rewrite <- (app_nil_r (PutUint64 _)).
    rewrite Uint64_PutUint64 by (unfold is_u64, u64; apply Z.mod_pos_bound; lia).
    by apply i64_u64.
Qed.

Lemma length_encode_pair e : length (encode_pair e) = 16%nat.
Proof. apply length_EncodeIndexEntry. Qed.

Lemma Decode_encode_pair e rest :
  typed_pair e ->
  let d := DecodeIndexEntry (take 16 (encode_pair e ++ rest)) in
  (Hash d, Offset d) = e.
Proof.
  destruct e as [h o]. intros [Hh Ho]. unfold encode_pair. cbn [fst snd] in *.
  by rewrite Decode_EncodeIndexEntry.
Qed.

Lemma length_encode_pairs es :
  length (concat (map encode_pair es)) = (16 * length es)%nat.
Proof.
  induction es as [|e es IH]; [done|].
  cbn [map concat]. rewrite length_app, IH, length_encode_pair.
  cbn [length]. lia.
Qed.

Lemma index_entries_encode es rest :
  Forall typed_pair es ->
  index_entries (length es) (concat (map encode_pair es) ++ rest) = es.
Proof.
  induction 1 as [|e es He Hes IH]; [done|].
  cbn [length map concat index_entries].
  rewrite <- !app_assoc.
  rewrite Decode_encode_pair by done.
  rewrite drop_app_length' by (by rewrite length_encode_pair).
  by rewrite IH.
Qed.

(** The write loop of [writeIndexSection] lays the entries out one after
    the other from [off] on. *)
Lemma write_entries_spec es f off :
  closed f = false -> 0 <= off ->
  off + 16 * Z.of_nat (length es) <= max_off ->
  exists f',
    write_entries f es off = inr (f', off + 16 * Z.of_nat (length es)) /\
    closed f' = false /\
    resize (Z.to_nat (off + 16 * Z.of_nat (length es))) Byte.x00 (contents f')
    = resize (Z.to_nat off) Byte.x00 (contents f) ++ concat (map encode_pair es).
Proof.
  revert f off. induction es as [|[h o] es IH]; intros f off Hc H0 Hm.
  - exists f. cbn [write_entries length map concat].
    rewrite Z.mul_0_r, Z.add_0_r, app_nil_r. done.
  - cbn [write_entries]. cbn [length] in Hm.
    pose proof (length_EncodeIndexEntry {| Hash := h; Offset := o |}) as Hlen.
    rewrite WriteAt_Some; [|done|done|rewrite Hlen; lia].
    rewrite Hlen.
    unfold IndexEntrySize. rewrite i64_id by (unfold is_i64, max_off in *; lia).
    set (f1 := {| contents := _; closed := false |}).
    destruct (IH f1 (off + 16)) as (f' & Hw & Hc' & Hr); [done|lia|lia|].
    exists f'. rewrite Hw. split; [cbn [length]; f_equal; f_equal; lia|]. split; [done|].
    replace (off + 16 * Z.of_nat (length ((h, o) :: es)))
      with (off + 16 + 16 * Z.of_nat (length es)) by (cbn [length]; lia).
    rewrite Hr. cbn [map concat]. rewrite app_assoc. f_equal.
    unfold f1. cbn [contents].
    rewrite app_assoc. apply resize_app.
    rewrite length_app, length_resize, ?length_encode_pair, ?Hlen. lia.
Qed.
Lemma length_Header_Encode h : length (Header_Encode h) = 256%nat.
Proof.
  unfold Header_Encode, zeros.
  rewrite !length_app, length_resize, !length_PutUint32, !length_PutUint64,
    length_replicate.
  done.
Qed.

Lemma Truncate_Some f sz :
  closed f = false -> 0 <= sz <= max_off ->
  Truncate f sz =
    Some {| contents := resize (Z.to_nat sz) Byte.x00 (contents f); closed := false |}.
Proof.
  intros Hc Hs. unfold Truncate. rewrite Hc.
  destruct (Z.ltb_spec sz 0); [lia|].
  destruct (Z.gtb_spec sz max_off); [lia|]. done.
Qed.

Lemma tail_entries_encode f from es :
  0 <= from ->
  Forall typed_pair es ->
  drop (Z.to_nat from) (contents f) = concat (map encode_pair es) ->
  tail_entries f from = es.
Proof.
  intros H0 Ht Hd. unfold tail_entries, file_tail. rewrite Hd.
  rewrite length_encode_pairs.
  replace (16 * length es / 16)%nat with (length es).
  - rewrite <- (app_nil_r (concat _)). by apply index_entries_encode.
  - rewrite Nat.mul_comm, Nat.div_mul; lia.
Qed.

Lemma Close_eq range db :
  range (index db) ≡ₚ map_to_list (index db) ->
  closed (file db) = false ->
  (forall n, mmap db <> Unmapped n) ->
  2 <= Version (header db) ->
  index db <> ∅ ->
  HeaderSize <= dataEndOffset db ->
  dataEndOffset db + 16 * Z.of_nat (size (index db)) <= max_off ->
  Close range db =
    (Ok tt,
     mkDB {| contents := closed_image range db; closed := true |}
          (match mmap db with Mapped n => Unmapped n | m => m end)
          (set_IndexOffset (dataEndOffset db) (header db))
          (index db) (cache db) (dimension db) (dataEndOffset db)).
Proof.
  intros Hperm Hc Hm Hv Hne Hoff Hmax.
  unfold closed_image.
  set (es := range (index db)) in *.
  set (off := dataEndOffset db) in *.
  assert (Hlen : length es = size (index db)).
  { rewrite Hperm. by rewrite length_map_to_list. }
  assert (Hpos : (0 < size (index db))%nat).
  { destruct (size (index db)) eqn:E; [|lia].
    by apply map_size_empty_iff in E. }
  unfold HeaderSize in Hoff.
  destruct (write_entries_spec es (file db) off) as (f1 & Hw & Hc1 & Hr);
    [done|lia|lia|].
  unfold Close.
  destruct (Z.ltb_spec 0 (Z.of_nat (size (index db)))); [|lia].
  destruct (Z.geb_spec (Version (header db)) 2); [|lia].
  cbn [andb]. unfold writeIndexSection. fold es off. rewrite Hw.
  rewrite Truncate_Some; [|done|rewrite Hlen; lia].
  rewrite Hr. cbn [set_header set_file file header].
  rewrite u64_id by (unfold is_u64, max_off in *; lia).
  rewrite WriteAt_Some; cbn [closed contents];
    [|done|lia|rewrite length_Header_Encode; unfold max_off; lia].
  rewrite length_Header_Encode.
  change (Z.to_nat 0) with 0%nat. rewrite resize_0. cbn [app Nat.add].
  unfold unmap, set_file, set_mmap, CloseFile.
  cbn [mmap file closed contents header index cache dimension dataEndOffset].
  destruct (mmap db) as [|n|n] eqn:E;
    cbn [mmap file closed contents header index cache dimension dataEndOffset];
    [reflexivity|reflexivity|].
  by destruct (Hm n).
Qed.

(** What a clean close leaves in the file and in the header. *)
Lemma Close_index_section range db :
  range (index db) ≡ₚ map_to_list (index db) ->
  closed (file db) = false ->
  (forall n, mmap db <> Unmapped n) ->
  2 <= Version (header db) ->
  index db <> ∅ ->
  HeaderSize <= dataEndOffset db ->
  dataEndOffset db + 16 * Z.of_nat (size (index db)) <= max_off ->
  map_Forall (fun h o => is_u64 h /\ is_i64 o) (index db) ->
  exists db',
    Close range db = (Ok tt, db') /\
    Z.of_nat (length (contents (file db')))
      = dataEndOffset db + 16 * Z.of_nat (size (index db)) /\
    IndexOffset (header db') = dataEndOffset db /\
    take 256 (contents (file db')) = Header_Encode (header db') /\
    file_tail (file db') (dataEndOffset db)
      = concat (map encode_pair (range (index db))) /\
    tail_entries (file db') (IndexOffset (header db')) = range (index db) /\
    tail_entries (file db') (IndexOffset (header db')) ≡ₚ map_to_list (index db) /\
    length (tail_entries (file db') (IndexOffset (header db'))) = size (index db) /\
    RecordCount (header db') = RecordCount (header db) /\
    (RecordCount (header db) = Z.of_nat (size (index db)) ->
     Z.of_nat (length (tail_entries (file db') (IndexOffset (header db'))))
       = RecordCount (header db')).
Proof.
  intros Hperm Hc Hm Hv Hne Hoff Hmax Hty.
  eexists. split; [by apply Close_eq|].
  cbn [file header contents].
  set (es := range (index db)) in *.
  set (off := dataEndOffset db) in *.
  assert (Hlen : length es = size (index db)).
  { rewrite Hperm. by rewrite length_map_to_list. }
  assert (Htyp : Forall typed_pair es).
  { rewrite Hperm. apply Forall_forall. intros [h o] Hin.
    apply elem_of_map_to_list in Hin. by apply (Hty h o). }
  unfold HeaderSize in Hoff.
  set (hdr' := set_IndexOffset off (header db)).
  set (body := resize (Z.to_nat off) Byte.x00 (contents (file db))
               ++ concat (map encode_pair es)).
  assert (Himg : closed_image range db = Header_Encode hdr' ++ drop 256 body) by done.
  assert (Hbody : length body = (Z.to_nat off + 16 * length es)%nat).
  { unfold body. by rewrite length_app, length_resize, length_encode_pairs. }
  assert (Htail : drop (Z.to_nat off) (closed_image range db)
                  = concat (map encode_pair es)).
  { rewrite Himg. rewrite drop_app_ge by (rewrite length_Header_Encode; lia).
    rewrite length_Header_Encode, drop_drop.
    replace (256 + (Z.to_nat off - 256))%nat with (Z.to_nat off) by lia.
    unfold body. rewrite drop_app_length'; [done|by rewrite length_resize]. }
  assert (Hte : tail_entries {| contents := closed_image range db; closed := true |} off
                = es).
  { apply tail_entries_encode; [lia|done|done]. }
  split.
  { rewrite Himg, length_app, length_Header_Encode, length_drop, Hbody. lia. }
  split; [done|].
  split.
  { rewrite Himg. by rewrite take_app_length' by (by rewrite length_Header_Encode). }
  split; [done|].
  unfold hdr'. cbn [set_IndexOffset IndexOffset RecordCount].
  rewrite Hte.
  split; [done|]. split; [done|]. split; [done|]. split; [done|].
  intros Hrc. rewrite Hlen. by rewrite Hrc.
Qed.

(** C3.  On a clean Close of an engine of version 2 or more whose index
    is not empty, the entries are written one after the other from
    dataEndOffset on in the order of the enumeration, the file ends at
    dataEndOffset + 16 * count, the header (in memory and on disk) gets
    index_offset = dataEndOffset, and the tail of the file decodes to
    exactly the entries of the index, one per hash.  That number is the
    header's record_count whenever record_count was the size of the index
    before the close; Close itself leaves record_count as it was. *)
Theorem Close_writes_index range db :
  range (index db) ≡ₚ map_to_list (index db) ->
  closed (file db) = false ->
  (forall n, mmap db <> Unmapped n) ->
  2 <= Version (header db) ->
  index db <> ∅ ->
  HeaderSize <= dataEndOffset db ->
  dataEndOffset db + 16 * Z.of_nat (size (index db)) <= max_off ->
  map_Forall (fun h o => is_u64 h /\ is_i64 o) (index db) ->
  exists db',
    Close range db = (Ok tt, db') /\
    Z.of_nat (length (contents (file db')))
      = dataEndOffset db + 16 * Z.of_nat (size (index db)) /\
    IndexOffset (header db') = dataEndOffset db /\
    take 256 (contents (file db')) = Header_Encode (header db') /\
    file_tail (file db') (dataEndOffset db)
      = concat (map encode_pair (range (index db))) /\
    tail_entries (file db') (IndexOffset (header db')) = range (index db) /\
    tail_entries (file db') (IndexOffset (header db')) ≡ₚ map_to_list (index db) /\
    length (tail_entries (file db') (IndexOffset (header db'))) = size (index db) /\
    RecordCount (header db') = RecordCount (header db) /\
    (RecordCount (header db) = Z.of_nat (size (index db)) ->
     Z.of_nat (length (tail_entries (file db') (IndexOffset (header db'))))
       = RecordCount (header db')).
Proof. exact (Close_index_section range db). Qed.
Ltac by_compute := apply (bool_decide_unpack _); vm_compute; exact I.

(** ** The theorems at concrete engines *)

Lemma Insert_idempotent_witness :
  Insert "a" ex_vec ex_fresh = (Ok tt, ex_one) /\
  Insert "a" ex_vec ex_one = (Ok tt, ex_one).
Proof.
  assert (H : Insert "a" ex_vec ex_fresh = (Ok tt, ex_one)) by (by vm_compute).
  split; [exact H|].
  exact (proj2 (Insert_idempotent "a" ex_vec ex_fresh) ex_one H).
Defined.

(** The hash of "a" is indexed; an Insert under "a" of a vector whose
    length is not the dimension does not succeed. *)
Lemma Insert_idempotent_counterexample :
  index ex_one !! HashText "a" = Some 256 /\
  Insert "a" [0; 0] ex_one = (Err ErrDimensionMismatch, ex_one) /\
  fst (Insert "a" [0; 0] ex_one) <> Ok tt.
Proof. by vm_compute. Qed.

Lemma Insert_dimension_mismatch_witness :
  Insert "x" [0; 0] ex_fresh = (Err ErrDimensionMismatch, ex_fresh) /\
  Get "x" [] (snd (Insert "x" [0; 0] ex_fresh)) = (Err ErrNotFound, [], ex_fresh).
Proof.
  assert (Hd : Z.of_nat (length [0; 0]) <> dimension ex_fresh) by (by vm_compute).
  destruct (Insert_dimension_mismatch "x" [0; 0] ex_fresh Hd) as [H1 H2].
  split; [exact H1|].
  apply (proj2 (H2 [])); by vm_compute.
Defined.

(** The key "a" is stored; an Insert of a vector of the wrong length under
    that key fails, and the Get that follows finds the stored vector. *)
Lemma Insert_dimension_mismatch_counterexample :
  Z.of_nat (length [0; 0]) <> dimension ex_one /\
  Insert "a" [0; 0] ex_one = (Err ErrDimensionMismatch, ex_one) /\
  (let '(r, hp, _) := Get "a" [] (snd (Insert "a" [0; 0] ex_one)) in
   r = Ok 0%nat /\ deref hp 0%nat = ex_vec) /\
  fst (fst (Get "a" [] (snd (Insert "a" [0; 0] ex_one)))) <> Err ErrNotFound.
Proof. by vm_compute. Qed.



Lemma closed_engine_operations_witness :
  closed (file ex_closed) = true /\
  Close map_to_list ex_closed = (Err ErrIO, ex_closed) /\
  Insert "b" ex_vec ex_closed = (Err ErrIO, ex_closed).
Proof.
  assert (H : Close map_to_list (snd ex_read) = (Ok tt, ex_closed)) by (by vm_compute).
  destruct (closed_engine_operations _ _ _ H) as (H1 & H2 & _ & H4 & _).
  split; [exact H1|]. split; [apply H2|].
  apply H4; by vm_compute.
Defined.

(** On a closed engine a Get of a cached key and an Insert under an
    indexed key succeed. *)
Lemma closed_engine_counterexample :
  Close map_to_list (snd ex_read) = (Ok tt, ex_closed) /\
  fst (fst (Get "a" (fst ex_read) ex_closed)) = Ok 0%nat /\
  fst (Insert "a" ex_vec ex_closed) = Ok tt.
Proof. by vm_compute. Qed.

Lemma lru_keeps_most_recent_witness :
  LRU.keys (LRU.run (LRU.NewLRUCache 2) ex_trace) = [3; 1] /\
  (LRU.last_use 2 ex_trace_prefix 0 < LRU.last_use 1 ex_trace_prefix 0)%nat.
Proof.
  destruct (lru_keeps_most_recent 2 ex_trace ltac:(lia)) as (H1 & _ & H3).
  split; [exact H1|].
  apply (H3 ex_trace_prefix (LRU.OpPut 3 0%nat) [] 2 1);
    [reflexivity|by_compute|by_compute|by_compute|discriminate].
Defined.

Lemma Close_writes_index_witness :
  exists db',
    Close map_to_list ex_one = (Ok tt, db') /\
    Z.of_nat (length (contents (file db'))) = 276 + 16 * 1 /\
    IndexOffset (header db') = 276 /\
    tail_entries (file db') 276 = map_to_list (index ex_one) /\
    Z.of_nat (length (tail_entries (file db') 276)) = RecordCount (header db').
Proof.
  assert (Hidx : index ex_one = {[HashText "a" := 256]}) by (by vm_compute).
  destruct (Close_writes_index map_to_list ex_one)
    as (db' & H1 & H2 & H3 & _ & _ & H6 & _ & _ & _ & H10).
  - reflexivity.
  - by vm_compute.
  - intros n. by vm_compute.
  - by vm_compute.
  - rewrite Hidx. apply insert_non_empty.
  - by vm_compute.
  - by vm_compute.
  - rewrite Hidx. apply map_Forall_singleton.
    split; [apply HashText_range|by vm_compute].
  - exists db'. split; [exact H1|]. split; [exact H2|]. split; [exact H3|].
    rewrite H3 in H6, H10. split; [exact H6|]. apply H10. by vm_compute.
Defined.

(** An engine opened on the file of a process that inserted one record
    and ended without Close: its close writes one index entry, and the
    header keeps record_count 0. *)
Lemma Close_writes_index_counterexample :
  Version (header ex_reopened) = 2 /\
  size (index ex_reopened) = 1%nat /\
  exists db',
    Close map_to_list ex_reopened = (Ok tt, db') /\
    RecordCount (header db') = 0 /\
    RecordCount (DecodeHeader (take 256 (contents (file db')))) = 0 /\
    length (tail_entries (file db') (IndexOffset (header db'))) = 1%nat.
Proof.
  split; [by vm_compute|]. split; [by vm_compute|].
  eexists. split; [by vm_compute|]. by vm_compute.
Qed.

(** ** Who holds the vectors *)




(** ** FindSimilar on stores where no score exceeds -1 *)

(** C2.  FindSimilar at inputs where no record scores above -1.  On a
    store without records, and on a store whose only record has cosine
    exactly -1 with the query, a threshold of -1 makes FindSimilar return
    success with a nil vector and score -1: neither a stored vector nor
    NotFound. *)
Theorem FindSimilar_no_candidate :
  FindSimilar map_to_list ex_vec F32.neg_one [] ex_fresh
    = (Ok (None, F32.neg_one), []) /\
  cosineSimilarity ex_vec [neg_one_bits] = F32.neg_one /\
  F32.geb F32.neg_one F32.neg_one = true /\
  FindSimilar map_to_list ex_vec F32.neg_one [] ex_neg
    = (Ok (None, F32.neg_one), [[neg_one_bits]]).
Proof. by vm_compute. Qed.

(** ** Build-index *)

Lemma last_offset_snoc h es e :
  last_offset h (es ++ [e]) = if e.1 =? h then Some e.2 else last_offset h es.
Proof.
  unfold last_offset. rewrite rev_unit. cbn [List.find].
  by destruct (e.1 =? h).
Qed.

Lemma index_of_pairs_lookup idx es h :
  index_of_pairs idx es !! h =
    match last_offset h es with
    | Some o => Some o
    | None => idx !! h
    end.
Proof.
  induction es as [|e es IH] using rev_ind; [done|].
  unfold index_of_pairs in *. rewrite fold_left_app. cbn [fold_left].
  rewrite last_offset_snoc.
  destruct (Z.eqb_spec e.1 h) as [<-|Hne].
  - by rewrite lookup_insert_eq.
  - by rewrite lookup_insert_ne.
Qed.

Lemma mmap_slice_Some db n lo hi :
  mmap db = Mapped n -> n = Z.of_nat (length (contents (file db))) ->
  0 <= lo <= hi -> hi <= n ->
  mmap_slice db lo hi
  = Some (take (Z.to_nat (hi - lo)) (drop (Z.to_nat lo) (contents (file db)))).
Proof.
  intros Hm Hn Hlo Hhi. unfold mmap_slice, slice. rewrite Hm.
  destruct (Z.leb_spec 0 lo); [|lia].
  destruct (Z.leb_spec lo hi); [|lia].
  destruct (Z.leb_spec hi n); [|lia].
  destruct (Z.leb_spec hi (Z.of_nat (length (contents (file db))))); [|lia].
  done.
Qed.

Lemma section_loop_spec db n io k i idx :
  mmap db = Mapped n -> n = Z.of_nat (length (contents (file db))) ->
  n <= max_off -> 0 <= io -> 0 <= i ->
  io + 16 * (i + Z.of_nat k) <= n ->
  section_loop db io n i k idx
  = Ok (index_of_pairs idx
          (index_entries k (drop (Z.to_nat (io + 16 * i)) (contents (file db))))).
Proof.
  intros Hm Hn Hmax Hio. revert i idx.
  induction k as [|k IH]; intros i idx Hi Hb; [done|].
  cbn [section_loop index_entries]. unfold IndexEntrySize.
  unfold max_off in Hmax.
  rewrite (i64_id (i * 16)) by (unfold is_i64; lia).
  rewrite (i64_id (io + i * 16)) by (unfold is_i64; lia).
  rewrite (i64_id (io + i * 16 + 16)) by (unfold is_i64; lia).
  destruct (Z.gtb_spec (io + i * 16 + 16) n); [lia|].
  rewrite (mmap_slice_Some db n) by (done || lia).
  replace (io + i * 16 + 16 - (io + i * 16)) with 16 by lia.
  change (Z.to_nat 16) with 16%nat.
  replace (io + i * 16) with (io + 16 * i) by lia.
  rewrite IH by lia.
  unfold index_of_pairs. cbn [fold_left fst snd].
  do 3 f_equal. rewrite drop_drop. f_equal. lia.
Qed.

Lemma set_index_same db : set_index (index db) db = db.
Proof. by destruct db. Qed.

Lemma buildIndexFromSection_spec db n :
  mmap db = Mapped n -> n = Z.of_nat (length (contents (file db))) ->
  n <= max_off ->
  0 <= IndexOffset (header db) <= n ->
  buildIndexFromSection db
  = Ok (set_index (index_of_pairs (index db) (section_pairs db)) db).
Proof.
  intros Hm Hn Hmax Hio. unfold buildIndexFromSection, section_pairs, tail_entries, file_tail.
  unfold mmap_len. rewrite Hm. unfold max_off in Hmax.
  set (io := IndexOffset (header db)) in *.
  rewrite (i64_id io) by (unfold is_i64; lia).
  rewrite (i64_id (n - io)) by (unfold is_i64; lia).
  unfold IndexEntrySize.
  rewrite Z.quot_div_nonneg by lia.
  assert (Hk : Z.to_nat ((n - io) / 16)
               = (length (drop (Z.to_nat io) (contents (file db))) / 16)%nat).
  { rewrite length_drop. apply Nat2Z.inj.
    rewrite Nat2Z.inj_div, Z2Nat.id by (apply Z.div_pos; lia).
    f_equal. lia. }
  rewrite <- Hk.
  destruct (Z.eqb_spec ((n - io) / 16) 0) as [H0|H0].
  - rewrite H0. change (Z.to_nat 0) with 0%nat. cbn [index_entries].
    unfold index_of_pairs. cbn [fold_left]. by rewrite set_index_same.
  - rewrite (section_loop_spec db n io); try done; try lia.
    + by rewrite Z.mul_0_r, Z.add_0_r.
    + rewrite Z2Nat.id by (apply Z.div_pos; lia).
      pose proof (Z.mul_div_le (n - io) 16 ltac:(lia)). lia.
Qed.

Lemma legacy_loop_spec db n fuel offset idx :
  mmap db = Mapped n -> n = Z.of_nat (length (contents (file db))) ->
  n + 2 ^ 35 <= max_off -> 0 <= offset ->
  (Z.to_nat (n - offset) < fuel)%nat ->
  legacy_loop db n fuel offset idx
  = Some (Ok (index_of_pairs idx (legacy_pairs db fuel offset))).
Proof.
  intros Hm Hn Hmax. revert offset idx.
  assert (Hlen : mmap_len db = n) by (unfold mmap_len; by rewrite Hm).
  unfold max_off in Hmax.
  induction fuel as [|fuel IH]; intros offset idx Hoff Hf; [lia|].
  cbn [legacy_loop legacy_pairs]. rewrite Hlen. unfold RecordMetaSize.
  destruct (Z.ltb_spec offset n) as [Hlt|Hge]; cbn [negb andb]; [|done].
  rewrite (i64_id (offset + 16)) by (unfold is_i64; lia).
  destruct (Z.gtb_spec (offset + 16) n) as [Hgt|Hle].
  { destruct (Z.leb_spec (offset + 16) n); [lia|done]. }
  destruct (Z.leb_spec (offset + 16) n); [|lia].
  rewrite !(mmap_slice_Some db n) by (done || lia).
  set (hb := take _ (drop (Z.to_nat offset) _)).
  set (d := take _ (drop (Z.to_nat (offset + 8)) _)).
  pose proof (Uint32_range d) as Hd. unfold is_u32 in Hd.
  rewrite (i64_id (Uint32 d * 4)) by (unfold is_i64; lia).
  rewrite (i64_id (16 + Uint32 d * 4)) by (unfold is_i64; lia).
  rewrite (i64_id (offset + (16 + Uint32 d * 4))) by (unfold is_i64; lia).
  rewrite IH by lia.
  unfold index_of_pairs. cbn [fold_left fst snd].
  do 4 f_equal. lia.
Qed.

Lemma buildIndexLegacy_spec db n :
  mmap db = Mapped n -> n = Z.of_nat (length (contents (file db))) ->
  n + 2 ^ 35 <= max_off ->
  buildIndexLegacy db
  = Ok (set_index (index_of_pairs (index db)
                     (legacy_pairs db (legacy_fuel db) HeaderSize)) db).
Proof.
  intros Hm Hn Hmax. unfold buildIndexLegacy.
  assert (Hlen : mmap_len db = n) by (unfold mmap_len; by rewrite Hm).
  rewrite Hlen.
  rewrite (legacy_loop_spec db n); try done.
  unfold legacy_fuel, HeaderSize. rewrite Hlen. lia.
Qed.

(** C4.  In both build-index modes the index is the result of assigning
    the (hash, offset) pairs in scan order, so a hash that occurs more
    than once ends up with the offset of its last occurrence. *)
Theorem buildIndex_keeps_last_offset db n :
  mmap db = Mapped n -> n = Z.of_nat (length (contents (file db))) ->
  n + 2 ^ 35 <= max_off ->
  (has_section (header db) = true -> IndexOffset (header db) <= n ->
   exists db',
     buildIndex db = Ok db' /\
     forall h, index db' !! h =
       match last_offset h (section_pairs db) with
       | Some o => Some o
       | None => index db !! h
       end) /\
  (has_section (header db) = false ->
   exists db',
     buildIndex db = Ok db' /\
     forall h, index db' !! h =
       match last_offset h (legacy_pairs db (legacy_fuel db) HeaderSize) with
       | Some o => Some o
       | None => index db !! h
       end).
Proof.
  intros Hm Hn Hmax. unfold buildIndex. split; intros Hs; rewrite Hs.
  - intros Hio. eexists. split.
    + apply (buildIndexFromSection_spec db n); try done; [lia|].
      unfold has_section in Hs. apply andb_prop in Hs as [_ Hs]. lia.
    + intros h. apply index_of_pairs_lookup.
  - eexists. split; [by apply (buildIndexLegacy_spec db n)|].
    intros h. apply index_of_pairs_lookup.
Qed.

Lemma buildIndex_keeps_last_offset_witness :
  let db := before_buildIndex ex_dup_section_bytes 1 in
  exists db', buildIndex db = Ok db' /\ index db' !! 7 = Some 276.
Proof.
  intros db.
  destruct (buildIndex_keeps_last_offset db 328) as [Hs _];
    [by vm_compute|by vm_compute|by vm_compute|].
  destruct Hs as (db' & Hb & Hl); [by vm_compute|by vm_compute|].
  exists db'. split; [exact Hb|]. rewrite Hl. by vm_compute.
Defined.

(** In both modes the hash 7 is read first at offset 256 and then at
    276; the index ends with 276. *)
Lemma buildIndex_first_occurrence_counterexample :
  (let db := before_buildIndex ex_dup_section_bytes 1 in
   has_section (header db) = true /\
   section_pairs db = [(7, 256); (7, 276)] /\
   first_offset 7 (section_pairs db) = Some 256 /\
   (index <$> (match buildIndex db with Ok d => Some d | _ => None end))
     = Some {[7 := 276]} /\
   (index <$> (match Open (Some ex_dup_section_bytes) 1 with Ok d => Some d | _ => None end))
     = Some {[7 := 276]}) /\
  (let db := before_buildIndex ex_dup_legacy_bytes 1 in
   has_section (header db) = false /\
   legacy_pairs db (legacy_fuel db) HeaderSize = [(7, 256); (7, 276)] /\
   first_offset 7 (legacy_pairs db (legacy_fuel db) HeaderSize) = Some 256 /\
   (index <$> (match buildIndex db with Ok d => Some d | _ => None end))
     = Some {[7 := 276]} /\
   (index <$> (match Open (Some ex_dup_legacy_bytes) 1 with Ok d => Some d | _ => None end))
     = Some {[7 := 276]}).
Proof. by vm_compute. Qed.

(** ** Records in the file *)

Lemma length_record_bytes h v :
  length (record_bytes h v) = (16 + 4 * length v)%nat.
Proof.
  unfold record_bytes, zeros.
  rewrite !length_app, length_PutUint64, length_PutUint32, length_replicate.
  assert (H : length (flat_map PutUint32 v) = (4 * length v)%nat).
  { induction v as [|x v IH]; [done|].
    cbn [flat_map length]. rewrite length_app, IH, length_PutUint32. lia. }
  rewrite H. lia.
Qed.

Lemma read_floats_spec db n v pos rest :
  mmap db = Mapped n -> n = Z.of_nat (length (contents (file db))) ->
  0 <= pos ->
  drop (Z.to_nat pos) (contents (file db)) = flat_map PutUint32 v ++ rest ->
  Forall is_u32 v ->
  read_floats db pos (length v) = Some v.
Proof.
  intros Hm Hn. revert pos.
  induction v as [|x v IH]; intros pos Hpos Hd Hv; [done|].
  apply Forall_cons in Hv as [Hx Hv].
  cbn [length read_floats flat_map] in *.
  assert (Hlen : pos + 4 <= n).
  { apply (f_equal length) in Hd.
    rewrite length_drop, <- app_assoc, length_app, length_PutUint32 in Hd. lia. }
  unfold mmap_u32_from.
  rewrite (mmap_slice_Some db n) by (done || lia).
  replace (pos + 4 - pos) with 4 by lia. change (Z.to_nat 4) with 4%nat.
  rewrite Hd, <- app_assoc.
  rewrite take_app_length' by (by rewrite length_PutUint32).
  cbn [option_map].
  rewrite <- (app_nil_r (PutUint32 x)), Uint32_PutUint32 by done.
  rewrite (IH (pos + 4)); [done|lia| |done].
  replace (Z.to_nat (pos + 4)) with (Z.to_nat pos + 4)%nat by lia.
  rewrite <- drop_drop, Hd, <- app_assoc.
  by rewrite drop_app_length' by (by rewrite length_PutUint32).
Qed.

Lemma readVector_record db n hp h off v :
  mmap db = Mapped n -> n = Z.of_nat (length (contents (file db))) ->
  record_at db h off v ->
  readVector db hp off = (Ok (length hp), hp ++ [v]).
Proof.
  intros Hm Hn (Hoff & Hend & Hv & Hl & rest & Hd).
  unfold HeaderSize, RecordMetaSize in *.
  assert (Hlen : off + 16 + 4 * Z.of_nat (length v) <= n).
  { apply (f_equal length) in Hd.
    rewrite length_drop, length_app, length_record_bytes in Hd. lia. }
  unfold readVector, RecordMetaSize. rewrite Hm.
  rewrite (mmap_slice_Some db n) by (done || lia).
  replace (off + 12 - (off + 8)) with 4 by lia. change (Z.to_nat 4) with 4%nat.
  replace (Z.to_nat (off + 8)) with (Z.to_nat off + 8)%nat by lia.
  rewrite <- drop_drop, Hd. unfold record_bytes. rewrite <- !app_assoc.
  rewrite drop_app_length' by (by rewrite length_PutUint64).
  rewrite take_app_length' by (by rewrite length_PutUint32).
  rewrite <- (app_nil_r (PutUint32 _)), Uint32_PutUint32
    by (rewrite u32_id by done; done).
  rewrite u32_id by done. rewrite Nat2Z.id.
  rewrite (read_floats_spec db n v (off + 16) rest); try done; try lia.
  replace (Z.to_nat (off + 16)) with (Z.to_nat off + 16)%nat by lia.
  rewrite <- drop_drop, Hd. unfold record_bytes.
  rewrite !app_assoc. rewrite <- (app_assoc _ (flat_map _ _)).
  rewrite drop_app_length'; [done|].
  unfold zeros.
  by rewrite !length_app, length_PutUint64, length_PutUint32, length_replicate.
Qed.

(** ** Insert and Get keep the invariants *)

Lemma store_inv_mapped m db h off :
  store_inv m db -> index db !! h = Some off ->
  mmap db = Mapped (Z.of_nat (length (contents (file db)))).
Proof.
  intros (_ & Hd & Hlen & Hm & _ & Hrec) Hi.
  destruct (Hrec h off Hi) as (v & _ & Hoff & Hend & _).
  rewrite Hm. unfold HeaderSize, RecordMetaSize in *.
  destruct (Z.leb_spec (Z.of_nat (length (contents (file db)))) 256); [lia|done].
Qed.

Lemma Insert_new m text vector db :
  store_inv m db ->
  Z.of_nat (length vector) = dimension db ->
  is_u32 (Z.of_nat (length vector)) ->
  Forall is_u32 vector ->
  m !! HashText text = None ->
  dataEndOffset db + 16 + 4 * Z.of_nat (length vector) <= max_off ->
  exists db',
    Insert text vector db = (Ok tt, db') /\
    store_inv (<[HashText text := vector]> m) db' /\
    cache db' = cache db /\
    dimension db' = dimension db /\
    dataEndOffset db' = dataEndOffset db + 16 + 4 * Z.of_nat (length vector).
Proof.
  intros (Hc & Hd & Hlen & Hm & Hdom & Hrec) Hdim Hl Hv Hfresh Hmax.
  set (h := HashText text) in *.
  set (off := dataEndOffset db) in *.
  set (old := contents (file db)) in *.
  set (buf := record_bytes h vector).
  assert (Hbuf : length buf = (16 + 4 * length vector)%nat)
    by apply length_record_bytes.
  unfold HeaderSize in *.
  assert (Hi : index db !! h = None) by by apply Hdom in Hfresh.
  remember (take (Z.to_nat off) old ++ buf
            ++ drop (Z.to_nat off + length buf) old) as new eqn:Hnew.
  assert (Hnewlen : Z.of_nat (length new)
                    = Z.max (Z.of_nat (length old)) (off + 16 + 4 * Z.of_nat (length vector))).
  { rewrite Hnew, !length_app, length_take, length_drop, Hbuf. lia. }
  assert (Hins : Insert text vector db =
    (Ok tt, mkDB {| contents := new; closed := false |}
                 (Mapped (Z.of_nat (length new)))
                 (set_RecordCount (u64 (RecordCount (header db) + 1)) (header db))
                 (<[h := off]> (index db)) (cache db) (dimension db)
                 (off + 16 + 4 * Z.of_nat (length vector)))).
  { unfold Insert.
    destruct (Z.eqb_spec (Z.of_nat (length vector)) (dimension db)); [|done].
    cbn [negb]. fold h. rewrite Hi.
    fold buf off.
    rewrite WriteAt_Some; [|done|lia|rewrite Hbuf; lia].
    fold old. rewrite resize_le by lia. rewrite <- Hnew.
    unfold RecordMetaSize.
    rewrite i64_id by (unfold is_i64, max_off in *; lia).
    unfold remap, unmap, set_dataEndOffset, set_header, set_index, set_file, set_mmap,
      HeaderSize.
    cbn [mmap file header index cache dimension dataEndOffset contents closed].
    rewrite Hm.
    destruct (Z.of_nat (length old) <=? 256);
      cbn [mmap file header index cache dimension dataEndOffset contents closed];
      unfold StatSize; cbn [closed contents];
      (destruct (Z.leb_spec (Z.of_nat (length new)) 256); [lia|]);
      replace (off + (16 + Z.of_nat (length vector) * 4))
        with (off + 16 + 4 * Z.of_nat (length vector)) by lia;
      reflexivity. }
  eexists. split; [exact Hins|].
  cbn [cache dimension dataEndOffset]. split; [|done].
  unfold store_inv.
  cbn [file mmap index dataEndOffset contents closed].
  split; [done|]. split; [unfold HeaderSize; lia|]. split; [lia|].
  split.
  { unfold HeaderSize.
    destruct (Z.leb_spec (Z.of_nat (length new)) 256); [lia|done]. }
  split.
  { intros h'. destruct (decide (h = h')) as [<-|Hne].
    - by rewrite !lookup_insert_eq.
    - rewrite !lookup_insert_ne by done. apply Hdom. }
  intros h' off' Hi'.
  destruct (decide (h = h')) as [<-|Hne].
  - rewrite lookup_insert_eq in Hi'. injection Hi' as <-.
    exists vector. rewrite lookup_insert_eq. split; [done|].
    unfold record_at, HeaderSize, RecordMetaSize.
    cbn [file dataEndOffset contents].
    split; [lia|]. split; [lia|]. split; [done|]. split; [done|].
    eexists. rewrite Hnew.
    rewrite drop_app_length'; [reflexivity|].
    rewrite length_take. lia.
  - rewrite lookup_insert_ne in Hi' by done.
    destruct (Hrec h' off' Hi') as (v & Hmv & Hoff & Hend & Hvv & Hvl & rest & Hdr).
    exists v. rewrite lookup_insert_ne by done. split; [done|].
    unfold record_at, HeaderSize, RecordMetaSize in *.
    cbn [file dataEndOffset contents].
    split; [lia|]. split; [lia|]. split; [done|]. split; [done|].
    fold old in Hdr. fold off in Hend.
    exists (take (Z.to_nat off - Z.to_nat off' - length (record_bytes h' v)) rest
            ++ buf ++ drop (Z.to_nat off + length buf) old).
    rewrite Hnew.
    rewrite drop_app_le by (rewrite length_take; lia).
    rewrite skipn_firstn_comm, Hdr.
    rewrite take_app_ge by (rewrite length_record_bytes; lia).
    by rewrite <- app_assoc.
Qed.
Lemma elem_of_unlink h l e : e ∈ LRU.unlink h l -> e ∈ l.
Proof.
  induction l as [|x l IH]; cbn [LRU.unlink]; [done|].
  destruct (LRU.hash x =? h).
  - intros H. by right.
  - intros [->|H]%elem_of_cons; [left|right; by apply IH].
Qed.

Lemma elem_of_removelast {A} (l : list A) x : x ∈ removelast l -> x ∈ l.
Proof.
  rewrite removelast_firstn_len. intros H.
  eapply elem_of_sublist; [exact H|apply sublist_take].
Qed.

Lemma elem_of_Put h r c e :
  e ∈ LRU.lru (LRU.Put h r c) ->
  e ∈ LRU.lru c \/ e = LRU.mkEntry h r.
Proof.
  unfold LRU.Put.
  destruct (LRU.lookup h (LRU.lru c)) as [e0|] eqn:E; cbn [LRU.lru].
  - destruct (lookup_Some _ _ _ E) as [He _].
    intros [->|H]%elem_of_cons; [right; by rewrite He|left; by eapply elem_of_unlink].
  - destruct (_ >? _); cbn [LRU.evict LRU.lru].
    + intros H%elem_of_removelast. apply elem_of_cons in H as [->|H]; eauto.
    + intros [->|H]%elem_of_cons; eauto.
Qed.

(** What [Get] does on an engine that satisfies the invariants. *)
Lemma Get_spec m text hp db :
  store_inv m db -> cache_inv m hp db ->
  exists r hp' db',
    Get text hp db = (r, hp', db') /\
    store_inv m db' /\ cache_inv m hp' db' /\
    match m !! HashText text with
    | Some v => exists ref, r = Ok ref /\ deref hp' ref = v
    | None => r = Err ErrNotFound /\ hp' = hp
    end.
Proof.
  intros Hs Hc.
  set (h := HashText text).
  assert (Hkeep : forall c, store_inv m (set_cache c db)).
  { intros c. destruct db. exact Hs. }
  unfold Get, LRU.Get. fold h.
  destruct (LRU.lookup h (LRU.lru (cache db))) as [e|] eqn:E.
  - destruct (lookup_Some _ _ _ E) as [He Hin].
    assert (Hel : e ∈ LRU.lru (cache db)).
    { clear -E. induction (LRU.lru (cache db)) as [|x l IH]; [done|].
      cbn [LRU.lookup] in E. destruct (LRU.hash x =? h).
      - injection E as ->. left.
      - right. by apply IH. }
    destruct (Hc e Hel) as (v & Hmv & Hpv). rewrite He in Hmv.
    eexists _, _, _. split; [reflexivity|]. split; [apply Hkeep|]. split.
    + intros e'. unfold set_cache. cbn [cache LRU.lru].
      intros [->|H]%elem_of_cons; [by apply Hc|].
      apply Hc. by eapply elem_of_unlink.
    + rewrite Hmv. exists (LRU.vector e). split; [done|].
      unfold deref. by rewrite Hpv.
  - destruct (index db !! h) as [off|] eqn:Hi.
    + pose proof (store_inv_mapped _ _ _ _ Hs Hi) as Hm.
      destruct Hs as (Hcl & Hd & Hlen & Hmm & Hdom & Hrec).
      destruct (Hrec h off Hi) as (v & Hmv & Hr).
      rewrite (readVector_record db _ hp h off v Hm eq_refl Hr).
      eexists _, _, _. split; [reflexivity|]. split; [apply Hkeep; by repeat split|].
      split.
      * intros e'. unfold set_cache. cbn [cache].
        intros [H| ->]%elem_of_Put.
        -- destruct (Hc e' H) as (v' & Hv1 & Hv2). exists v'. split; [done|].
           by apply lookup_app_l_Some.
        -- exists v. cbn [LRU.hash LRU.vector]. split; [done|].
           by apply list_lookup_middle.
      * rewrite Hmv. exists (length hp). split; [done|].
        unfold deref. by rewrite (list_lookup_middle hp [] v).
    + assert (Hmn : m !! h = None).
      { destruct Hs as (_ & _ & _ & _ & Hdom & _). by apply Hdom. }
      eexists _, _, _. split; [reflexivity|]. split; [done|]. split; [done|].
      by rewrite Hmn.
Qed.

Lemma get_all_inv m ks hp db :
  store_inv m db -> cache_inv m hp db ->
  store_inv m (snd (get_all ks hp db)) /\
  cache_inv m (fst (get_all ks hp db)) (snd (get_all ks hp db)).
Proof.
  revert hp db. induction ks as [|k ks IH]; intros hp db Hs Hc; [done|].
  cbn [get_all].
  destruct (Get_spec m k hp db Hs Hc) as (r & hp' & db' & -> & Hs' & Hc' & _).
  by apply IH.
Qed.

Lemma create_inv D opts :
  exists db0,
    OpenWithOptions None D opts = Ok db0 /\
    store_inv ∅ db0 /\ cache_inv ∅ [] db0 /\
    dimension db0 = D /\ dataEndOffset db0 = HeaderSize /\
    LRU.lru (cache db0) = [].
Proof.
  exists (set_dataEndOffset HeaderSize
            (set_header (NewHeader D)
               (set_file {| contents := Header_Encode (NewHeader D); closed := false |}
                  (new_DB [] D (if CacheSize opts =? 0 then 100 else CacheSize opts))))).
  split; [reflexivity|].
  unfold set_dataEndOffset, set_header, set_file, new_DB.
  cbn [file mmap header index cache dimension dataEndOffset].
  split; [|split; [|done]].
  - unfold store_inv.
    cbn [file mmap index dataEndOffset contents closed].
    rewrite length_Header_Encode. unfold HeaderSize, max_off.
    repeat split; try done; try lia.
  - intros e. cbn [cache LRU.NewLRUCache LRU.lru]. by intros H%elem_of_nil.
Qed.

Lemma insert_all_inv m D kvs db :
  store_inv m db -> dimension db = D -> is_u32 D ->
  (forall kv, kv ∈ kvs -> m !! HashText kv.1 = None) ->
  NoDup (map (fun kv => HashText kv.1) kvs) ->
  Forall (fun kv => Z.of_nat (length kv.2) = D /\ Forall is_u32 kv.2) kvs ->
  dataEndOffset db + Z.of_nat (length kvs) * (16 + 4 * D) <= max_off ->
  exists db' m',
    insert_all kvs db = (Ok tt, db') /\
    store_inv m' db' /\ cache db' = cache db /\
    (forall h v, m !! h = Some v -> m' !! h = Some v) /\
    (forall k v, (k, v) ∈ kvs -> m' !! HashText k = Some v).
Proof.
  revert m db. induction kvs as [|[k v] kvs IH]; intros m db Hs HD HDr Hnew Hnd Hty Hmax.
  - exists db, m. split; [done|]. split; [done|]. split; [done|]. split; [done|].
    intros k v H. by apply elem_of_nil in H.
  - apply NoDup_cons in Hnd as [Hk Hnd]. apply Forall_cons in Hty as [[Hl Hv] Hty].
    cbn [fst snd length map] in *.
    assert (0 <= D) by (unfold is_u32 in HDr; lia).
    destruct (Insert_new m k v db) as (db1 & Hins & Hs1 & Hc1 & Hd1 & He1);
      try done.
    { by rewrite Hl, HD. }
    { by rewrite Hl. }
    { apply (Hnew (k, v)). left. }
    { nia. }
    destruct (IH (<[HashText k := v]> m) db1) as (db' & m' & Hall & Hs' & Hc' & Hmono & Hget);
      try done.
    { congruence. }
    { intros [k' v'] Hin. cbn [fst]. rewrite lookup_insert_ne.
      - apply (Hnew (k', v')). by right.
      - intros Heq. apply Hk. rewrite Heq.
        apply (list_elem_of_fmap_2 (fun kv : string * list Z => HashText kv.1) _ _ Hin). }
    { rewrite He1. nia. }
    exists db', m'. cbn [insert_all]. rewrite Hins. split; [exact Hall|].
    split; [done|]. split; [congruence|]. split.
    + intros h w Hw. apply Hmono.
      destruct (decide (HashText k = h)) as [<-|Hne].
      * specialize (Hnew (k, v) ltac:(left)). cbn [fst] in Hnew. congruence.
      * by rewrite lookup_insert_ne.
    + intros k' v' [[= -> ->]|Hin]%elem_of_cons.
      * apply Hmono. by rewrite lookup_insert_eq.
      * by apply Hget.
Qed.

(** C1.  For every dimension D >= 1 and every finite sequence of keys with
    pairwise distinct hashes and vectors of length D (the total size
    staying below the largest file offset), all the pairs are inserted
    into a new engine, and afterwards, whatever keys were read in between,
    Get of each key returns a slice holding exactly the bits of its
    vector. *)
Theorem insert_then_get D opts kvs :
  1 <= D -> is_u32 D ->
  NoDup (map (fun kv => HashText kv.1) kvs) ->
  Forall (fun kv => Z.of_nat (length kv.2) = D /\ Forall is_u32 kv.2) kvs ->
  HeaderSize + Z.of_nat (length kvs) * (16 + 4 * D) <= max_off ->
  exists db0 db,
    OpenWithOptions None D opts = Ok db0 /\
    insert_all kvs db0 = (Ok tt, db) /\
    forall ks k v, (k, v) ∈ kvs ->
      exists r hp' db',
        Get k (fst (get_all ks [] db)) (snd (get_all ks [] db)) = (Ok r, hp', db') /\
        deref hp' r = v.
Proof.
  intros HD1 HD Hnd Hty Hmax.
  destruct (create_inv D opts) as (db0 & Hopen & Hs0 & Hc0 & Hdim & Hend & Hlru).
  destruct (insert_all_inv ∅ D kvs db0) as (db & m & Hall & Hs & Hc & _ & Hget);
    try done.
  { by rewrite Hend. }
  exists db0, db. split; [done|]. split; [done|].
  intros ks k v Hin.
  assert (Hci : cache_inv m [] db).
  { intros e. rewrite Hc, Hlru. by intros H%elem_of_nil. }
  destruct (get_all_inv m ks [] db Hs Hci) as [Hs' Hc'].
  destruct (Get_spec m k _ _ Hs' Hc') as (r & hp' & db' & Hg & _ & _ & Hr).
  rewrite (Hget k v Hin) in Hr. destruct Hr as (ref & -> & Hd).
  by exists ref, hp', db'.
Qed.
Lemma insert_then_get_witness :
  exists db0 db,
    OpenWithOptions None 1 (mkOptions true 100) = Ok db0 /\
    insert_all ex_pairs db0 = (Ok tt, db) /\
    exists r hp' db',
      Get "b" (fst (get_all ["a"%string; "zz"%string] [] db)) (snd (get_all ["a"%string; "zz"%string] [] db))
        = (Ok r, hp', db') /\
      deref hp' r = [0].
Proof.
  destruct (insert_then_get 1 (mkOptions true 100) ex_pairs)
    as (db0 & db & H1 & H2 & H3).
  - lia.
  - by vm_compute.
  - by_compute.
  - repeat constructor; by vm_compute.
  - by vm_compute.
  - exists db0, db. split; [exact H1|]. split; [exact H2|].
    apply (H3 ["a"%string; "zz"%string] "b"%string [0]). right. left.
Defined.

(** Two distinct keys with one hash: the second Insert changes nothing,
    and Get of the second key returns the first key's vector. *)
Lemma insert_then_get_counterexample :
  NoDup (map fst ex_colliding_pairs) /\
  Forall (fun kv => Z.of_nat (length kv.2) = 1) ex_colliding_pairs /\
  HashText ex_key_zero = HashText ex_key_zero' /\
  exists db,
    insert_all ex_colliding_pairs ex_fresh = (Ok tt, db) /\
    (let '(r, hp, _) := Get ex_key_zero' [] db in
     r = Ok 0%nat /\ deref hp 0%nat = ex_vec /\ deref hp 0%nat <> [0]).
Proof.
  split.
  { apply NoDup_cons. split; [|apply NoDup_singleton].
    intros H%list_elem_of_singleton.
    apply (f_equal String.length) in H. by vm_compute in H. }
  split; [repeat constructor|].
  split; [by vm_compute|].
  eexists. split; by vm_compute.
Qed.

(** ** The record count, and reopening after a clean close *)

Lemma Insert_record_count text vector db :
  RecordCount (header db) = Z.of_nat (size (index db)) ->
  Z.of_nat (size (index db)) + 1 < 2 ^ 64 ->
  RecordCount (header (snd (Insert text vector db)))
  = Z.of_nat (size (index (snd (Insert text vector db)))).
Proof.
  intros Hrc Hb. unfold Insert.
  destruct (negb _); [done|].
  destruct (index db !! HashText text) eqn:Hi; [done|].
  destruct (WriteAt _ _ _) as [f|]; [|done].
  assert (Hnew : RecordCount (set_RecordCount (u64 (RecordCount (header db) + 1)) (header db))
                 = Z.of_nat (size (<[HashText text := dataEndOffset db]> (index db)))).
  { cbn [set_RecordCount RecordCount]. rewrite map_size_insert_None by done.
    rewrite Hrc, u64_id by (unfold is_u64; lia). lia. }
  unfold remap, unmap, set_dataEndOffset, set_header, set_index, set_file, set_mmap.
  cbn [mmap file header index cache dimension dataEndOffset].
  destruct (mmap db); cbn [snd header index mmap file]; try done;
    unfold StatSize; destruct (closed f); cbn [snd header index]; try done;
    destruct (_ <=? _); cbn [snd header index]; done.
Qed.

Lemma Get_keeps_store text hp db :
  let db' := snd (Get text hp db) in
  header db' = header db /\ index db' = index db /\ file db' = file db /\
  dataEndOffset db' = dataEndOffset db.
Proof.
  unfold Get. destruct (LRU.Get _ _) as [[r|] c]; [by destruct db|].
  destruct (index db !! HashText text); [|done].
  destruct (readVector db hp _) as [[r|e|] hp']; by destruct db.
Qed.

Lemma sub_app_r b rest lo hi :
  (length b <= lo)%nat ->
  sub (b ++ rest) lo hi = sub rest (lo - length b) (hi - length b).
Proof.
  intros H. unfold sub. rewrite drop_app_ge by done. f_equal. lia.
Qed.

(** Decoding an encoded header gives the header back, field by field. *)
Lemma DecodeHeader_Encode h rest :
  length (Magic h) = 4%nat ->
  is_u32 (Version h) -> is_u32 (Dimension h) ->
  is_u64 (RecordCount h) -> is_u64 (IndexOffset h) -> is_u64 (DataOffset h) ->
  DecodeHeader (take 256 (Header_Encode h ++ rest)) = h.
Proof.
  intros Hm Hv Hd Hr Hi Ho.
  rewrite take_app_length' by (by rewrite length_Header_Encode).
  destruct h as [mg ve di rc io do]. cbn [Magic Version Dimension RecordCount
    IndexOffset DataOffset] in *.
  unfold DecodeHeader, Header_Encode.
  cbn [Magic Version Dimension RecordCount IndexOffset DataOffset].
  rewrite resize_all_alt by done.
  f_equal.
  - rewrite sub_app_l by lia. unfold sub. by rewrite drop_0, take_ge by lia.
  - rewrite sub_app_r by lia. rewrite Hm.
    unfold sub. cbn [Nat.sub drop]. rewrite drop_0.
    rewrite take_app_length' by (by rewrite length_PutUint32).
    rewrite <- (app_nil_r (PutUint32 _)). by apply Uint32_PutUint32.
  - rewrite sub_app_r by lia. rewrite Hm.
    rewrite sub_app_r by (rewrite length_PutUint32; lia). rewrite length_PutUint32.
    unfold sub. cbn [Nat.sub drop]. rewrite drop_0.
    rewrite take_app_length' by (by rewrite length_PutUint32).
    rewrite <- (app_nil_r (PutUint32 _)). by apply Uint32_PutUint32.
  - rewrite sub_app_r by lia. rewrite Hm.
    do 2 (rewrite sub_app_r by (rewrite length_PutUint32; lia); rewrite length_PutUint32).
    unfold sub. cbn [Nat.sub drop]. rewrite drop_0.
    rewrite take_app_length' by (by rewrite length_PutUint64).
    rewrite <- (app_nil_r (PutUint64 _)). by apply Uint64_PutUint64.
  - rewrite sub_app_r by lia. rewrite Hm.
    do 2 (rewrite sub_app_r by (rewrite length_PutUint32; lia); rewrite length_PutUint32).
    rewrite sub_app_r by (rewrite length_PutUint64; lia). rewrite length_PutUint64.
    unfold sub. cbn [Nat.sub drop]. rewrite drop_0.
    rewrite take_app_length' by (by rewrite length_PutUint64).
    rewrite <- (app_nil_r (PutUint64 _)). by apply Uint64_PutUint64.
  - rewrite sub_app_r by lia. rewrite Hm.
    do 2 (rewrite sub_app_r by (rewrite length_PutUint32; lia); rewrite length_PutUint32).
    do 2 (rewrite sub_app_r by (rewrite length_PutUint64; lia); rewrite length_PutUint64).
    unfold sub. cbn [Nat.sub drop]. rewrite drop_0.
    rewrite take_app_length' by (by rewrite length_PutUint64).
    rewrite <- (app_nil_r (PutUint64 _)). by apply Uint64_PutUint64.
Qed.

Lemma last_offset_Some h es o :
  last_offset h es = Some o -> (h, o) ∈ es.
Proof.
  unfold last_offset. destruct (List.find _ _) as [[h' o']|] eqn:E; [|done].
  intros [= <-]. apply find_some in E as [Hin Hh].
  cbn [fst snd] in *. apply Z.eqb_eq in Hh as ->.
  apply list_elem_of_In. apply in_rev. exact Hin.
Qed.

Lemma last_offset_None h es o :
  last_offset h es = None -> (h, o) ∉ es.
Proof.
  unfold last_offset. destruct (List.find _ _) eqn:E; [done|].
  intros _ Hin. apply list_elem_of_In, in_rev in Hin.
  pose proof (find_none _ _ E _ Hin) as Hf. cbn [fst] in Hf.
  by rewrite Z.eqb_refl in Hf.
Qed.

(** Assigning the entries of a map, in any order, gives the map. *)
Lemma index_of_pairs_map_to_list (m : gmap Z Z) es :
  es ≡ₚ map_to_list m -> index_of_pairs ∅ es = m.
Proof.
  intros Hp. apply map_eq. intros h.
  rewrite index_of_pairs_lookup, lookup_empty.
  destruct (last_offset h es) as [o|] eqn:E.
  - apply last_offset_Some in E. rewrite Hp in E.
    by apply elem_of_map_to_list in E.
  - destruct (m !! h) as [o|] eqn:Hm; [|done].
    apply elem_of_map_to_list in Hm. rewrite <- Hp in Hm.
    by apply (last_offset_None h es o) in E.
Qed.

(** Opening the file written by a clean close restores the index, the
    end of the data section and the header. *)
Theorem reopen_after_close range db D opts :
  range (index db) ≡ₚ map_to_list (index db) ->
  closed (file db) = false ->
  (forall n, mmap db <> Unmapped n) ->
  2 <= Version (header db) ->
  index db <> ∅ ->
  HeaderSize <= dataEndOffset db ->
  dataEndOffset db + 16 * Z.of_nat (size (index db)) <= max_off ->
  map_Forall (fun h o => is_u64 h /\ is_i64 o) (index db) ->
  Magic (header db) = MagicBytes -> is_u32 (Version (header db)) ->
  Dimension (header db) = D -> is_u32 D ->
  is_u64 (RecordCount (header db)) -> is_u64 (DataOffset (header db)) ->
  exists db1 db2,
    Close range db = (Ok tt, db1) /\
    OpenWithOptions (Some (contents (file db1))) D opts = Ok db2 /\
    index db2 = index db /\
    dataEndOffset db2 = dataEndOffset db /\
    header db2 = header db1 /\
    mmap db2 = Mapped (Z.of_nat (length (contents (file db1)))).
Proof.
  intros Hperm Hc Hm Hv Hne Hoff Hmax Hty Hmg Hvr HD HDr Hrc Hdo.
  destruct (Close_index_section range db) as
    (db1 & Hcl & Hlen & Hio & Hhd & _ & Hte & _ & _ & Hrc1 & _); try done.
  pose proof (Close_eq range db Hperm Hc Hm Hv Hne Hoff Hmax) as Heq.
  rewrite Hcl in Heq. injection Heq as Hdb1.
  assert (Hh1 : header db1 = set_IndexOffset (dataEndOffset db) (header db))
    by (by rewrite Hdb1).
  set (bytes := contents (file db1)) in *.
  assert (Hpos : (0 < size (index db))%nat).
  { destruct (size (index db)) eqn:E; [|lia]. by apply map_size_empty_iff in E. }
  unfold HeaderSize in Hoff.
  assert (Hb256 : (256 <= length bytes)%nat) by lia.
  assert (Hdec : DecodeHeader (take 256 bytes) = header db1).
  { rewrite <- (take_drop 256 bytes) at 1. rewrite Hhd.
    apply DecodeHeader_Encode; rewrite Hh1;
      cbn [set_IndexOffset Magic Version Dimension RecordCount IndexOffset DataOffset];
      try done.
    - by rewrite Hmg.
    - by rewrite HD.
    - unfold is_u64, max_off in *. lia. }
  set (sz := if CacheSize opts =? 0 then 100 else CacheSize opts).
  set (start := set_mmap (Mapped (Z.of_nat (length bytes)))
                  (set_header (header db1) (new_DB bytes D sz))).
  assert (Hsec : has_section (header db1) = true).
  { unfold has_section. rewrite Hio.
    destruct (Z.geb_spec (Version (header db1)) 2) as [|Hlt].
    - destruct (Z.gtb_spec (dataEndOffset db) 0); [done|lia].
    - rewrite Hh1 in Hlt. cbn in Hlt. lia. }
  assert (Hbuild : buildIndex start = Ok (set_index (index db) start)).
  { unfold buildIndex. change (header start) with (header db1). rewrite Hsec.
    rewrite (buildIndexFromSection_spec start (Z.of_nat (length bytes)));
      try done.
    - do 2 f_equal. change (index start) with (∅ : gmap Z Z).
      apply index_of_pairs_map_to_list.
      unfold section_pairs. change (header start) with (header db1).
      change (tail_entries (file start) (i64 (IndexOffset (header db1))))
        with (tail_entries (file db1) (i64 (IndexOffset (header db1)))).
      rewrite Hio, i64_id by (unfold is_i64, max_off in *; lia).
      rewrite <- Hio, Hte. exact Hperm.
    - lia.
    - change (header start) with (header db1). rewrite Hio. lia. }
  exists db1, (set_dataEndOffset (dataEndOffset db) (set_index (index db) start)).
  split; [done|]. split; [|done].
  unfold OpenWithOptions. cbn [default]. fold bytes sz.
  change (id bytes) with bytes.
  unfold open.
  assert (Hread : ReadAt0 (file (new_DB bytes D sz)) 256 = Some (take 256 bytes)).
  { unfold ReadAt0. cbn [new_DB file closed contents].
    destruct (Nat.ltb_spec (length bytes) 256); [lia|done]. }
  rewrite Hread, Hdec.
  rewrite bool_decide_eq_true_2 by (rewrite Hh1; exact Hmg).
  cbn [negb].
  assert (HdimD : Dimension (header db1) = dimension (new_DB bytes D sz)).
  { rewrite Hh1. exact HD. }
  rewrite HdimD, Z.eqb_refl. cbn [negb].
  change (StatSize (file (set_header (header db1) (new_DB bytes D sz))))
    with (Some (Z.of_nat (length bytes))).
  cbn iota. unfold HeaderSize.
  destruct (Z.gtb_spec (Z.of_nat (length bytes)) 256); [|lia].
  fold start. rewrite Hbuild.
  change (header (set_index (index db) start)) with (header db1).
  rewrite Hsec, Hio.
  by rewrite i64_id by (unfold is_i64, max_off in *; lia).
Qed.

(** ** FindSimilar *)

Lemma gtb_irrefl a : F32.gtb a a = false.
Proof.
  unfold F32.gtb, SFltb, SFcompare.
  destruct a as [s|s| |s m e]; try done; try (by destruct s).
  destruct s; rewrite Z.compare_refl, Pos.compare_cont_refl; done.
Qed.

Lemma gtb_trans a b c :
  F32.gtb a b = true -> F32.gtb b c = true -> F32.gtb a c = true.
Proof.
  unfold F32.gtb, SFltb, SFcompare.
  destruct a as [sa|sa| |sa ma ea], b as [sb|sb| |sb mb eb], c as [sc|sc| |sc mc ec];
    try done;
    try (destruct sa, sb, sc; done);
    try (destruct sa, sb; done);
    try (destruct sb, sc; done);
    try (destruct sa, sc; done).
  destruct sa, sb, sc; try done.
  - destruct (Z.compare_spec eb ea), (Z.compare_spec ec eb), (Z.compare_spec ec ea);
      try done; try lia; subst.
    rewrite !Pos.compare_cont_spec; cbn [Pos.switch_Eq].
    destruct (Pos.compare_spec mb ma), (Pos.compare_spec mc mb), (Pos.compare_spec mc ma);
      try done; lia.
  - destruct (Z.compare_spec eb ea), (Z.compare_spec ec eb), (Z.compare_spec ec ea);
      try done; try lia; subst.
    rewrite !Pos.compare_cont_spec; cbn [Pos.switch_Eq].
    destruct (Pos.compare_spec mb ma), (Pos.compare_spec mc mb), (Pos.compare_spec mc ma);
      try done; lia.
Qed.

Lemma gtb_asym a b : F32.gtb a b = true -> F32.gtb b a = false.
Proof.
  intros H. destruct (F32.gtb b a) eqn:E; [|done].
  pose proof (gtb_trans _ _ _ H E) as Hc. by rewrite gtb_irrefl in Hc.
Qed.

(** The result of the scan: nothing beat the initial score, or the
    result is a vector of the list whose score beat it and that no vector
    of the list outscores. *)
Lemma fold_better_spec vector vs b :
  let r := fold_left (better vector) vs b in
  (r = b /\
   forall w, w ∈ vs -> F32.gtb (cosineSimilarity vector w) (snd b) = false) \/
  (exists v, v ∈ vs /\ r = (Some v, cosineSimilarity vector v) /\
             F32.gtb (snd r) (snd b) = true /\
             forall w, w ∈ vs -> F32.gtb (cosineSimilarity vector w) (snd r) = false).
Proof.
  revert b. induction vs as [|x vs IH]; intros b.
  { left. split; [done|]. intros w H. by apply elem_of_nil in H. }
  cbn [fold_left]. unfold better at 2 4 6 8.
  destruct (F32.gtb (cosineSimilarity vector x) (snd b)) eqn:Hx.
  - right. destruct (IH (Some x, cosineSimilarity vector x)) as
      [[-> Hall]|(v & Hin & Hr & Hgt & Hall)]; cbn [snd] in *.
    + exists x. split; [left|]. split; [done|]. split; [done|].
      intros w [->|Hw]%elem_of_cons; [apply gtb_irrefl|by apply Hall].
    + exists v. split; [by right|]. split; [done|].
      split; [by eapply gtb_trans|].
      intros w [->|Hw]%elem_of_cons; [by apply gtb_asym|by apply Hall].
  - destruct (IH b) as [[-> Hall]|(v & Hin & Hr & Hgt & Hall)].
    + left. split; [done|].
      intros w [->|Hw]%elem_of_cons; [done|by apply Hall].
    + right. exists v. split; [by right|]. split; [done|]. split; [done|].
      intros w [->|Hw]%elem_of_cons; [|by apply Hall].
      destruct (F32.gtb (cosineSimilarity vector x)
                  (snd (fold_left (better vector) vs b))) eqn:E; [|done].
      by rewrite (gtb_trans _ _ _ E Hgt) in Hx.
Qed.

Lemma slice_holds_app hp x s v :
  slice_holds hp s v -> slice_holds (hp ++ [x]) s v.
Proof.
  destruct s, v; cbn [slice_holds]; try done. by apply lookup_app_l_Some.
Qed.

(** The scan over offsets that point at records. *)
Lemma scan_spec db n vector offsets vs hp s bv score :
  mmap db = Mapped n -> n = Z.of_nat (length (contents (file db))) ->
  Forall2 (fun off v => exists h, record_at db h off v) offsets vs ->
  slice_holds hp s bv ->
  exists s',
    scan db vector offsets hp (s, score)
    = (Ok (s', snd (fold_left (better vector) vs (bv, score))), hp ++ vs) /\
    slice_holds (hp ++ vs) s' (fst (fold_left (better vector) vs (bv, score))).
Proof.
  intros Hm Hn Hrec. revert hp s bv score.
  induction Hrec as [|off v offsets vs [h Hr] _ IH]; intros hp s bv score Hs.
  { exists s. rewrite app_nil_r. done. }
  cbn [scan fold_left].
  rewrite (readVector_record db n hp h off v Hm Hn Hr).
  assert (Hd : deref (hp ++ [v]) (length hp) = v).
  { unfold deref. by rewrite (list_lookup_middle hp [] v). }
  rewrite Hd. unfold better at 2 4. cbn [snd].
  replace (hp ++ v :: vs) with ((hp ++ [v]) ++ vs) by (by rewrite <- app_assoc).
  destruct (F32.gtb (cosineSimilarity vector v) score).
  - apply IH. cbn [slice_holds]. by apply list_lookup_middle.
  - apply IH. by apply slice_holds_app.
Qed.

Lemma stored_vectors_records m db es :
  store_inv m db ->
  Forall (fun e => index db !! e.1 = Some e.2) es ->
  Forall2 (fun off v => exists h, record_at db h off v)
    (map snd es) (stored_vectors m es).
Proof.
  intros Hs Hin. unfold stored_vectors.
  induction Hin as [|[h o] es He _ IH]; [constructor|].
  cbn [map fst snd] in *. constructor; [|exact IH].
  destruct Hs as (_ & _ & _ & _ & _ & Hr).
  destruct (Hr h o He) as (v & Hv & Hat). rewrite Hv. by exists h.
Qed.

(** FindSimilar on an engine that holds the vectors of [m]: with the
    vectors taken in the order of the enumeration, the result is that of
    [best_of], compared with the threshold. *)
Theorem FindSimilar_spec m range vector threshold hp db :
  store_inv m db ->
  range (index db) ≡ₚ map_to_list (index db) ->
  Z.of_nat (length vector) = dimension db ->
  let vs := stored_vectors m (range (index db)) in
  exists s,
    FindSimilar range vector threshold hp db
    = (if F32.geb (snd (best_of vector vs)) threshold
       then Ok (s, snd (best_of vector vs))
       else Err ErrNotFound,
       hp ++ vs) /\
    slice_holds (hp ++ vs) s (fst (best_of vector vs)).
Proof.
  intros Hs Hperm Hdim vs. unfold FindSimilar.
  rewrite Hdim, Z.eqb_refl. cbn [negb].
  assert (Hrec : Forall2 (fun off v => exists h, record_at db h off v)
                   (map snd (range (index db))) vs).
  { apply stored_vectors_records; [done|].
    rewrite Hperm. apply Forall_forall. intros [h o] H.
    by apply elem_of_map_to_list in H. }
  destruct (range (index db)) as [|[h o] es] eqn:Er.
  { exists None. subst vs. unfold best_of.
    cbn [stored_vectors map scan fold_left snd fst slice_holds].
    rewrite app_nil_r. split; [|done]. by destruct (F32.geb _ _). }
  assert (Hi : index db !! h = Some o).
  { apply elem_of_map_to_list. rewrite <- Hperm. left. }
  pose proof (store_inv_mapped _ _ _ _ Hs Hi) as Hm.
  destruct (scan_spec db _ vector _ vs hp None None F32.neg_one Hm eq_refl Hrec I)
    as (s' & Hscan & Hh).
  rewrite Hscan. fold (best_of vector vs) in *.
  exists s'. split; [|done]. by destruct (F32.geb _ _).
Qed.

(** The round trip on the engine that holds key "a". *)
Lemma reopen_after_close_example :
  exists db1 db2,
    Close map_to_list ex_one = (Ok tt, db1) /\
    Open (Some (contents (file db1))) 1 = Ok db2 /\
    index db2 = index ex_one /\
    dataEndOffset db2 = dataEndOffset ex_one.
Proof.
  assert (Hidx : index ex_one = {[HashText "a" := 256]}) by (by vm_compute).
  destruct (reopen_after_close map_to_list ex_one 1 (mkOptions true 100))
    as (db1 & db2 & H1 & H2 & H3 & H4 & _).
  - reflexivity.
  - by vm_compute.
  - intros n. by vm_compute.
  - by vm_compute.
  - rewrite Hidx. apply insert_non_empty.
  - by vm_compute.
  - by vm_compute.
  - rewrite Hidx. apply map_Forall_singleton.
    split; [apply HashText_range|by vm_compute].
  - by vm_compute.
  - by vm_compute.
  - by vm_compute.
  - by vm_compute.
  - by vm_compute.
  - by vm_compute.
  - exists db1, db2. split; [exact H1|]. split; [exact H2|]. split; [exact H3|exact H4].
Qed.

(** * Further properties of the engine *)

(** ** Codecs *)

(** X1.  The header codec round-trips: for a header whose fields have
    the widths of the Go struct (a 4-byte magic, 32-bit version and
    dimension, 64-bit record count and offsets), Encode yields exactly 256
    bytes and DecodeHeader of these bytes is the header, field by
    field. *)
Theorem Header_roundtrip h :
  length (Magic h) = 4%nat ->
  is_u32 (Version h) -> is_u32 (Dimension h) ->
  is_u64 (RecordCount h) -> is_u64 (IndexOffset h) -> is_u64 (DataOffset h) ->
  Z.of_nat (length (Header_Encode h)) = HeaderSize /\
  DecodeHeader (Header_Encode h) = h.
Proof.
  intros Hm Hv Hd Hr Hi Ho. split.
  - by rewrite length_Header_Encode.
  - rewrite <- (DecodeHeader_Encode h [] Hm Hv Hd Hr Hi Ho) at 2.
    rewrite app_nil_r, take_ge; [done|]. by rewrite length_Header_Encode.
Qed.

Lemma Header_roundtrip_witness :
  Z.of_nat (length (Header_Encode (NewHeader 3))) = HeaderSize /\
  DecodeHeader (Header_Encode (NewHeader 3)) = NewHeader 3.
Proof.
  apply (Header_roundtrip (NewHeader 3)); by vm_compute.
Defined.

(** X2.  The index-entry codec round-trips: for a 64-bit hash and an
    int64 offset (negative ones included), EncodeIndexEntry yields exactly
    16 bytes and DecodeIndexEntry of these bytes is the entry. *)
Theorem IndexEntry_roundtrip e :
  is_u64 (Hash e) -> is_i64 (Offset e) ->
  Z.of_nat (length (EncodeIndexEntry e)) = IndexEntrySize /\
  DecodeIndexEntry (EncodeIndexEntry e) = e.
Proof.
  intros Hh Ho. destruct e as [h o]. cbn [Hash Offset] in *. split.
  - by rewrite length_EncodeIndexEntry.
  - rewrite <- (Decode_EncodeIndexEntry h o [] Hh Ho) at 2.
    rewrite app_nil_r, take_ge; [done|]. by rewrite length_EncodeIndexEntry.
Qed.

Lemma IndexEntry_roundtrip_witness :
  Z.of_nat (length (EncodeIndexEntry (mkIndexEntry 7 (-1)))) = IndexEntrySize /\
  DecodeIndexEntry (EncodeIndexEntry (mkIndexEntry 7 (-1))) = mkIndexEntry 7 (-1).
Proof.
  apply (IndexEntry_roundtrip (mkIndexEntry 7 (-1))); by vm_compute.
Defined.

(** ** The LRU cache: bounds and order *)

Lemma Put_head h v c :
  1 <= LRU.capacity c ->
  exists rest, LRU.lru (LRU.Put h v c) = LRU.mkEntry h v :: rest.
Proof.
  intros HC. unfold LRU.Put.
  destruct (LRU.lookup h (LRU.lru c)) as [e|] eqn:E; cbn [LRU.lru LRU.capacity].
  - destruct (lookup_Some _ _ _ E) as [He _]. rewrite He. by eexists.
  - destruct (Z.gtb_spec (Z.of_nat (length (LRU.mkEntry h v :: LRU.lru c))) (LRU.capacity c))
      as [Hgt|Hle]; cbn [LRU.evict LRU.lru]; [|by eexists].
    destruct (LRU.lru c) as [|x l]; [cbn [length] in Hgt; lia|].
    cbn [removelast]. by eexists.
Qed.

(** X3.  On a cache of capacity at least 1, whatever it holds, a Get
    right after Put(h, v) hits and returns the slice v; Put leaves the
    capacity alone. *)
Theorem lru_Put_then_Get h v c :
  1 <= LRU.capacity c ->
  fst (LRU.Get h (LRU.Put h v c)) = Some v /\
  LRU.capacity (LRU.Put h v c) = LRU.capacity c.
Proof.
  intros HC. split.
  - destruct (Put_head h v c HC) as [rest Hl].
    unfold LRU.Get. rewrite Hl. cbn [LRU.lookup LRU.hash]. by rewrite Z.eqb_refl.
  - unfold LRU.Put. destruct (LRU.lookup _ _); [done|].
    by destruct (_ >? _).
Qed.

Lemma lru_Put_then_Get_witness :
  fst (LRU.Get 5 (LRU.Put 5 1%nat (LRU.run (LRU.NewLRUCache 2) ex_trace))) = Some 1%nat /\
  LRU.capacity (LRU.Put 5 1%nat (LRU.run (LRU.NewLRUCache 2) ex_trace)) 
  = LRU.capacity (LRU.run (LRU.NewLRUCache 2) ex_trace).
Proof.
  apply (lru_Put_then_Get 5 1%nat (LRU.run (LRU.NewLRUCache 2) ex_trace)).
  by vm_compute.
Defined.

(** X4.  After any sequence of Get and Put on a new cache of capacity C,
    the cache holds at most max(0, C) entries, no hash twice, and its
    capacity is still C. *)
Theorem lru_never_exceeds_capacity C ops :
  let c := LRU.run (LRU.NewLRUCache C) ops in
  LRU.Len c <= Z.max 0 C /\ NoDup (LRU.keys c) /\ LRU.capacity c = C.
Proof.
  intros c. subst c. split; [|split].
  - unfold LRU.Len. rewrite <- (length_map LRU.hash).
    change (map LRU.hash (LRU.lru ?c)) with (LRU.keys c).
    rewrite keys_run, length_take. lia.
  - rewrite keys_run. eapply sublist_NoDup; [apply NoDup_mru_order|apply sublist_take].
  - by rewrite capacity_run.
Qed.

(** X5.  After any sequence of Get and Put on a new cache, the list of
    the cache is ordered by recency: every key was last used after all the
    keys behind it in the list. *)
Theorem lru_sorted_by_recency C ops :
  StronglySorted (LRU.newer ops) (LRU.keys (LRU.run (LRU.NewLRUCache C) ops)).
Proof. exact (keys_sorted C ops). Qed.

(** ** Cosine similarity *)

Lemma SFmul_comm p e x y : SFmul p e x y = SFmul p e y x.
Proof.
  destruct x as [sx|sx| |sx mx ex], y as [sy|sy| |sy my ey]; cbn [SFmul];
    try done; try (by rewrite xorb_comm).
  by rewrite xorb_comm, Pos.mul_comm, Z.add_comm.
Qed.

Lemma cosine_fold_sym a b d na nb :
  let f := fun '(dotProduct, normA, normB) '(x, y) =>
       let fx := F32.of_bits x in
       let fy := F32.of_bits y in
       (F32.add dotProduct (F32.mul fx fy),
        F32.add normA (F32.mul fx fx),
        F32.add normB (F32.mul fy fy)) in
  fold_left f (combine b a) (d, nb, na)
  = (let '(d', na', nb') := fold_left f (combine a b) (d, na, nb) in (d', nb', na')).
Proof.
  intros f. revert b d na nb. induction a as [|x a IH]; intros [|y b] d na nb; try done.
  cbn [combine fold_left]. unfold f at 2 4. cbn zeta.
  rewrite <- IH. unfold F32.mul. by rewrite (SFmul_comm _ _ (F32.of_bits y)).
Qed.

(** X6.  cosineSimilarity is symmetric in its two arguments as a value:
    on all inputs (length mismatch included) the two orders give the same
    binary32 number, the sign of zero included, or both give NaN.  Which
    NaN (sign, payload) is not modelled. *)
Theorem cosineSimilarity_sym a b :
  cosineSimilarity a b = cosineSimilarity b a.
Proof.
  unfold cosineSimilarity. rewrite (Nat.eqb_sym (length b)).
  destruct (negb _); [done|].
  unfold cosine_sums. rewrite (cosine_fold_sym a b).
  destruct (fold_left _ (combine a b) _) as [[d na] nb].
  rewrite orb_comm. unfold F32.mul. by rewrite (SFmul_comm _ _ (F32.sqrt nb)).
Qed.

Lemma cosine_fold_zero a b d nb :
  length a = length b ->
  Forall (fun x => exists s, F32.of_bits x = S754_zero s) a ->
  exists d' nb',
    fold_left
      (fun '(dotProduct, normA, normB) '(x, y) =>
         let fx := F32.of_bits x in
         let fy := F32.of_bits y in
         (F32.add dotProduct (F32.mul fx fy),
          F32.add normA (F32.mul fx fx),
          F32.add normB (F32.mul fy fy)))
      (combine a b) (d, F32.zero, nb) = (d', F32.zero, nb').
Proof.
  intros Hl Ha. revert b d nb Hl.
  induction Ha as [|x a [s Hx] _ IH]; intros [|y b] d nb Hl; try done.
  { by exists d, nb. }
  cbn [combine fold_left]. rewrite Hx.
  replace (F32.add F32.zero (F32.mul (S754_zero s) (S754_zero s))) with F32.zero
    by (by destruct s).
  apply IH. cbn [length] in Hl. lia.
Qed.

(** X7.  The degenerate cases of cosineSimilarity: vectors of different
    lengths score -1; when the lengths agree and one vector consists of
    zeros only (of either sign), the score is +0, on whichever side the
    zero vector is passed. *)
Theorem cosineSimilarity_degenerate a b :
  (length a <> length b -> cosineSimilarity a b = F32.neg_one) /\
  (length a = length b ->
   Forall (fun x => exists s, F32.of_bits x = S754_zero s) a ->
   cosineSimilarity a b = F32.zero /\ cosineSimilarity b a = F32.zero).
Proof.
  split.
  - intros H. unfold cosineSimilarity.
    destruct (Nat.eqb_spec (length a) (length b)); done.
  - intros Hl Ha.
    assert (H : cosineSimilarity a b = F32.zero).
    { unfold cosineSimilarity. rewrite Hl, Nat.eqb_refl. cbn [negb].
      unfold cosine_sums.
      destruct (cosine_fold_zero a b F32.zero F32.zero Hl Ha) as (d' & nb' & E).
      cbv zeta in E |- *. by rewrite E. }
    split; [done|].
    unfold cosineSimilarity in *. rewrite (Nat.eqb_sym (length b)).
    destruct (negb _); [done|].
    unfold cosine_sums in *. rewrite (cosine_fold_sym a b).
    destruct (fold_left _ (combine a b) _) as [[d na] nb].
    rewrite orb_comm. unfold F32.mul. by rewrite (SFmul_comm _ _ (F32.sqrt nb)).
Qed.

(** ** The order on binary32 values *)

Lemma SFcompare_swap a b :
  SFcompare a b = option_map CompOpp (SFcompare b a).
Proof.
  destruct a as [sa|sa| |sa ma ea], b as [sb|sb| |sb mb eb]; cbn [SFcompare];
    try done; try (by destruct sa, sb); try (by destruct sa); try (by destruct sb).
  destruct sa, sb; cbn [option_map CompOpp]; try done.
  - rewrite (Z.compare_antisym eb ea).
    destruct (eb ?= ea); cbn [CompOpp option_map]; try done.
    rewrite !Pos.compare_cont_spec. cbn [Pos.switch_Eq].
    rewrite (Pos.compare_antisym mb ma).
    by destruct (mb ?= ma)%positive.
  - rewrite (Z.compare_antisym eb ea).
    destruct (eb ?= ea); cbn [CompOpp option_map]; try done.
    rewrite !Pos.compare_cont_spec. cbn [Pos.switch_Eq].
    rewrite (Pos.compare_antisym mb ma).
    by destruct (mb ?= ma)%positive.
Qed.

(** [x >= x] holds of every value but NaN. *)
Lemma geb_refl a : a <> S754_nan -> F32.geb a a = true.
Proof.
  unfold F32.geb, SFleb. destruct a as [s|s| |s m e]; cbn [SFcompare]; try done.
  - by destruct s.
  - intros _. destruct s; rewrite Z.compare_refl, Pos.compare_cont_refl; done.
Qed.

Lemma gtb_ordered a b : F32.gtb a b = true -> F32.geb a a = true /\ F32.geb b b = true.
Proof.
  intros H. split; apply geb_refl; intros ->; [by destruct b|by destruct a].
Qed.

Lemma geb_ordered a b : F32.geb a b = true -> F32.geb a a = true /\ F32.geb b b = true.
Proof.
  intros H. split; apply geb_refl; intros ->; [by destruct b|by destruct a].
Qed.

Lemma not_gtb_geb a b :
  F32.gtb a b = false -> F32.geb a a = true -> F32.geb b b = true ->
  F32.geb b a = true.
Proof.
  unfold F32.gtb, F32.geb, SFltb, SFleb. intros H Ha Hb.
  rewrite (SFcompare_swap a b).
  destruct (SFcompare b a) as [[]|] eqn:E; cbn [option_map CompOpp]; try done.
  destruct a, b; try done.
Qed.

Lemma geb_trans a b c :
  F32.geb a b = true -> F32.geb b c = true -> F32.geb a c = true.
Proof.
  unfold F32.geb, SFleb, SFcompare.
  destruct a as [sa|sa| |sa ma ea], b as [sb|sb| |sb mb eb], c as [sc|sc| |sc mc ec];
    try done;
    try (destruct sa, sb, sc; done);
    try (destruct sa, sb; done);
    try (destruct sb, sc; done);
    try (destruct sa, sc; done).
  destruct sa, sb, sc; try done.
  - destruct (Z.compare_spec eb ea), (Z.compare_spec ec eb), (Z.compare_spec ec ea);
      try done; try lia; subst.
    rewrite !Pos.compare_cont_spec; cbn [Pos.switch_Eq].
    destruct (Pos.compare_spec mb ma), (Pos.compare_spec mc mb), (Pos.compare_spec mc ma);
      try done; lia.
  - destruct (Z.compare_spec eb ea), (Z.compare_spec ec eb), (Z.compare_spec ec ea);
      try done; try lia; subst.
    rewrite !Pos.compare_cont_spec; cbn [Pos.switch_Eq].
    destruct (Pos.compare_spec mb ma), (Pos.compare_spec mc mb), (Pos.compare_spec mc ma);
      try done; lia.
Qed.

(** When nothing outscores an ordered [b] and [b] misses the threshold,
    nothing reaches the threshold. *)
Lemma below_threshold b t s :
  F32.geb b b = true -> F32.geb b t = false -> F32.gtb s b = false ->
  F32.geb s t = false.
Proof.
  intros Hb Ht Hs. destruct (F32.geb s t) eqn:E; [|done].
  destruct (geb_ordered _ _ E) as [Hss _].
  pose proof (not_gtb_geb _ _ Hs Hss Hb) as Hbs.
  by rewrite (geb_trans _ _ _ Hbs E) in Ht.
Qed.

(** ** FindSimilar: the answer and the slice *)

Lemma stored_vectors_elem m range db w :
  store_inv m db ->
  range (index db) ≡ₚ map_to_list (index db) ->
  w ∈ stored_vectors m (range (index db)) <-> exists h, m !! h = Some w.
Proof.
  intros (_ & _ & _ & _ & Hdom & Hrec) Hperm. unfold stored_vectors. split.
  - intros ([h o] & -> & Hin)%list_elem_of_fmap. cbn [fst].
    rewrite Hperm in Hin. apply elem_of_map_to_list in Hin.
    destruct (Hrec h o Hin) as (v & Hv & _). exists h. by rewrite Hv.
  - intros [h Hw].
    destruct (index db !! h) as [o|] eqn:Hi.
    + apply list_elem_of_fmap. exists (h, o). cbn [fst]. rewrite Hw. split; [done|].
      rewrite Hperm. by apply elem_of_map_to_list.
    + apply Hdom in Hi. congruence.
Qed.

(** X8.  FindSimilar on an engine that satisfies the invariants, with a
    query of the engine's dimension, never panics and has three
    outcomes.  A vector: it is a stored vector, held by the returned
    slice, the score is its similarity to the query, the score exceeds -1
    and reaches the threshold, and no stored vector scores higher.  A nil
    vector with score -1: no stored vector scores above -1 and the
    threshold is at most -1.  NotFound: no stored vector reaches the
    threshold. *)
Theorem FindSimilar_best m range vector threshold hp db :
  store_inv m db ->
  range (index db) ≡ₚ map_to_list (index db) ->
  Z.of_nat (length vector) = dimension db ->
  exists r hp',
    FindSimilar range vector threshold hp db = (r, hp') /\
    match r with
    | Ok (Some s, score) =>
        exists h v,
          m !! h = Some v /\ hp' !! s = Some v /\
          score = cosineSimilarity vector v /\
          F32.gtb score F32.neg_one = true /\
          F32.geb score threshold = true /\
          forall h' w, m !! h' = Some w ->
                       F32.gtb (cosineSimilarity vector w) score = false
    | Ok (None, score) =>
        score = F32.neg_one /\
        F32.geb F32.neg_one threshold = true /\
        forall h' w, m !! h' = Some w ->
                     F32.gtb (cosineSimilarity vector w) F32.neg_one = false
    | Err e =>
        e = ErrNotFound /\
        forall h' w, m !! h' = Some w ->
                     F32.geb (cosineSimilarity vector w) threshold = false
    | Panic => False
    end.
Proof.
  intros Hs Hperm Hdim.
  destruct (FindSimilar_spec m range vector threshold hp db Hs Hperm Hdim)
    as (s & Hfs & Hh).
  set (vs := stored_vectors m (range (index db))) in *.
  assert (Hin : forall h' w, m !! h' = Some w -> w ∈ vs).
  { intros h' w Hw. apply (stored_vectors_elem m range db w Hs Hperm). by exists h'. }
  eexists _, _. split; [exact Hfs|].
  unfold best_of in *.
  destruct (fold_better_spec vector vs (None, F32.neg_one))
    as [[Hr Hall]|(v & Hv & Hr & Hgt & Hall)]; cbn zeta in *; rewrite Hr in *;
    cbn [fst snd] in *.
  - destruct s as [s|]; [done|].
    destruct (F32.geb F32.neg_one threshold) eqn:Ht.
    + split; [done|]. split; [done|]. intros h' w Hw. apply Hall. by eapply Hin.
    + split; [done|]. intros h' w Hw.
      apply (below_threshold F32.neg_one); [done|done|]. apply Hall. by eapply Hin.
  - destruct s as [s|]; [|done]. cbn [slice_holds] in Hh.
    destruct (F32.geb (cosineSimilarity vector v) threshold) eqn:Ht.
    + apply (stored_vectors_elem m range db v Hs Hperm) in Hv as [h Hv].
      exists h, v. repeat split; try done.
      intros h' w Hw. apply Hall. by eapply Hin.
    + split; [done|]. intros h' w Hw.
      apply (below_threshold (cosineSimilarity vector v)); [|done|].
      * by apply gtb_ordered in Hgt as [? _].
      * apply Hall. by eapply Hin.
Qed.

(** The engine that holds key "a" satisfies the invariants. *)
Lemma ex_one_store_inv : store_inv {[HashText "a" := ex_vec]} ex_one.
Proof.
  assert (Hidx : index ex_one = {[HashText "a" := 256]}) by (by vm_compute).
  unfold store_inv. rewrite Hidx.
  split; [by vm_compute|]. split; [by vm_compute|]. split; [by vm_compute|].
  split; [by vm_compute|]. split.
  - intros h. destruct (decide (h = HashText "a")) as [->|Hne].
    + by rewrite !lookup_singleton_eq.
    + by rewrite !lookup_singleton_ne.
  - intros h off [<- <-]%lookup_singleton_Some.
    exists ex_vec. rewrite lookup_singleton_eq. split; [done|].
    unfold record_at.
    split; [by vm_compute|]. split; [by vm_compute|].
    split; [repeat constructor; by vm_compute|]. split; [by vm_compute|].
    exists []. by vm_compute.
Qed.

Lemma FindSimilar_best_witness :
  exists r hp',
    FindSimilar map_to_list ex_vec F32.zero [] ex_one = (r, hp') /\
    match r with
    | Ok (Some s, score) =>
        exists h v,
          ({[HashText "a" := ex_vec]} : gmap Z (list Z)) !! h = Some v /\ hp' !! s = Some v /\
          score = cosineSimilarity ex_vec v /\
          F32.gtb score F32.neg_one = true /\
          F32.geb score F32.zero = true /\
          forall h' w, ({[HashText "a" := ex_vec]} : gmap Z (list Z)) !! h' = Some w ->
                       F32.gtb (cosineSimilarity ex_vec w) score = false
    | Ok (None, score) =>
        score = F32.neg_one /\
        F32.geb F32.neg_one F32.zero = true /\
        forall h' w, ({[HashText "a" := ex_vec]} : gmap Z (list Z)) !! h' = Some w ->
                     F32.gtb (cosineSimilarity ex_vec w) F32.neg_one = false
    | Err e =>
        e = ErrNotFound /\
        forall h' w, ({[HashText "a" := ex_vec]} : gmap Z (list Z)) !! h' = Some w ->
                     F32.geb (cosineSimilarity ex_vec w) F32.zero = false
    | Panic => False
    end.
Proof.
  apply (FindSimilar_best {[HashText "a" := ex_vec]} map_to_list ex_vec F32.zero [] ex_one).
  - exact ex_one_store_inv.
  - reflexivity.
  - by vm_compute.
Defined.

Lemma readVector_heap db hp off :
  match readVector db hp off with
  | (Ok r, hp') => r = length hp /\ exists v, hp' = hp ++ [v]
  | (_, hp') => hp' = hp
  end.
Proof.
  unfold readVector. destruct (mmap db); [done| |].
  all: destruct (mmap_slice _ _ _); [|done];
    destruct (read_floats _ _ _) as [v|]; [|done];
    cbn [alloc]; split; [done|by exists v].
Qed.

Lemma scan_fresh db vector offsets hp0 hp best res hp' :
  best_fresh vector hp0 hp best ->
  (exists vs0, hp = hp0 ++ vs0) ->
  scan db vector offsets hp best = (Ok res, hp') ->
  (exists vs, hp' = hp0 ++ vs) /\ best_fresh vector hp0 hp' res.
Proof.
  revert hp best. induction offsets as [|off offsets IH]; intros hp best Hb Hhp.
  { cbn [scan]. by intros [= <- <-]. }
  cbn [scan]. pose proof (readVector_heap db hp off) as Hr.
  destruct (readVector db hp off) as [[r|e|] hp1]; [| |done].
  - destruct Hr as (-> & v & ->).
    assert (Hhp1 : exists vs0, hp ++ [v] = hp0 ++ vs0).
    { destruct Hhp as [vs0 ->]. exists (vs0 ++ [v]). by rewrite app_assoc. }
    destruct (F32.gtb _ _); apply IH; try done.
    + unfold best_fresh. cbn [fst snd]. split; [|done].
      destruct Hhp as [vs0 ->]. rewrite !length_app. cbn [length]. lia.
    + unfold best_fresh in *. destruct (fst best) as [s|]; [|done].
      destruct Hb as [Hs Hsc]. split; [rewrite length_app; lia|].
      rewrite Hsc. unfold deref. do 2 f_equal. symmetry. apply lookup_app_l. lia.
  - subst hp1. by apply IH.
Qed.

(** X9.  Whenever FindSimilar returns a vector, on any engine, the slice
    is one that this call allocated: the heap has only grown, the slice
    lies in the new part (so it is not a slice of the cache), the score is
    the similarity of the query with what the slice holds, the score
    reaches the threshold, and the query has the engine's dimension. *)
Theorem FindSimilar_fresh_slice range vector threshold hp db r score hp' :
  FindSimilar range vector threshold hp db = (Ok (Some r, score), hp') ->
  (exists vs, hp' = hp ++ vs) /\
  (length hp <= r < length hp')%nat /\
  score = cosineSimilarity vector (deref hp' r) /\
  F32.geb score threshold = true /\
  Z.of_nat (length vector) = dimension db.
Proof.
  unfold FindSimilar.
  destruct (Z.eqb_spec (Z.of_nat (length vector)) (dimension db)) as [Hd|]; [|done].
  cbn [negb].
  destruct (scan _ _ _ _ _) as [[[bv bs]|e|] hp1] eqn:Hs; [|done|done].
  destruct (F32.geb bs threshold) eqn:Ht; [|done].
  intros [= -> -> ->].
  destruct (scan_fresh db vector _ hp hp (None, F32.neg_one) _ _ I
              (ex_intro _ [] (eq_sym (app_nil_r hp))) Hs) as [Hvs Hb].
  unfold best_fresh in Hb. cbn [fst snd] in Hb. destruct Hb as [Hr Hsc].
  split_and!; done || lia.
Qed.

Lemma FindSimilar_fresh_slice_witness :
  (exists vs, [ex_vec] = [] ++ vs) /\
  (length ([] : Heap) <= 0 < length [ex_vec])%nat /\
  F32.of_bits one_bits = cosineSimilarity ex_vec (deref [ex_vec] 0%nat) /\
  F32.geb (F32.of_bits one_bits) F32.zero = true /\
  Z.of_nat (length ex_vec) = dimension ex_one.
Proof.
  apply (FindSimilar_fresh_slice map_to_list ex_vec F32.zero [] ex_one 0%nat
           (F32.of_bits one_bits) [ex_vec]).
  by vm_compute.
Defined.

(** ** Insert: what it keeps *)

(** X10.  Insert is append-only, whatever its outcome: on an engine whose
    data section ends inside the file, the bytes below dataEndOffset are
    unchanged, every index entry keeps its offset, and the cache and the
    dimension are unchanged. *)
Theorem Insert_append_only text vector db :
  0 <= dataEndOffset db <= Z.of_nat (length (contents (file db))) ->
  let db' := snd (Insert text vector db) in
  take (Z.to_nat (dataEndOffset db)) (contents (file db'))
    = take (Z.to_nat (dataEndOffset db)) (contents (file db)) /\
  (forall h o, index db !! h = Some o -> index db' !! h = Some o) /\
  cache db' = cache db /\ dimension db' = dimension db.
Proof.
  intros Hd. unfold Insert.
  destruct (negb _); [done|].
  destruct (index db !! HashText text) eqn:Hi; [done|].
  unfold WriteAt.
  destruct (closed (file db)); [done|].
  destruct (_ <? 0); [done|]. destruct (_ >? max_off); [done|].
  set (f := {| contents := _; closed := false |}).
  assert (Hkeep : take (Z.to_nat (dataEndOffset db)) (contents f)
                  = take (Z.to_nat (dataEndOffset db)) (contents (file db))).
  { unfold f. cbn [contents].
    rewrite take_app_length' by (rewrite length_resize; done).
    rewrite resize_le by lia. done. }
  assert (Hidx : forall h o, index db !! h = Some o ->
                 <[HashText text := dataEndOffset db]> (index db) !! h = Some o).
  { intros h o Ho. rewrite lookup_insert_ne; [done|]. intros <-. congruence. }
  unfold remap, unmap, set_dataEndOffset, set_header, set_index, set_file, set_mmap.
  cbn [mmap file header index cache dimension dataEndOffset].
  destruct (mmap db); cbn [snd header index mmap file cache dimension]; try done;
    unfold StatSize; cbn [closed f]; destruct (_ <=? _);
    cbn [snd header index file cache dimension]; done.
Qed.

Lemma Insert_append_only_witness :
  take (Z.to_nat (dataEndOffset ex_one)) (contents (file (snd (Insert "b" [0] ex_one))))
    = take (Z.to_nat (dataEndOffset ex_one)) (contents (file ex_one)) /\
  (forall h o, index ex_one !! h = Some o -> index (snd (Insert "b" [0] ex_one)) !! h = Some o) /\
  cache (snd (Insert "b" [0] ex_one)) = cache ex_one /\
  dimension (snd (Insert "b" [0] ex_one)) = dimension ex_one.
Proof.
  apply (Insert_append_only "b" [0] ex_one). by vm_compute.
Defined.

(** X11.  Insert keeps the invariants of the store: on an engine that
    holds the vectors of [m], an Insert of a vector of the right length
    (with room left in the file) succeeds and leaves the cache alone.  If
    the hash is already stored, the engine is unchanged; otherwise the
    engine holds [m] extended by the new vector, and dataEndOffset has
    moved by 16 + 4 * D. *)
Theorem Insert_keeps_store m text vector db :
  store_inv m db ->
  Z.of_nat (length vector) = dimension db ->
  is_u32 (Z.of_nat (length vector)) ->
  Forall is_u32 vector ->
  dataEndOffset db + 16 + 4 * Z.of_nat (length vector) <= max_off ->
  exists db',
    Insert text vector db = (Ok tt, db') /\
    cache db' = cache db /\ dimension db' = dimension db /\
    match m !! HashText text with
    | Some _ => db' = db /\ store_inv m db'
    | None =>
        store_inv (<[HashText text := vector]> m) db' /\
        dataEndOffset db' = dataEndOffset db + 16 + 4 * Z.of_nat (length vector)
    end.
Proof.
  intros Hs Hdim Hl Hv Hmax.
  destruct (m !! HashText text) as [w|] eqn:Hw.
  - destruct (index db !! HashText text) as [off|] eqn:Hi.
    + exists db. by rewrite (Insert_existing text vector db off).
    + destruct Hs as (_ & _ & _ & _ & Hdom & _). apply Hdom in Hi. congruence.
  - destruct (Insert_new m text vector db) as (db' & Hins & Hs' & Hc & Hd & He); try done.
    by exists db'.
Qed.

Lemma Insert_keeps_store_witness :
  exists db',
    Insert "b" [0] ex_one = (Ok tt, db') /\
    cache db' = cache ex_one /\ dimension db' = dimension ex_one /\
    match ({[HashText "a" := ex_vec]} : gmap Z (list Z)) !! HashText "b" with
    | Some _ => db' = ex_one /\ store_inv {[HashText "a" := ex_vec]} db'
    | None =>
        store_inv (<[HashText "b" := [0]]> {[HashText "a" := ex_vec]}) db' /\
        dataEndOffset db' = dataEndOffset ex_one + 16 + 4 * Z.of_nat (length [0])
    end.
Proof.
  apply (Insert_keeps_store {[HashText "a" := ex_vec]} "b" [0] ex_one).
  - exact ex_one_store_inv.
  - by vm_compute.
  - by vm_compute.
  - repeat constructor; by vm_compute.
  - by vm_compute.
Defined.

Lemma Insert_size text vector db :
  (size (index (snd (Insert text vector db))) <= S (size (index db)))%nat.
Proof.
  unfold Insert.
  destruct (negb _); [cbn [snd]; lia|].
  destruct (index db !! HashText text) eqn:Hi; [cbn [snd]; lia|].
  destruct (WriteAt _ _ _) as [f|]; [|cbn [snd]; lia].
  assert (Hnew : size (<[HashText text := dataEndOffset db]> (index db))
                 = S (size (index db))) by (by rewrite map_size_insert_None).
  unfold remap, unmap, set_dataEndOffset, set_header, set_index, set_file, set_mmap.
  cbn [mmap file header index cache dimension dataEndOffset].
  destruct (mmap db); cbn [snd header index mmap file]; try lia;
    unfold StatSize; destruct (closed f); cbn [snd header index]; try lia;
    destruct (_ <=? _); cbn [snd header index]; lia.
Qed.

(** X12.  Insert keeps the header's record count equal to the number of
    index entries: if they agree on an engine, they agree after any
    sequence of Inserts, each one applied whatever the ones before it
    returned, failures included (as long as the count stays below
    2^64). *)
Theorem insert_each_record_count kvs db :
  RecordCount (header db) = Z.of_nat (size (index db)) ->
  Z.of_nat (size (index db)) + Z.of_nat (length kvs) < 2 ^ 64 ->
  RecordCount (header (insert_each kvs db))
  = Z.of_nat (size (index (insert_each kvs db))).
Proof.
  revert db. induction kvs as [|[k v] kvs IH]; intros db Hrc Hb; [done|].
  cbn [insert_each length] in *.
  pose proof (Insert_size k v db) as Hsz.
  apply IH; [|lia].
  apply Insert_record_count; [done|lia].
Qed.

(** A failed Insert (wrong length), an Insert of a stored key and two
    Inserts of new keys, in one sequence. *)
Lemma insert_each_record_count_witness :
  RecordCount (header (insert_each
    [("x"%string, [0; 0]); ("b"%string, [0]); ("a"%string, ex_vec); ("c"%string, [0])]
    ex_one))
  = Z.of_nat (size (index (insert_each
    [("x"%string, [0; 0]); ("b"%string, [0]); ("a"%string, ex_vec); ("c"%string, [0])]
    ex_one))).
Proof.
  apply (insert_each_record_count
           [("x"%string, [0; 0]); ("b"%string, [0]); ("a"%string, ex_vec); ("c"%string, [0])]
           ex_one); by vm_compute.
Defined.

(** ** Get: soundness and the cache *)

Lemma Get_heap text hp db :
  let '(_, hp', _) := Get text hp db in
  hp' = hp \/ exists v, hp' = hp ++ [v].
Proof.
  unfold Get. destruct (LRU.Get _ _) as [[r|] c]; [by left|].
  destruct (index db !! HashText text); [|by left].
  unfold readVector. destruct (mmap db); [by left| |].
  all: destruct (mmap_slice _ _ _); [|by left];
    destruct (read_floats _ _ _) as [v|]; [|by left];
    cbn [alloc]; right; by exists v.
Qed.

(** X13.  Get on an engine that satisfies the invariants, with a cache
    whose slices hold stored vectors: the invariants still hold
    afterwards and no existing slice is changed; for a stored hash Get
    succeeds with a slice that holds the stored vector; for an unknown
    hash it fails with NotFound and changes neither heap nor engine. *)
Theorem Get_sound m text hp db :
  store_inv m db -> cache_inv m hp db ->
  exists r hp' db',
    Get text hp db = (r, hp', db') /\
    store_inv m db' /\ cache_inv m hp' db' /\
    (forall r0 v, hp !! r0 = Some v -> hp' !! r0 = Some v) /\
    match m !! HashText text with
    | Some v => exists ref, r = Ok ref /\ hp' !! ref = Some v
    | None => r = Err ErrNotFound /\ hp' = hp /\ db' = db
    end.
Proof.
  intros Hs Hc.
  set (h := HashText text).
  assert (Hkeep : forall c, store_inv m (set_cache c db)).
  { intros c. destruct db. exact Hs. }
  destruct (LRU.lookup h (LRU.lru (cache db))) as [e|] eqn:E.
  - destruct (lookup_Some _ _ _ E) as [He Hin].
    assert (Hel : e ∈ LRU.lru (cache db)).
    { clear -E. induction (LRU.lru (cache db)) as [|x l IH]; [done|].
      cbn [LRU.lookup] in E. destruct (LRU.hash x =? h).
      - injection E as ->. left.
      - right. by apply IH. }
    destruct (Hc e Hel) as (v & Hmv & Hpv). rewrite He in Hmv.
    rewrite (Get_cached text hp db e E).
    eexists _, _, _. split; [reflexivity|]. split; [apply Hkeep|]. split; [|split; [done|]].
    + intros e'. unfold set_cache. cbn [cache LRU.lru].
      intros [->|H]%elem_of_cons; [by apply Hc|].
      apply Hc. by eapply elem_of_unlink.
    + rewrite Hmv. by exists (LRU.vector e).
  - unfold Get, LRU.Get. fold h. rewrite E.
    destruct (index db !! h) as [off|] eqn:Hi.
    + pose proof (store_inv_mapped _ _ _ _ Hs Hi) as Hm.
      destruct Hs as (Hcl & Hd & Hlen & Hmm & Hdom & Hrec).
      destruct (Hrec h off Hi) as (v & Hmv & Hr).
      rewrite (readVector_record db _ hp h off v Hm eq_refl Hr).
      eexists _, _, _. split; [reflexivity|]. split; [apply Hkeep; by repeat split|].
      split; [|split].
      * intros e'. unfold set_cache. cbn [cache].
        intros [H| ->]%elem_of_Put.
        -- destruct (Hc e' H) as (v' & Hv1 & Hv2). exists v'. split; [done|].
           by apply lookup_app_l_Some.
        -- exists v. cbn [LRU.hash LRU.vector]. split; [done|].
           by apply list_lookup_middle.
      * intros r0 w Hw. by apply lookup_app_l_Some.
      * rewrite Hmv. exists (length hp). split; [done|].
        by apply list_lookup_middle.
    + assert (Hmn : m !! h = None).
      { destruct Hs as (_ & _ & _ & _ & Hdom & _). by apply Hdom. }
      eexists _, _, _. split; [reflexivity|]. split; [done|]. split; [done|].
      split; [done|]. by rewrite Hmn.
Qed.

Lemma Get_sound_witness :
  exists r hp' db',
    Get "a" [] ex_one = (r, hp', db') /\
    store_inv {[HashText "a" := ex_vec]} db' /\
    cache_inv {[HashText "a" := ex_vec]} hp' db' /\
    (forall r0 v, ([] : Heap) !! r0 = Some v -> hp' !! r0 = Some v) /\
    match ({[HashText "a" := ex_vec]} : gmap Z (list Z)) !! HashText "a" with
    | Some v => exists ref, r = Ok ref /\ hp' !! ref = Some v
    | None => r = Err ErrNotFound /\ hp' = [] /\ db' = ex_one
    end.
Proof.
  apply (Get_sound {[HashText "a" := ex_vec]} "a" [] ex_one).
  - exact ex_one_store_inv.
  - intros e H. by vm_compute in H; apply elem_of_nil in H.
Defined.

(** X14.  With a cache of capacity at least 1, a Get that succeeded is
    repeatable: the same Get right after returns the same slice, and
    allocates nothing and changes nothing in the engine (the entry is
    already at the front of the cache). *)
Theorem Get_again_hits_cache text hp db r hp' db' :
  Get text hp db = (Ok r, hp', db') ->
  1 <= LRU.capacity (cache db) ->
  Get text hp' db' = (Ok r, hp', db').
Proof.
  intros HG HC.
  assert (Hl : exists rest,
             LRU.lru (cache db') = LRU.mkEntry (HashText text) r :: rest).
  { unfold Get, LRU.Get in HG.
    destruct (LRU.lookup (HashText text) (LRU.lru (cache db))) as [e|] eqn:E.
    - injection HG as <- <- <-. destruct (lookup_Some _ _ _ E) as [He _].
      unfold set_cache. cbn [cache LRU.lru].
      destruct e as [eh ev]. cbn [LRU.hash LRU.vector] in *. rewrite He. by eexists.
    - destruct (index db !! HashText text); [|done].
      destruct (readVector db hp _) as [[r1|e1|] hp1]; try done.
      injection HG as <- <- <-.
      unfold set_cache. cbn [cache]. by apply Put_head. }
  destruct Hl as (rest & Hl).
  unfold Get, LRU.Get. rewrite Hl. cbn [LRU.lookup LRU.hash LRU.unlink LRU.vector].
  rewrite Z.eqb_refl. rewrite <- Hl.
  destruct db' as [f mm hd ix [cap l] dm de]. done.
Qed.

Lemma Get_again_hits_cache_witness :
  Get "a" [ex_vec] (snd ex_read) = (Ok 0%nat, [ex_vec], snd ex_read).
Proof.
  apply (Get_again_hits_cache "a" [] ex_one 0%nat [ex_vec] (snd ex_read));
    by vm_compute.
Defined.

(** ** Open on arbitrary bytes *)

Lemma buildIndex_Ok db db' :
  buildIndex db = Ok db' -> exists idx, db' = set_index idx db.
Proof.
  unfold buildIndex, buildIndexFromSection, buildIndexLegacy.
  destruct (has_section (header db)).
  - destruct (_ =? 0).
    + intros [= <-]. exists (index db). by rewrite set_index_same.
    + destruct (section_loop _ _ _ _ _ _) as [idx| |]; try done.
      intros [= <-]. by exists idx.
  - destruct (legacy_loop _ _ _ _ _) as [[idx| |]|]; try done.
    intros [= <-]. by exists idx.
Qed.

(** [OpenWithOptions] on an existing file, check by check. *)
Lemma OpenWithOptions_eq bytes D opts :
  let hdr := DecodeHeader (take 256 bytes) in
  let sz := if CacheSize opts =? 0 then 100 else CacheSize opts in
  let db0 := set_header hdr (new_DB bytes D sz) in
  OpenWithOptions (Some bytes) D opts =
    if (length bytes <? 256)%nat then Err ErrIO
    else if negb (bool_decide (Magic hdr = MagicBytes)) then Err ErrInvalidFormat
    else if negb (Dimension hdr =? D) then Err ErrDimensionMismatch
    else if Z.of_nat (length bytes) >? HeaderSize then
      match buildIndex (set_mmap (Mapped (Z.of_nat (length bytes))) db0) with
      | Ok db =>
          if has_section (header db)
          then Ok (set_dataEndOffset (i64 (IndexOffset (header db))) db)
          else Ok (set_dataEndOffset (Z.of_nat (length bytes)) db)
      | Err e => Err e
      | Panic => Panic
      end
    else Ok (set_dataEndOffset HeaderSize db0).
Proof.
  intros hdr sz db0.
  unfold OpenWithOptions. cbn [default]. change (id bytes) with bytes. fold sz.
  unfold open, ReadAt0. change (file (new_DB bytes D sz)) with (mkFile bytes false).
  cbn [closed contents].
  destruct (length bytes <? 256)%nat; [done|].
  fold hdr. destruct (negb (bool_decide _)); [done|].
  change (dimension (new_DB bytes D sz)) with D.
  destruct (negb (_ =? D)); [done|]. fold db0.
  change (StatSize (file db0)) with (Some (Z.of_nat (length bytes))).
  done.
Qed.

(** What a successful open leaves in the engine. *)
Lemma OpenWithOptions_Ok bytes D opts db :
  OpenWithOptions (Some bytes) D opts = Ok db ->
  file db = {| contents := bytes; closed := false |} /\
  header db = DecodeHeader (take 256 bytes) /\
  cache db = LRU.NewLRUCache (if CacheSize opts =? 0 then 100 else CacheSize opts) /\
  dimension db = D /\
  (256 <= length bytes)%nat /\
  Magic (header db) = MagicBytes /\ Dimension (header db) = D.
Proof.
  rewrite OpenWithOptions_eq.
  set (hdr := DecodeHeader (take 256 bytes)).
  destruct (Nat.ltb_spec (length bytes) 256) as [Hlt|Hlen]; [done|].
  destruct (decide (Magic hdr = MagicBytes)) as [Hm|Hm];
    [rewrite (bool_decide_eq_true_2 _ Hm)|rewrite (bool_decide_eq_false_2 _ Hm)];
    cbn [negb]; [|done].
  destruct (Z.eqb_spec (Dimension hdr) D) as [Hd|Hd]; cbn [negb]; [|done].
  destruct (_ >? HeaderSize).
  - destruct (buildIndex _) as [db1| |] eqn:Hb; try done.
    apply buildIndex_Ok in Hb as [idx ->].
    change (header (set_index idx _)) with hdr.
    destruct (has_section hdr); intros [= <-]; by repeat split.
  - intros [= <-]. by repeat split.
Qed.

Lemma buildIndexFromSection_total db n :
  mmap db = Mapped n -> n = Z.of_nat (length (contents (file db))) ->
  n <= max_off ->
  0 <= IndexOffset (header db) < 2 ^ 63 ->
  exists idx, buildIndexFromSection db = Ok (set_index idx db).
Proof.
  intros Hm Hn Hmax Hio.
  destruct (Z.le_gt_cases (IndexOffset (header db)) n) as [Hle|Hgt].
  - rewrite (buildIndexFromSection_spec db n) by (done || lia). by eexists.
  - unfold buildIndexFromSection, mmap_len. rewrite Hm.
    rewrite (i64_id (IndexOffset (header db))) by (unfold is_i64; lia).
    rewrite i64_id by (unfold is_i64, max_off in *; lia).
    destruct (_ =? 0).
    + exists (index db). by rewrite set_index_same.
    + assert (Hq : Z.quot (n - IndexOffset (header db)) IndexEntrySize <= 0).
      { unfold IndexEntrySize. apply Z.quot_le_upper_bound; lia. }
      replace (Z.to_nat _) with 0%nat by lia. cbn [section_loop]. by eexists.
Qed.

(** X15.  Open of an existing file never panics, whatever the bytes, when
    the decoded index offset is below 2^63 (and the size leaves room for
    the offset arithmetic).  The outcome is decided by the checks in
    order: an I/O error exactly when the file is shorter than 256 bytes,
    InvalidFormat exactly when the magic is wrong, DimensionMismatch
    exactly when the magic is right and the dimension is not; otherwise an
    engine on the unchanged bytes, with the decoded header, the requested
    dimension and an empty cache. *)
Theorem Open_never_panics bytes D opts :
  Z.of_nat (length bytes) + 2 ^ 35 <= max_off ->
  IndexOffset (DecodeHeader (take 256 bytes)) < 2 ^ 63 ->
  let hdr := DecodeHeader (take 256 bytes) in
  match OpenWithOptions (Some bytes) D opts with
  | Ok db =>
      (256 <= length bytes)%nat /\ Magic hdr = MagicBytes /\ Dimension hdr = D /\
      file db = {| contents := bytes; closed := false |} /\
      header db = hdr /\ dimension db = D /\ LRU.lru (cache db) = []
  | Err ErrIO => (length bytes < 256)%nat
  | Err ErrInvalidFormat => (256 <= length bytes)%nat /\ Magic hdr <> MagicBytes
  | Err ErrDimensionMismatch =>
      (256 <= length bytes)%nat /\ Magic hdr = MagicBytes /\ Dimension hdr <> D
  | Err ErrNotFound => False
  | Panic => False
  end.
Proof.
  intros Hmax Hio hdr.
  destruct (OpenWithOptions (Some bytes) D opts) as [db|e|] eqn:Ho.
  { apply OpenWithOptions_Ok in Ho as (Hf & Hh & Hc & Hd & Hl & Hm & HD).
    rewrite Hh in Hm, HD. rewrite Hc. by repeat split. }
  all: rewrite OpenWithOptions_eq in Ho; fold hdr in Ho.
  all: destruct (Nat.ltb_spec (length bytes) 256) as [Hlt|Hlen];
    [first [discriminate|by injection Ho as <-]|].
  all: (destruct (decide (Magic hdr = MagicBytes)) as [Hm|Hm];
    [rewrite (bool_decide_eq_true_2 _ Hm) in Ho
    |rewrite (bool_decide_eq_false_2 _ Hm) in Ho]; cbn [negb] in Ho;
    [|first [discriminate|by injection Ho as <-]]).
  all: (destruct (Z.eqb_spec (Dimension hdr) D) as [Hd|Hd]; cbn [negb] in Ho;
    [|first [discriminate|by injection Ho as <-]]).
  all: (destruct (_ >? HeaderSize); [|done]);
    set (start := set_mmap _ _) in Ho;
    assert (Hb : exists idx, buildIndex start = Ok (set_index idx start));
    [ unfold buildIndex; destruct (has_section (header start)) eqn:Hs;
      [ apply (buildIndexFromSection_total start (Z.of_nat (length bytes)));
        [done|done|unfold max_off in *; lia|];
        change (header start) with hdr; split; [|done];
        apply Uint64_range
      | rewrite (buildIndexLegacy_spec start (Z.of_nat (length bytes))) by done;
        by eexists ]
    | destruct Hb as [idx Hb]; rewrite Hb in Ho; by destruct (has_section _) ].
Qed.

Lemma Open_never_panics_witness :
  let bytes := ex_unclosed_bytes ++ [Byte.x01] in
  let hdr := DecodeHeader (take 256 bytes) in
  match OpenWithOptions (Some bytes) 1 (mkOptions true 100) with
  | Ok db =>
      (256 <= length bytes)%nat /\ Magic hdr = MagicBytes /\ Dimension hdr = 1 /\
      file db = {| contents := bytes; closed := false |} /\
      header db = hdr /\ dimension db = 1 /\ LRU.lru (cache db) = []
  | Err ErrIO => (length bytes < 256)%nat
  | Err ErrInvalidFormat => (256 <= length bytes)%nat /\ Magic hdr <> MagicBytes
  | Err ErrDimensionMismatch =>
      (256 <= length bytes)%nat /\ Magic hdr = MagicBytes /\ Dimension hdr <> 1
  | Err ErrNotFound => False
  | Panic => False
  end.
Proof.
  apply (Open_never_panics (ex_unclosed_bytes ++ [Byte.x01]) 1 (mkOptions true 100));
    by vm_compute.
Defined.

Lemma buildIndexFromSection_beyond db n :
  mmap db = Mapped n -> 0 <= n ->
  n < IndexOffset (header db) < 2 ^ 63 ->
  buildIndexFromSection db = Ok db.
Proof.
  intros Hm Hn Hio.
  unfold buildIndexFromSection, mmap_len. rewrite Hm.
  rewrite (i64_id (IndexOffset (header db))) by (unfold is_i64; lia).
  rewrite i64_id by (unfold is_i64; lia).
  destruct (_ =? 0); [done|].
  assert (Hq : Z.quot (n - IndexOffset (header db)) IndexEntrySize <= 0).
  { unfold IndexEntrySize. apply Z.quot_le_upper_bound; lia. }
  replace (Z.to_nat _) with 0%nat by lia. cbn [section_loop].
  by rewrite set_index_same.
Qed.

(** X16.  Open of a file longer than 256 bytes whose version-2 header
    passes the checks and places the index section beyond the end of the
    file (below 2^63): it succeeds with an empty index, the whole file
    mapped, and dataEndOffset at the header's index offset, past the
    end of the file. *)
Theorem Open_index_offset_beyond_eof bytes D opts :
  (256 < length bytes)%nat ->
  let hdr := DecodeHeader (take 256 bytes) in
  Magic hdr = MagicBytes -> Dimension hdr = D -> 2 <= Version hdr ->
  Z.of_nat (length bytes) < IndexOffset hdr < 2 ^ 63 ->
  exists db,
    OpenWithOptions (Some bytes) D opts = Ok db /\
    index db = ∅ /\
    dataEndOffset db = IndexOffset hdr /\
    mmap db = Mapped (Z.of_nat (length bytes)) /\
    file db = {| contents := bytes; closed := false |}.
Proof.
  intros Hlen hdr Hm Hd Hv Hio.
  rewrite OpenWithOptions_eq. fold hdr.
  destruct (Nat.ltb_spec (length bytes) 256); [lia|].
  rewrite (bool_decide_eq_true_2 _ Hm), Hd, Z.eqb_refl. cbn [negb].
  unfold HeaderSize.
  destruct (Z.gtb_spec (Z.of_nat (length bytes)) 256); [|lia].
  set (start := set_mmap _ _).
  assert (Hs : has_section hdr = true).
  { unfold has_section.
    destruct (Z.geb_spec (Version hdr) 2); [|lia].
    destruct (Z.gtb_spec (IndexOffset hdr) 0); [done|lia]. }
  unfold buildIndex. change (header start) with hdr. rewrite Hs.
  rewrite (buildIndexFromSection_beyond start (Z.of_nat (length bytes)));
    [|done|lia|done].
  change (header start) with hdr. rewrite Hs.
  rewrite i64_id by (unfold is_i64; lia).
  eexists. split; [reflexivity|]. done.
Qed.

Lemma Open_index_offset_beyond_eof_witness :
  exists db,
    OpenWithOptions (Some ex_beyond_bytes) 1 (mkOptions true 100) = Ok db /\
    index db = ∅ /\
    dataEndOffset db = IndexOffset (DecodeHeader (take 256 ex_beyond_bytes)) /\
    mmap db = Mapped (Z.of_nat (length ex_beyond_bytes)) /\
    file db = {| contents := ex_beyond_bytes; closed := false |}.
Proof.
  apply (Open_index_offset_beyond_eof ex_beyond_bytes 1 (mkOptions true 100));
    by vm_compute.
Defined.

(** ** Records laid out back to back, and recovery without Close *)

Lemma data_section_snoc recs h v :
  data_section (recs ++ [(h, v)]) = data_section recs ++ record_bytes h v.
Proof.
  unfold data_section. rewrite flat_map_app. cbn [flat_map fst snd].
  by rewrite app_nil_r.
Qed.

Lemma record_offsets_snoc recs h v off :
  record_offsets (recs ++ [(h, v)]) off
  = record_offsets recs off ++ [(h, off + Z.of_nat (length (data_section recs)))].
Proof.
  revert off. induction recs as [|[h' v'] recs IH]; intros off.
  - cbn. do 3 f_equal. lia.
  - cbn [app record_offsets fst snd]. rewrite IH. cbn [app]. do 4 f_equal.
    unfold data_section. cbn [flat_map fst snd].
    rewrite length_app, length_record_bytes. unfold RecordMetaSize. lia.
Qed.

Lemma length_data_section D recs :
  Forall (fun r => Z.of_nat (length r.2) = D) recs ->
  Z.of_nat (length (data_section recs)) = Z.of_nat (length recs) * (16 + 4 * D).
Proof.
  induction 1 as [|[h v] recs Hv _ IH]; [done|].
  unfold data_section in *. cbn [flat_map fst snd length] in *.
  rewrite length_app, length_record_bytes. lia.
Qed.

Lemma length_records_le recs :
  (length recs <= length (data_section recs))%nat.
Proof.
  induction recs as [|[h v] recs IH]; [done|].
  unfold data_section in *. cbn [flat_map fst snd length].
  rewrite length_app, length_record_bytes. lia.
Qed.

Lemma Insert_packed hd recs text vector db :
  packed hd recs db ->
  Z.of_nat (length vector) = dimension db ->
  index db !! HashText text = None ->
  dataEndOffset db + 16 + 4 * Z.of_nat (length vector) <= max_off ->
  exists db',
    Insert text vector db = (Ok tt, db') /\
    packed hd (recs ++ [(HashText text, vector)]) db' /\
    index db' = <[HashText text := dataEndOffset db]> (index db) /\
    header db' = set_RecordCount (u64 (RecordCount (header db) + 1)) (header db) /\
    cache db' = cache db /\ dimension db' = dimension db.
Proof.
  intros (Hhd & Hf & Hd & Hm & Hi & Hsz) Hdim Hnew Hmax.
  cbn zeta in *.
  set (h := HashText text) in *.
  set (old := hd ++ data_section recs) in *.
  set (buf := record_bytes h vector).
  assert (Hbuf : length buf = (16 + 4 * length vector)%nat)
    by apply length_record_bytes.
  assert (Hnewb : hd ++ data_section (recs ++ [(h, vector)]) = old ++ buf).
  { rewrite data_section_snoc. by rewrite app_assoc. }
  assert (Hlen : Z.of_nat (length (old ++ buf))
                 = dataEndOffset db + 16 + 4 * Z.of_nat (length vector)).
  { rewrite length_app, Hbuf, Hd. lia. }
  assert (Hins : Insert text vector db =
    (Ok tt, mkDB {| contents := old ++ buf; closed := false |}
                 (Mapped (Z.of_nat (length (old ++ buf))))
                 (set_RecordCount (u64 (RecordCount (header db) + 1)) (header db))
                 (<[h := dataEndOffset db]> (index db)) (cache db) (dimension db)
                 (Z.of_nat (length (old ++ buf))))).
  { unfold Insert.
    destruct (Z.eqb_spec (Z.of_nat (length vector)) (dimension db)); [|done].
    cbn [negb]. fold h. rewrite Hnew. fold buf.
    rewrite WriteAt_Some; [|by rewrite Hf|lia|rewrite Hbuf; lia].
    rewrite Hf. cbn [contents]. rewrite Hd, Nat2Z.id.
    rewrite resize_all, drop_ge by lia.
    rewrite app_nil_r.
    unfold RecordMetaSize.
    rewrite i64_id by (unfold is_i64, max_off in *; lia).
    unfold remap, unmap, set_dataEndOffset, set_header, set_index, set_file, set_mmap,
      HeaderSize.
    cbn [mmap file header index cache dimension dataEndOffset contents closed].
    rewrite Hm.
    assert (Hbig : 256 < Z.of_nat (length (old ++ buf))).
    { rewrite length_app, Hbuf. unfold old. rewrite length_app, Hhd. lia. }
    replace (Z.of_nat (length old) + (16 + Z.of_nat (length vector) * 4))
      with (Z.of_nat (length (old ++ buf))) by lia.
    destruct (Z.of_nat (length old) <=? HeaderSize);
      cbn [mmap file header index cache dimension dataEndOffset contents closed];
      unfold StatSize; cbn [closed contents];
      (destruct (Z.leb_spec (Z.of_nat (length (old ++ buf))) 256); [lia|]);
      reflexivity. }
  eexists. split; [exact Hins|].
  cbn [cache dimension dataEndOffset header index]. repeat split; try done.
  - cbn zeta. rewrite Hnewb. cbn [file]. done.
  - cbn zeta. rewrite Hnewb. done.
  - cbn zeta. rewrite Hnewb. cbn [mmap]. unfold HeaderSize.
    destruct (Z.leb_spec (Z.of_nat (length (old ++ buf))) 256); [|done].
    rewrite length_app, Hbuf in *. unfold old in *. rewrite length_app, Hhd in *. lia.
  - cbn [index]. rewrite record_offsets_snoc. unfold index_of_pairs in *.
    rewrite fold_left_app. cbn [fold_left fst snd]. rewrite <- Hi.
    f_equal. rewrite Hd. unfold old. rewrite length_app, Hhd. unfold HeaderSize. lia.
  - cbn [index]. rewrite map_size_insert_None by done.
    rewrite Hsz, length_app. cbn [length]. lia.
Qed.

Lemma insert_all_packed hd D kvs recs db :
  packed hd recs db -> dimension db = D -> 0 <= D ->
  (forall kv, kv ∈ kvs -> index db !! HashText kv.1 = None) ->
  NoDup (map (fun kv => HashText kv.1) kvs) ->
  Forall (fun kv => Z.of_nat (length kv.2) = D) kvs ->
  dataEndOffset db + Z.of_nat (length kvs) * (16 + 4 * D) <= max_off ->
  exists db',
    insert_all kvs db = (Ok tt, db') /\
    packed hd (recs ++ records_of kvs) db' /\
    cache db' = cache db /\ dimension db' = D /\
    Magic (header db') = Magic (header db) /\
    Version (header db') = Version (header db) /\
    Dimension (header db') = Dimension (header db) /\
    IndexOffset (header db') = IndexOffset (header db) /\
    DataOffset (header db') = DataOffset (header db) /\
    (RecordCount (header db) = Z.of_nat (size (index db)) ->
     RecordCount (header db') = Z.of_nat (size (index db'))).
Proof.
  revert recs db. induction kvs as [|[k v] kvs IH]; intros recs db Hp HD HD0 Hnew Hnd Hty Hmax.
  - exists db. unfold records_of. cbn [map insert_all]. rewrite app_nil_r.
    split_and!; done.
  - apply NoDup_cons in Hnd as [Hk Hnd]. apply Forall_cons in Hty as [Hl Hty].
    cbn [fst snd length map] in *.
    destruct (Insert_packed hd recs k v db) as (db1 & Hins & Hp1 & Hi1 & Hh1 & Hc1 & Hd1);
      try done.
    { by rewrite Hl, HD. }
    { apply (Hnew (k, v)). left. }
    { nia. }
    assert (He1 : dataEndOffset db1 = dataEndOffset db + 16 + 4 * D).
    { destruct Hp as (Hhd & _ & Hd & _). destruct Hp1 as (_ & _ & Hd' & _).
      cbn zeta in *. rewrite Hd', Hd, data_section_snoc, !length_app, length_record_bytes.
      lia. }
    destruct (IH (recs ++ [(HashText k, v)]) db1)
      as (db' & Hall & Hp' & Hc' & Hd' & Hm' & Hv' & HD' & Hio' & Hdo' & Hrc'); try done.
    { congruence. }
    { intros [k' v'] Hin. cbn [fst]. rewrite Hi1, lookup_insert_ne.
      - apply (Hnew (k', v')). by right.
      - intros Heq. apply Hk. rewrite Heq.
        apply (list_elem_of_fmap_2 (fun kv : string * list Z => HashText kv.1) _ _ Hin). }
    { rewrite He1. nia. }
    exists db'. cbn [insert_all]. rewrite Hins. split; [exact Hall|].
    split.
    { unfold records_of in *. cbn [map fst snd].
      by rewrite <- app_assoc in Hp'. }
    rewrite Hh1 in *. cbn [set_RecordCount Magic Version Dimension IndexOffset DataOffset
      RecordCount] in *.
    split_and!; try congruence.
    intros Hrc. apply Hrc'. rewrite Hi1.
    rewrite map_size_insert_None by (apply (Hnew (k, v)); left).
    rewrite Hrc.
    assert (Hsz : Z.of_nat (size (index db)) < max_off).
    { destruct Hp as (Hhd & _ & Hd & _ & _ & Hsz). cbn zeta in *.
      pose proof (length_records_le recs). rewrite length_app, Hhd in Hd. lia. }
    rewrite u64_id by (unfold is_u64, max_off in *; lia). lia.
Qed.

Lemma legacy_pairs_records db n recs fuel off :
  mmap db = Mapped n -> n = Z.of_nat (length (contents (file db))) ->
  0 <= off ->
  drop (Z.to_nat off) (contents (file db)) = data_section recs ->
  Forall (fun r => is_u64 r.1 /\ is_u32 (Z.of_nat (length r.2))) recs ->
  (length recs <= fuel)%nat ->
  legacy_pairs db fuel off = record_offsets recs off.
Proof.
  intros Hm Hn. revert fuel off.
  induction recs as [|[h v] recs IH]; intros fuel off Hoff Hd Hty Hfuel.
  - apply (f_equal length) in Hd. rewrite length_drop in Hd. cbn [data_section flat_map length] in Hd.
    destruct fuel as [|fuel]; [done|]. cbn [legacy_pairs record_offsets].
    unfold mmap_len. rewrite Hm.
    destruct (Z.ltb_spec off n); [lia|done].
  - apply Forall_cons in Hty as [[Hh Hl] Hty]. cbn [fst snd length] in *.
    destruct fuel as [|fuel]; [lia|].
    unfold data_section in Hd. cbn [flat_map fst snd] in Hd.
    fold (data_section recs) in Hd.
    assert (Hlen : off + 16 + 4 * Z.of_nat (length v) <= n).
    { apply (f_equal length) in Hd.
      rewrite length_drop, length_app, length_record_bytes in Hd. lia. }
    cbn [legacy_pairs record_offsets fst snd].
    unfold mmap_len, RecordMetaSize. rewrite Hm.
    destruct (Z.ltb_spec off n); [|lia].
    destruct (Z.leb_spec (off + 16) n); [|lia]. cbn [andb].
    rewrite !(mmap_slice_Some db n) by (done || lia).
    replace (off + 8 - off) with 8 by lia.
    replace (off + 12 - (off + 8)) with 4 by lia.
    change (Z.to_nat 8) with 8%nat. change (Z.to_nat 4) with 4%nat.
    replace (Z.to_nat (off + 8)) with (Z.to_nat off + 8)%nat by lia.
    rewrite <- drop_drop, Hd. unfold record_bytes. rewrite <- !app_assoc.
    rewrite take_app_length' by (by rewrite length_PutUint64).
    rewrite drop_app_length' by (by rewrite length_PutUint64).
    rewrite take_app_length' by (by rewrite length_PutUint32).
    rewrite <- (app_nil_r (PutUint64 _)), Uint64_PutUint64 by done.
    rewrite <- (app_nil_r (PutUint32 _)), Uint32_PutUint32
      by (rewrite u32_id by done; done).
    rewrite u32_id by done.
    f_equal.
    replace (off + 16 + Z.of_nat (length v) * 4)
      with (off + 16 + 4 * Z.of_nat (length v)) by lia.
    apply IH; [lia| |done|lia].
    replace (Z.to_nat (off + 16 + 4 * Z.of_nat (length v)))
      with (Z.to_nat off + length (record_bytes h v))%nat
      by (rewrite length_record_bytes; lia).
    rewrite <- drop_drop, Hd. by rewrite drop_app_length.
Qed.

Lemma create_eq D opts :
  OpenWithOptions None D opts =
    Ok (mkDB {| contents := Header_Encode (NewHeader D); closed := false |}
             MmapNil (NewHeader D) ∅
             (LRU.NewLRUCache (if CacheSize opts =? 0 then 100 else CacheSize opts))
             D HeaderSize).
Proof. reflexivity. Qed.

Lemma create_packed D opts db0 :
  OpenWithOptions None D opts = Ok db0 ->
  packed (Header_Encode (NewHeader D)) [] db0 /\
  header db0 = NewHeader D /\ dimension db0 = D /\
  cache db0 = LRU.NewLRUCache (if CacheSize opts =? 0 then 100 else CacheSize opts).
Proof.
  rewrite create_eq. intros [= <-]. split; [|done].
  unfold packed. cbn [file mmap index dataEndOffset data_section flat_map record_offsets].
  rewrite app_nil_r, length_Header_Encode. by split_and!.
Qed.

(** The invariants of the store read the file, the mapping, the index
    and the end of the data section only. *)
Lemma store_inv_transfer m db db' :
  file db' = file db -> mmap db' = mmap db -> index db' = index db ->
  dataEndOffset db' = dataEndOffset db ->
  store_inv m db -> store_inv m db'.
Proof.
  intros Hf Hm Hi Hd. unfold store_inv, record_at. by rewrite Hf, Hm, Hi, Hd.
Qed.

Lemma DecodeHeader_NewHeader D rest :
  is_u32 D -> DecodeHeader (take 256 (Header_Encode (NewHeader D) ++ rest)) = NewHeader D.
Proof.
  intros HD. apply DecodeHeader_Encode; try done; by vm_compute.
Qed.

(** Opening the file of a packed engine whose header block is that of a
    new file: the legacy walk finds every record. *)
Lemma Open_packed D opts recs db :
  is_u32 D ->
  packed (Header_Encode (NewHeader D)) recs db ->
  Forall (fun r => is_u64 r.1 /\ is_u32 (Z.of_nat (length r.2))) recs ->
  dataEndOffset db + 2 ^ 35 <= max_off ->
  exists db2,
    OpenWithOptions (Some (contents (file db))) D opts = Ok db2 /\
    file db2 = file db /\ mmap db2 = mmap db /\ index db2 = index db /\
    dataEndOffset db2 = dataEndOffset db /\
    header db2 = NewHeader D /\
    cache db2 = LRU.NewLRUCache (if CacheSize opts =? 0 then 100 else CacheSize opts).
Proof.
  intros HD (Hhd & Hf & Hd & Hm & Hi & Hsz) Hty Hmax. cbn zeta in *.
  set (hd := Header_Encode (NewHeader D)) in *.
  set (bytes := hd ++ data_section recs) in *.
  rewrite Hf. cbn [contents].
  rewrite OpenWithOptions_eq.
  assert (Hdec : DecodeHeader (take 256 bytes) = NewHeader D)
    by (by apply DecodeHeader_NewHeader).
  rewrite Hdec.
  assert (Hlen : (256 <= length bytes)%nat).
  { unfold bytes. rewrite length_app, Hhd. lia. }
  destruct (Nat.ltb_spec (length bytes) 256); [lia|].
  rewrite bool_decide_eq_true_2 by done. cbn [negb NewHeader Dimension].
  rewrite Z.eqb_refl. cbn [negb].
  set (sz := if CacheSize opts =? 0 then 100 else CacheSize opts).
  unfold HeaderSize in *.
  destruct (Z.gtb_spec (Z.of_nat (length bytes)) 256) as [Hgt|Hle].
  - destruct (Z.leb_spec (Z.of_nat (length bytes)) 256); [lia|].
    set (start := set_mmap _ _).
    unfold buildIndex. change (header start) with (NewHeader D).
    change (has_section (NewHeader D)) with false. cbn iota.
    rewrite (buildIndexLegacy_spec start (Z.of_nat (length bytes))); [|done|done|lia].
    rewrite (legacy_pairs_records start (Z.of_nat (length bytes)) recs); try done.
    + change (index start) with (∅ : gmap Z Z).
      change (record_offsets recs 256) with (record_offsets recs HeaderSize) in Hi.
      rewrite <- Hi.
      eexists. split; [reflexivity|]. by split_and!.
    + unfold legacy_fuel. change (mmap_len start) with (Z.of_nat (length bytes)).
      pose proof (length_records_le recs). unfold bytes. rewrite length_app. lia.
  - destruct (Z.leb_spec (Z.of_nat (length bytes)) 256); [|lia].
    assert (Hnil : recs = []).
    { pose proof (length_records_le recs). unfold bytes in Hle.
      rewrite length_app, Hhd in Hle. destruct recs; [done|]. cbn [length] in *. lia. }
    eexists. split; [reflexivity|].
    unfold set_dataEndOffset, set_header, new_DB.
    cbn [file mmap index dataEndOffset header cache].
    rewrite Hi, Hnil, Hd. split_and!; try done. lia.
Qed.

(** X17.  Recovery without Close: the file that a new engine leaves
    after inserting pairs with distinct hashes, never closed, opens
    successfully; the legacy walk rebuilds the same index and
    dataEndOffset, each key's Get returns its vector, and the header still
    counts 0 records (Insert never writes the header to the file). *)
Theorem reopen_without_close D opts opts' kvs :
  is_u32 D ->
  NoDup (map (fun kv => HashText kv.1) kvs) ->
  Forall (fun kv => Z.of_nat (length kv.2) = D /\ Forall is_u32 kv.2) kvs ->
  HeaderSize + Z.of_nat (length kvs) * (16 + 4 * D) + 2 ^ 35 <= max_off ->
  exists db0 db db2,
    OpenWithOptions None D opts = Ok db0 /\
    insert_all kvs db0 = (Ok tt, db) /\
    OpenWithOptions (Some (contents (file db))) D opts' = Ok db2 /\
    index db2 = index db /\
    dataEndOffset db2 = dataEndOffset db /\
    RecordCount (header db2) = 0 /\
    forall ks k v, (k, v) ∈ kvs ->
      exists r hp' db',
        Get k (fst (get_all ks [] db2)) (snd (get_all ks [] db2)) = (Ok r, hp', db') /\
        deref hp' r = v.
Proof.
  intros HD Hnd Hty Hmax.
  assert (HD0 : 0 <= D) by (unfold is_u32 in HD; lia).
  destruct (create_inv D opts) as (db0 & Hopen & Hs0 & Hc0 & Hdim & Hend & Hlru).
  destruct (create_packed D opts db0 Hopen) as (Hp0 & Hh0 & _ & _).
  destruct (insert_all_inv ∅ D kvs db0) as (db & m & Hall & Hs & Hc & _ & Hget);
    try done.
  { rewrite Hend. lia. }
  destruct (insert_all_packed _ D kvs [] db0 Hp0) as (db_ & Hall' & Hp & _ & HdimD & _);
    try done.
  { intros kv _. destruct Hp0 as (_ & _ & _ & _ & Hi & _). by rewrite Hi. }
  { eapply Forall_impl; [exact Hty|]. by intros kv [? _]. }
  { rewrite Hend. lia. }
  rewrite Hall in Hall'. injection Hall' as <-. cbn [app] in Hp.
  assert (Hde : dataEndOffset db = HeaderSize + Z.of_nat (length kvs) * (16 + 4 * D)).
  { destruct Hp as (Hhd & _ & Hd & _). cbn zeta in Hd.
    rewrite Hd, length_app, Hhd, Nat2Z.inj_add.
    rewrite (length_data_section D).
    - unfold records_of. rewrite length_map. unfold HeaderSize. lia.
    - unfold records_of. apply Forall_map. eapply Forall_impl; [exact Hty|].
      by intros kv [? _]. }
  destruct (Open_packed D opts' (records_of kvs) db HD Hp)
    as (db2 & Hopen2 & Hf2 & Hm2 & Hi2 & Hd2 & Hh2 & Hc2).
  { unfold records_of. apply Forall_map. eapply Forall_impl; [exact Hty|].
    intros kv [Hl _]. cbn [fst snd]. split; [apply HashText_range|by rewrite Hl]. }
  { lia. }
  exists db0, db, db2. split; [done|]. split; [done|]. split; [done|].
  split; [done|]. split; [done|]. split; [by rewrite Hh2|].
  intros ks k v Hin.
  assert (Hs2 : store_inv m db2) by (by eapply store_inv_transfer).
  assert (Hci : cache_inv m [] db2).
  { intros e. rewrite Hc2. by intros H%elem_of_nil. }
  destruct (get_all_inv m ks [] db2 Hs2 Hci) as [Hs' Hc'].
  destruct (Get_spec m k _ _ Hs' Hc') as (r & hp' & db' & Hg & _ & _ & Hr).
  rewrite (Hget k v Hin) in Hr. destruct Hr as (ref & -> & Hdr).
  by exists ref, hp', db'.
Qed.

Lemma reopen_without_close_witness :
  exists db0 db db2,
    OpenWithOptions None 1 (mkOptions true 100) = Ok db0 /\
    insert_all ex_pairs db0 = (Ok tt, db) /\
    OpenWithOptions (Some (contents (file db))) 1 (mkOptions true 7) = Ok db2 /\
    index db2 = index db /\
    dataEndOffset db2 = dataEndOffset db /\
    RecordCount (header db2) = 0 /\
    forall ks k v, (k, v) ∈ ex_pairs ->
      exists r hp' db',
        Get k (fst (get_all ks [] db2)) (snd (get_all ks [] db2)) = (Ok r, hp', db') /\
        deref hp' r = v.
Proof.
  apply (reopen_without_close 1 (mkOptions true 100) (mkOptions true 7) ex_pairs).
  - by vm_compute.
  - by_compute.
  - repeat constructor; by vm_compute.
  - by vm_compute.
Defined.

(** X18.  Stats after inserting n pairs with distinct hashes into a new
    engine of dimension D: records and index_size are n, file_size is
    256 + n * (16 + 4 * D), the dimension is D, the cache is empty and its
    capacity is the CacheSize option (100 when the option is 0); the
    header's record count is n as well. *)
Theorem Stats_after_inserts D opts kvs :
  0 <= D ->
  NoDup (map (fun kv => HashText kv.1) kvs) ->
  Forall (fun kv => Z.of_nat (length kv.2) = D) kvs ->
  HeaderSize + Z.of_nat (length kvs) * (16 + 4 * D) <= max_off ->
  exists db0 db,
    OpenWithOptions None D opts = Ok db0 /\
    insert_all kvs db0 = (Ok tt, db) /\
    Stats db =
      Ok {| records := Z.of_nat (length kvs);
            stat_dimension := D;
            file_size := HeaderSize + Z.of_nat (length kvs) * (16 + 4 * D);
            index_size := Z.of_nat (length kvs);
            cache_size := 0;
            cache_capacity := if CacheSize opts =? 0 then 100 else CacheSize opts |} /\
    RecordCount (header db) = Z.of_nat (length kvs).
Proof.
  intros HD Hnd Hty Hmax.
  destruct (create_packed D opts _ (create_eq D opts)) as (Hp0 & Hh0 & Hd0 & Hc0).
  set (db0 := mkDB _ _ _ _ _ _ _) in *.
  destruct (insert_all_packed _ D kvs [] db0 Hp0)
    as (db & Hall & Hp & Hc & HdimD & _ & _ & _ & _ & _ & Hrc); try done.
  exists db0, db. split; [apply create_eq|]. split; [done|].
  destruct Hp as (Hhd & Hf & Hd & _ & _ & Hsz). cbn zeta in *. cbn [app] in *.
  assert (Hn : length (records_of kvs) = length kvs)
    by (unfold records_of; by rewrite length_map).
  assert (Hlen : Z.of_nat (length (Header_Encode (NewHeader D) ++ data_section (records_of kvs)))
                 = HeaderSize + Z.of_nat (length kvs) * (16 + 4 * D)).
  { rewrite length_app, Hhd, Nat2Z.inj_add, (length_data_section D).
    - rewrite Hn. unfold HeaderSize. lia.
    - unfold records_of. by apply Forall_map. }
  split.
  - unfold Stats, StatSize. rewrite Hf. cbn [closed contents].
    rewrite Hsz, Hn, HdimD, Hc, Hlen. done.
  - rewrite Hrc by done. by rewrite Hsz, Hn.
Qed.

Lemma Stats_after_inserts_witness :
  exists db0 db,
    OpenWithOptions None 1 (mkOptions true 50) = Ok db0 /\
    insert_all ex_pairs db0 = (Ok tt, db) /\
    Stats db =
      Ok {| records := 2; stat_dimension := 1; file_size := 296;
            index_size := 2; cache_size := 0; cache_capacity := 50 |} /\
    RecordCount (header db) = 2.
Proof.
  apply (Stats_after_inserts 1 (mkOptions true 50) ex_pairs).
  - lia.
  - by_compute.
  - repeat constructor.
  - by vm_compute.
Defined.

(** ** Close and reopen *)

(** A close that writes no index section rewrites the header block and
    nothing else. *)
Lemma Close_header_only range db :
  closed (file db) = false ->
  (forall n, mmap db <> Unmapped n) ->
  index db = ∅ \/ Version (header db) < 2 ->
  exists db1,
    Close range db = (Ok tt, db1) /\
    contents (file db1) = Header_Encode (header db) ++ drop 256 (contents (file db)) /\
    closed (file db1) = true /\
    header db1 = header db /\ index db1 = index db /\
    dataEndOffset db1 = dataEndOffset db.
Proof.
  intros Hc Hm Hcase. unfold Close.
  assert (Hno : (0 <? Z.of_nat (size (index db))) && (Version (header db) >=? 2) = false).
  { destruct Hcase as [->|Hv].
    - by rewrite map_size_empty.
    - destruct (Z.geb_spec (Version (header db)) 2); [lia|]. by rewrite andb_false_r. }
  rewrite Hno.
  rewrite WriteAt_Some; [|done|done|rewrite length_Header_Encode; by vm_compute].
  rewrite length_Header_Encode. change (Z.to_nat 0) with 0%nat. rewrite resize_0.
  cbn [app Nat.add].
  unfold unmap, set_file, set_mmap, CloseFile.
  cbn [mmap file closed contents header index cache dimension dataEndOffset].
  destruct (mmap db) as [|n|n] eqn:E;
    cbn [mmap file closed contents header index cache dimension dataEndOffset].
  - eexists. split; [reflexivity|]. by cbn.
  - eexists. split; [reflexivity|]. by cbn.
  - by destruct (Hm n).
Qed.

(** X19.  Close of an open engine whose index is empty, or whose header
    version is below 2, writes no index section: it succeeds, the file is
    the encoded header followed by the old bytes from 256 on, the
    descriptor is closed, and header, index and dataEndOffset are
    unchanged. *)
Theorem Close_without_index range db :
  closed (file db) = false ->
  (forall n, mmap db <> Unmapped n) ->
  index db = ∅ \/ Version (header db) < 2 ->
  exists db1,
    Close range db = (Ok tt, db1) /\
    contents (file db1) = Header_Encode (header db) ++ drop 256 (contents (file db)) /\
    closed (file db1) = true /\
    header db1 = header db /\ index db1 = index db /\
    dataEndOffset db1 = dataEndOffset db.
Proof. exact (Close_header_only range db). Qed.

Lemma Close_without_index_witness :
  exists db1,
    Close map_to_list ex_fresh = (Ok tt, db1) /\
    contents (file db1)
      = Header_Encode (header ex_fresh) ++ drop 256 (contents (file ex_fresh)) /\
    closed (file db1) = true /\
    header db1 = header ex_fresh /\ index db1 = index ex_fresh /\
    dataEndOffset db1 = dataEndOffset ex_fresh.
Proof.
  apply (Close_without_index map_to_list ex_fresh).
  - by vm_compute.
  - intros n. by vm_compute.
  - left. by vm_compute.
Defined.

(** The engine that opens a cleanly closed file satisfies the invariants
    of the engine that was closed. *)
Lemma reopen_store_inv m range db D opts :
  store_inv m db ->
  range (index db) ≡ₚ map_to_list (index db) ->
  index db <> ∅ ->
  (forall h, is_Some (index db !! h) -> is_u64 h) ->
  dataEndOffset db + 16 * Z.of_nat (size (index db)) <= max_off ->
  Magic (header db) = MagicBytes ->
  2 <= Version (header db) -> is_u32 (Version (header db)) ->
  Dimension (header db) = D -> is_u32 D ->
  is_u64 (RecordCount (header db)) -> is_u64 (DataOffset (header db)) ->
  exists db1 db2,
    Close range db = (Ok tt, db1) /\
    OpenWithOptions (Some (contents (file db1))) D opts = Ok db2 /\
    store_inv m db2 /\
    LRU.lru (cache db2) = [] /\
    index db2 = index db /\
    dataEndOffset db2 = dataEndOffset db /\
    header db2 = set_IndexOffset (dataEndOffset db) (header db).
Proof.
  intros Hs Hperm Hne Hkeys Hmax Hmg Hv Hvr HD HDr Hrc Hdo.
  pose proof Hs as (Hc & Hoff & Hlen & Hmm & Hdom & Hrec).
  assert (Hnm : forall n, mmap db <> Unmapped n).
  { intros n. rewrite Hmm. by destruct (_ <=? _). }
  assert (Hty : map_Forall (fun h o => is_u64 h /\ is_i64 o) (index db)).
  { intros h o Ho. split; [by apply Hkeys|].
    destruct (Hrec h o Ho) as (v & _ & Ho1 & Ho2 & _).
    unfold is_i64, HeaderSize, RecordMetaSize, max_off in *. lia. }
  destruct (reopen_after_close range db D opts)
    as (db1 & db2 & Hcl & Hop & Hi2 & Hd2 & Hh2 & Hm2); try done.
  pose proof (Close_eq range db Hperm Hc Hnm Hv Hne Hoff Hmax) as Heq.
  rewrite Hcl in Heq. injection Heq as Hdb1.
  apply OpenWithOptions_Ok in Hop as Hfacts.
  destruct Hfacts as (Hf2 & _ & Hc2 & _).
  exists db1, db2. split; [done|]. split; [done|].
  assert (Hcont : contents (file db1) = closed_image range db) by (by rewrite Hdb1).
  assert (Hlen1 : Z.of_nat (length (closed_image range db))
                  = dataEndOffset db + 16 * Z.of_nat (size (index db))).
  { unfold closed_image. rewrite length_app, length_Header_Encode, length_drop,
      length_app, length_resize, length_encode_pairs.
    rewrite Hperm, length_map_to_list. unfold HeaderSize in *. lia. }
  assert (Hpos : (0 < size (index db))%nat).
  { destruct (size (index db)) eqn:E; [|lia]. by apply map_size_empty_iff in E. }
  split; [|split; [by rewrite Hc2|split; [done|split; [done|]]]].
  - unfold store_inv. rewrite Hf2, Hm2, Hi2, Hd2, Hcont. cbn [closed contents].
    split; [done|]. split; [done|]. split; [lia|]. split.
    { unfold HeaderSize in *.
      destruct (Z.leb_spec (Z.of_nat (length (closed_image range db))) 256); [lia|done]. }
    split; [done|].
    intros h off Ho. destruct (Hrec h off Ho) as (v & Hv1 & Hr).
    exists v. split; [done|].
    destruct Hr as (Ho1 & Ho2 & Hv2 & Hv3 & rest & Hdr).
    unfold record_at. rewrite Hf2, Hd2, Hcont. cbn [contents].
    split; [done|]. split; [done|]. split; [done|]. split; [done|].
    unfold HeaderSize, RecordMetaSize in *.
    exists (take (Z.to_nat (dataEndOffset db) - Z.to_nat off - length (record_bytes h v)) rest
            ++ concat (map encode_pair (range (index db)))).
    unfold closed_image.
    rewrite drop_app_ge by (rewrite length_Header_Encode; lia).
    rewrite length_Header_Encode, drop_drop.
    replace (256 + (Z.to_nat off - 256))%nat with (Z.to_nat off) by lia.
    rewrite resize_le by lia.
    rewrite drop_app_le by (rewrite length_take; lia).
    rewrite skipn_firstn_comm, Hdr.
    rewrite take_app_ge by (rewrite length_record_bytes; lia).
    by rewrite <- app_assoc.
  - rewrite Hh2, Hdb1. done.
Qed.

(** X20.  Persistence across a clean close: an engine that satisfies the
    invariants for [m], with a non-empty index of 64-bit hashes and a
    well-typed version-2 header, closes successfully, and opening the file
    it leaves gives an engine that satisfies the invariants for the same
    [m], with an empty cache, the same index and dataEndOffset, and the
    old header with its index offset set to dataEndOffset. *)
Theorem reopen_keeps_store m range db D opts :
  store_inv m db ->
  range (index db) ≡ₚ map_to_list (index db) ->
  index db <> ∅ ->
  (forall h, is_Some (index db !! h) -> is_u64 h) ->
  dataEndOffset db + 16 * Z.of_nat (size (index db)) <= max_off ->
  Magic (header db) = MagicBytes ->
  2 <= Version (header db) -> is_u32 (Version (header db)) ->
  Dimension (header db) = D -> is_u32 D ->
  is_u64 (RecordCount (header db)) -> is_u64 (DataOffset (header db)) ->
  exists db1 db2,
    Close range db = (Ok tt, db1) /\
    OpenWithOptions (Some (contents (file db1))) D opts = Ok db2 /\
    store_inv m db2 /\
    LRU.lru (cache db2) = [] /\
    index db2 = index db /\
    dataEndOffset db2 = dataEndOffset db /\
    header db2 = set_IndexOffset (dataEndOffset db) (header db).
Proof. exact (reopen_store_inv m range db D opts). Qed.

Lemma reopen_keeps_store_witness :
  exists db1 db2,
    Close map_to_list ex_one = (Ok tt, db1) /\
    OpenWithOptions (Some (contents (file db1))) 1 (mkOptions true 100) = Ok db2 /\
    store_inv {[HashText "a" := ex_vec]} db2 /\
    LRU.lru (cache db2) = [] /\
    index db2 = index ex_one /\
    dataEndOffset db2 = dataEndOffset ex_one /\
    header db2 = set_IndexOffset (dataEndOffset ex_one) (header ex_one).
Proof.
  assert (Hidx : index ex_one = {[HashText "a" := 256]}) by (by vm_compute).
  apply (reopen_keeps_store {[HashText "a" := ex_vec]} map_to_list ex_one 1
           (mkOptions true 100)).
  - exact ex_one_store_inv.
  - reflexivity.
  - rewrite Hidx. apply insert_non_empty.
  - intros h. rewrite Hidx. intros [o [<- _]%lookup_singleton_Some].
    apply HashText_range.
  - by vm_compute.
  - by vm_compute.
  - by vm_compute.
  - by vm_compute.
  - by vm_compute.
  - by vm_compute.
  - by vm_compute.
  - by vm_compute.
Defined.

Lemma record_offsets_keys recs off h o :
  (h, o) ∈ record_offsets recs off -> h ∈ map fst recs.
Proof.
  revert off. induction recs as [|[h' v'] recs IH]; intros off; cbn [record_offsets map fst snd].
  - by intros H%elem_of_nil.
  - intros [[= -> ->]|H]%elem_of_cons; [left|right; by eapply IH].
Qed.

Lemma packed_keys hd kvs db h :
  packed hd (records_of kvs) db -> is_Some (index db !! h) -> is_u64 h.
Proof.
  intros (_ & _ & _ & _ & Hi & _) [o Ho].
  rewrite Hi, index_of_pairs_lookup, lookup_empty in Ho.
  destruct (last_offset h _) as [o'|] eqn:E; [|done].
  apply last_offset_Some, record_offsets_keys in E.
  unfold records_of in E. rewrite map_map in E. cbn [fst] in E.
  apply list_elem_of_fmap in E as (kv & -> & _). apply HashText_range.
Qed.

(** X21.  End to end: a new engine, any pairs with distinct hashes and
    vectors of length D, a clean close, a reopen.  All steps succeed; the
    reopened engine has the same index and dataEndOffset, its header
    counts the pairs, and after any reads each key's Get returns a slice
    holding exactly the bits of its vector. *)
Theorem insert_close_reopen_get D opts opts' range kvs :
  is_u32 D ->
  (forall idx, range idx ≡ₚ map_to_list idx) ->
  NoDup (map (fun kv => HashText kv.1) kvs) ->
  Forall (fun kv => Z.of_nat (length kv.2) = D /\ Forall is_u32 kv.2) kvs ->
  HeaderSize + Z.of_nat (length kvs) * (32 + 4 * D) + 2 ^ 35 <= max_off ->
  exists db0 db db1 db2,
    OpenWithOptions None D opts = Ok db0 /\
    insert_all kvs db0 = (Ok tt, db) /\
    Close range db = (Ok tt, db1) /\
    OpenWithOptions (Some (contents (file db1))) D opts' = Ok db2 /\
    index db2 = index db /\
    dataEndOffset db2 = dataEndOffset db /\
    RecordCount (header db2) = Z.of_nat (length kvs) /\
    forall ks k v, (k, v) ∈ kvs ->
      exists r hp' db',
        Get k (fst (get_all ks [] db2)) (snd (get_all ks [] db2)) = (Ok r, hp', db') /\
        deref hp' r = v.
Proof.
  intros HD Hrange Hnd Hty Hmax.
  assert (HD0 : 0 <= D) by (unfold is_u32 in HD; lia).
  destruct (create_inv D opts) as (db0 & Hopen & Hs0 & Hc0 & Hdim & Hend & Hlru).
  destruct (create_packed D opts db0 Hopen) as (Hp0 & Hh0 & _ & _).
  destruct (insert_all_inv ∅ D kvs db0) as (db & m & Hall & Hs & Hc & _ & Hget);
    try done.
  { rewrite Hend. lia. }
  destruct (insert_all_packed _ D kvs [] db0 Hp0)
    as (db_ & Hall' & Hp & _ & HdimD & Hmg & Hve & Hdi & Hio & Hdo & Hrc);
    try done.
  { intros kv _. destruct Hp0 as (_ & _ & _ & _ & Hi & _). by rewrite Hi. }
  { eapply Forall_impl; [exact Hty|]. by intros kv [? _]. }
  { rewrite Hend. lia. }
  rewrite Hall in Hall'. injection Hall' as <-. cbn [app] in Hp.
  rewrite Hh0 in *. cbn [NewHeader Magic Version Dimension IndexOffset DataOffset RecordCount]
    in *.
  assert (Hn : length (records_of kvs) = length kvs)
    by (unfold records_of; by rewrite length_map).
  pose proof Hp as (Hhd & Hf & Hd & Hmm & Hi & Hsz). cbn zeta in *.
  rewrite Hn in Hsz.
  assert (Hde : dataEndOffset db = HeaderSize + Z.of_nat (length kvs) * (16 + 4 * D)).
  { rewrite Hd, length_app, Hhd, Nat2Z.inj_add.
    rewrite (length_data_section D).
    - rewrite Hn. unfold HeaderSize. lia.
    - unfold records_of. apply Forall_map. eapply Forall_impl; [exact Hty|].
      by intros kv [? _]. }
  assert (Hrc' : RecordCount (header db) = Z.of_nat (length kvs)).
  { rewrite Hrc; [by rewrite Hsz|].
    destruct Hp0 as (_ & _ & _ & _ & -> & _). done. }
  assert (Hfinish : forall db2, store_inv m db2 -> LRU.lru (cache db2) = [] ->
    forall ks k v, (k, v) ∈ kvs ->
      exists r hp' db',
        Get k (fst (get_all ks [] db2)) (snd (get_all ks [] db2)) = (Ok r, hp', db') /\
        deref hp' r = v).
  { intros db2 Hs2 Hl2 ks k v Hin.
    assert (Hci : cache_inv m [] db2).
    { intros e. rewrite Hl2. by intros H%elem_of_nil. }
    destruct (get_all_inv m ks [] db2 Hs2 Hci) as [Hs' Hc'].
    destruct (Get_spec m k _ _ Hs' Hc') as (r & hp' & db' & Hg & _ & _ & Hr).
    rewrite (Hget k v Hin) in Hr. destruct Hr as (ref & -> & Hdr).
    by exists ref, hp', db'. }
  destruct kvs as [|kv kvs].
  - (* nothing was inserted: the close rewrites the header only *)
    cbn [insert_all] in Hall. injection Hall as <-.
    destruct (Close_header_only range db0) as (db1 & Hcl & Hcont & _).
    { by rewrite Hf. }
    { intros n. rewrite Hmm. by destruct (_ <=? _). }
    { left. by rewrite Hi. }
    destruct (Open_packed D opts' (records_of []) db0 HD Hp)
      as (db2 & Hopen2 & Hf2 & Hm2 & Hi2 & Hd2 & Hh2 & Hc2); [done|lia|].
    assert (Hsame : contents (file db1) = contents (file db0)).
    { rewrite Hcont, Hh0, Hf. cbn [contents records_of map data_section flat_map].
      by f_equal. }
    exists db0, db0, db1, db2. rewrite Hsame.
    split_and!; try done.
    + by rewrite Hh2.
    + apply Hfinish; [by eapply store_inv_transfer|by rewrite Hc2].
  - assert (Hne : index db <> ∅).
    { intros E. rewrite E, map_size_empty in Hsz. cbn [length] in Hsz. lia. }
    assert (Hkeys : forall h, is_Some (index db !! h) -> is_u64 h).
    { intros h. by apply (packed_keys _ _ _ _ Hp). }
    assert (Hroom : dataEndOffset db + 16 * Z.of_nat (size (index db)) <= max_off).
    { rewrite Hsz, Hde. cbn [length] in *. lia. }
    assert (Hv2 : 2 <= Version (header db)) by (rewrite Hve; by vm_compute).
    assert (Hv32 : is_u32 (Version (header db))) by (rewrite Hve; by vm_compute).
    assert (Hrc64 : is_u64 (RecordCount (header db))).
    { rewrite Hrc'. unfold is_u64, max_off in *. cbn [length] in *. lia. }
    assert (Hdo64 : is_u64 (DataOffset (header db))) by (rewrite Hdo; by vm_compute).
    destruct (reopen_store_inv m range db D opts' Hs (Hrange _) Hne Hkeys Hroom
                Hmg Hv2 Hv32 Hdi HD Hrc64 Hdo64)
      as (db1 & db2 & Hcl & Hop & Hs2 & Hl2 & Hi2 & Hd2 & Hh2).
    exists db0, db, db1, db2. split_and!; try done.
    + by rewrite Hh2.
    + by apply Hfinish.
Qed.

Lemma insert_close_reopen_get_witness :
  exists db0 db db1 db2,
    OpenWithOptions None 1 (mkOptions true 100) = Ok db0 /\
    insert_all ex_pairs db0 = (Ok tt, db) /\
    Close map_to_list db = (Ok tt, db1) /\
    OpenWithOptions (Some (contents (file db1))) 1 (mkOptions true 7) = Ok db2 /\
    index db2 = index db /\
    dataEndOffset db2 = dataEndOffset db /\
    RecordCount (header db2) = Z.of_nat (length ex_pairs) /\
    forall ks k v, (k, v) ∈ ex_pairs ->
      exists r hp' db',
        Get k (fst (get_all ks [] db2)) (snd (get_all ks [] db2)) = (Ok r, hp', db') /\
        deref hp' r = v.
Proof.
  apply (insert_close_reopen_get 1 (mkOptions true 100) (mkOptions true 7)
           map_to_list ex_pairs).
  - by vm_compute.
  - reflexivity.
  - by_compute.
  - repeat constructor; by vm_compute.
  - by vm_compute.
Defined.

(** ** Insert into a reopened engine *)

(** The first 16 bytes of a record read as an index entry: the record's
    hash, and its dimension in the place of the offset. *)
Lemma record_as_index_entry h v rest :
  is_u64 h -> is_u32 (Z.of_nat (length v)) ->
  DecodeIndexEntry (take 16 (record_bytes h v ++ rest))
  = {| Hash := h; Offset := Z.of_nat (length v) |}.
Proof.
  intros Hh Hl.
  assert (E : record_bytes h v ++ rest
              = (PutUint64 h ++ PutUint32 (Z.of_nat (length v)) ++ zeros 4)
                ++ (flat_map PutUint32 v ++ rest)).
  { unfold record_bytes. rewrite u32_id by done. by rewrite <- !app_assoc. }
  rewrite E.
  assert (L : length (PutUint64 h ++ PutUint32 (Z.of_nat (length v)) ++ zeros 4) = 16%nat).
  { rewrite !length_app, length_PutUint64, length_PutUint32. done. }
  rewrite take_app_length' by exact L.
  unfold DecodeIndexEntry. f_equal.
  - unfold sub. rewrite drop_0. cbn [Nat.sub].
    rewrite take_app_length' by (by rewrite length_PutUint64).
    rewrite <- (app_nil_r (PutUint64 h)). by apply Uint64_PutUint64.
  - unfold sub. rewrite drop_app_length' by (by rewrite length_PutUint64).
    cbn [Nat.sub]. unfold Uint64.
    assert (L4 : length (PutUint32 (Z.of_nat (length v)) ++ zeros 4) = 8%nat)
      by (by rewrite length_app, length_PutUint32).
    rewrite (take_ge (PutUint32 _ ++ zeros 4)) by (rewrite L4; done).
    rewrite take_ge by (rewrite L4; done).
    change (zeros 4) with (List.repeat Byte.x00 4).
    rewrite le_combine_app_0. unfold PutUint32. rewrite le_combine_split.
    rewrite Z.mod_small by exact Hl.
    apply i64_id. unfold is_i64, is_u32 in *. lia.
Qed.

(** X22.  Insert into an engine whose header's index offset is its
    dataEndOffset (as after opening a cleanly closed file) writes the
    record over the index section and leaves the header's index offset
    where it was: read as an index section, the file now begins with the
    entry (hash of the key, dimension) instead of an offset of a
    record. *)
Theorem Insert_into_index_section text vector db :
  closed (file db) = false ->
  (forall n, mmap db <> Unmapped n) ->
  0 <= dataEndOffset db ->
  IndexOffset (header db) = dataEndOffset db ->
  index db !! HashText text = None ->
  Z.of_nat (length vector) = dimension db ->
  is_u32 (dimension db) ->
  dataEndOffset db + 16 + 4 * Z.of_nat (length vector) <= max_off ->
  exists db' rest,
    Insert text vector db = (Ok tt, db') /\
    IndexOffset (header db') = IndexOffset (header db) /\
    section_pairs db' = (HashText text, dimension db) :: rest.
Proof.
  intros Hc Hm Hd Hio Hi Hdim HD Hmax.
  set (buf := record_bytes (HashText text) vector).
  assert (Hbuf : length buf = (16 + 4 * length vector)%nat)
    by apply length_record_bytes.
  set (new := resize (Z.to_nat (dataEndOffset db)) Byte.x00 (contents (file db)) ++ buf
              ++ drop (Z.to_nat (dataEndOffset db) + length buf) (contents (file db))).
  assert (Hins : exists mm,
    Insert text vector db =
    (Ok tt, mkDB {| contents := new; closed := false |} mm
                 (set_RecordCount (u64 (RecordCount (header db) + 1)) (header db))
                 (<[HashText text := dataEndOffset db]> (index db)) (cache db) (dimension db)
                 (i64 (dataEndOffset db + (RecordMetaSize + Z.of_nat (length vector) * 4))))).
  { unfold Insert.
    destruct (Z.eqb_spec (Z.of_nat (length vector)) (dimension db)); [|done].
    cbn [negb]. rewrite Hi. fold buf.
    rewrite WriteAt_Some; [|done|lia|rewrite Hbuf; lia]. fold new.
    unfold remap, unmap, set_dataEndOffset, set_header, set_index, set_file, set_mmap.
    cbn [mmap file header index cache dimension dataEndOffset contents closed].
    destruct (mmap db) as [|n|n] eqn:E;
      cbn [mmap file header index cache dimension dataEndOffset contents closed];
      [| |by destruct (Hm n)];
      unfold StatSize; cbn [closed contents]; destruct (_ <=? _); by eexists. }
  destruct Hins as [mm Hins].
  set (t := buf ++ drop (Z.to_nat (dataEndOffset db) + length buf) (contents (file db))).
  assert (Hdrop : drop (Z.to_nat (dataEndOffset db)) new = t).
  { unfold new. by rewrite drop_app_length' by (by rewrite length_resize). }
  eexists _, (index_entries (pred (length t / 16)) (drop 16 t)).
  split; [exact Hins|]. split; [done|].
  unfold section_pairs, tail_entries, file_tail.
  cbn [file header contents set_RecordCount IndexOffset].
  rewrite Hio, i64_id by (unfold is_i64, max_off in *; lia).
  rewrite Hdrop.
  destruct (length t / 16)%nat as [|k] eqn:Ek.
  { apply Nat.div_small_iff in Ek; [|done]. unfold t in Ek.
    rewrite length_app, Hbuf in Ek. lia. }
  cbn [index_entries Nat.pred]. unfold t at 1 2, buf.
  rewrite !record_as_index_entry; [|apply HashText_range|by rewrite Hdim].
  cbn [Hash Offset]. rewrite Hdim. reflexivity.
Qed.

Lemma Insert_into_index_section_witness :
  exists db' rest,
    Insert "b" [0] ex_reopened_closed = (Ok tt, db') /\
    IndexOffset (header db') = IndexOffset (header ex_reopened_closed) /\
    section_pairs db' = (HashText "b", dimension ex_reopened_closed) :: rest.
Proof.
  apply (Insert_into_index_section "b" [0] ex_reopened_closed); by vm_compute.
Defined.

(** ** Sessions *)

Lemma Insert_header text vector db :
  let h := header db in
  let h' := header (snd (Insert text vector db)) in
  Magic h' = Magic h /\ Version h' = Version h /\ Dimension h' = Dimension h /\
  IndexOffset h' = IndexOffset h /\ DataOffset h' = DataOffset h /\
  (is_u64 (RecordCount h) -> is_u64 (RecordCount h')).
Proof.
  unfold Insert.
  destruct (negb _); [done|].
  destruct (index db !! HashText text) eqn:Hi; [done|].
  destruct (WriteAt _ _ _) as [f|]; [|done].
  assert (Hu : is_u64 (u64 (RecordCount (header db) + 1)))
    by (unfold is_u64, u64; apply Z.mod_pos_bound; lia).
  unfold remap, unmap, set_dataEndOffset, set_header, set_index, set_file, set_mmap.
  cbn [mmap file header index cache dimension dataEndOffset].
  destruct (mmap db); cbn [snd header index mmap file]; try done;
    unfold StatSize; destruct (closed f); cbn [snd header index]; try done;
    destruct (_ <=? _); cbn [snd header index]; done.
Qed.

Lemma Insert_durable m D text vector db :
  durable m D db ->
  m !! HashText text = None ->
  Z.of_nat (length vector) = D -> Forall is_u32 vector ->
  dataEndOffset db + 16 + 4 * D <= max_off ->
  exists db',
    Insert text vector db = (Ok tt, db') /\
    durable (<[HashText text := vector]> m) D db' /\
    cache db' = cache db /\
    dataEndOffset db' = dataEndOffset db + 16 + 4 * D /\
    (size (index db') <= S (size (index db)))%nat.
Proof.
  intros (Hs & Hdim & HD & Hmg & Hve & Hdi & Hrc & Hdo & Hk & He) Hnew Hl Hv Hmax.
  destruct (Insert_new m text vector db) as (db' & Hins & Hs' & Hc' & Hd' & Hde');
    try done.
  { by rewrite Hl. }
  { by rewrite Hl. }
  { by rewrite Hl. }
  pose proof (Insert_header text vector db) as Hh.
  pose proof (Insert_size text vector db) as Hsz.
  rewrite Hins in Hh, Hsz. cbn [snd] in Hh, Hsz. cbn zeta in Hh.
  destruct Hh as (H1 & H2 & H3 & H4 & H5 & H6).
  exists db'. split; [done|]. split; [|by rewrite Hde', Hl].
  unfold durable. split_and!; try congruence.
  - by apply H6.
  - intros h [w Hw]. destruct (decide (HashText text = h)) as [<-|Hne].
    + apply HashText_range.
    + rewrite lookup_insert_ne in Hw by done. apply Hk. by exists w.
  - intros E. by apply insert_non_empty in E.
Qed.

Lemma insert_pairs_lookup m kvs :
  NoDup (map (fun kv => HashText kv.1) kvs) ->
  (forall kv, kv ∈ kvs -> m !! HashText kv.1 = None) ->
  (forall h v, m !! h = Some v -> insert_pairs m kvs !! h = Some v) /\
  (forall k v, (k, v) ∈ kvs -> insert_pairs m kvs !! HashText k = Some v).
Proof.
  revert m. induction kvs as [|[k v] kvs IH]; intros m Hnd Hnew.
  { split; [done|]. intros k v H. by apply elem_of_nil in H. }
  apply NoDup_cons in Hnd as [Hk Hnd]. cbn [map fst snd] in *.
  unfold insert_pairs. cbn [fold_left fst snd].
  fold (insert_pairs (<[HashText k := v]> m) kvs).
  destruct (IH (<[HashText k := v]> m) Hnd) as [Hmono Hget].
  { intros [k' v'] Hin. cbn [fst]. rewrite lookup_insert_ne.
    - apply (Hnew (k', v')). by right.
    - intros Heq. apply Hk. rewrite Heq.
      apply (list_elem_of_fmap_2 (fun kv : string * list Z => HashText kv.1) _ _ Hin). }
  split.
  - intros h w Hw. apply Hmono.
    destruct (decide (HashText k = h)) as [<-|Hne].
    + specialize (Hnew (k, v) ltac:(left)). cbn [fst] in Hnew. congruence.
    + by rewrite lookup_insert_ne.
  - intros k' v' [[= -> ->]|Hin]%elem_of_cons.
    + apply Hmono. by rewrite lookup_insert_eq.
    + by apply Hget.
Qed.

Lemma insert_all_durable m D kvs db :
  durable m D db ->
  (forall kv, kv ∈ kvs -> m !! HashText kv.1 = None) ->
  NoDup (map (fun kv => HashText kv.1) kvs) ->
  Forall (fun kv => Z.of_nat (length kv.2) = D /\ Forall is_u32 kv.2) kvs ->
  dataEndOffset db + Z.of_nat (length kvs) * (16 + 4 * D) <= max_off ->
  exists db',
    insert_all kvs db = (Ok tt, db') /\
    durable (insert_pairs m kvs) D db' /\
    cache db' = cache db /\
    dataEndOffset db' = dataEndOffset db + Z.of_nat (length kvs) * (16 + 4 * D) /\
    (size (index db') <= size (index db) + length kvs)%nat.
Proof.
  revert m db. induction kvs as [|[k v] kvs IH]; intros m db Hdu Hnew Hnd Hty Hmax.
  { exists db. cbn [insert_all insert_pairs fold_left length].
    split_and!; try done; lia. }
  apply NoDup_cons in Hnd as [Hk Hnd]. apply Forall_cons in Hty as [[Hl Hv] Hty].
  cbn [fst snd length map] in *.
  assert (HD0 : 0 <= D) by (destruct Hdu as (_ & _ & HD & _); unfold is_u32 in HD; lia).
  destruct (Insert_durable m D k v db) as (db1 & Hins & Hdu1 & Hc1 & He1 & Hsz1);
    try done.
  { apply (Hnew (k, v)). left. }
  { nia. }
  destruct (IH (<[HashText k := v]> m) db1) as (db' & Hall & Hdu' & Hc' & He' & Hsz');
    try done.
  { intros [k' v'] Hin. cbn [fst]. rewrite lookup_insert_ne.
    - apply (Hnew (k', v')). by right.
    - intros Heq. apply Hk. rewrite Heq.
      apply (list_elem_of_fmap_2 (fun kv : string * list Z => HashText kv.1) _ _ Hin). }
  { rewrite He1. nia. }
  exists db'. cbn [insert_all]. rewrite Hins.
  split_and!; try done; try congruence; lia.
Qed.

Lemma store_inv_index_empty m db :
  store_inv m db -> (index db = ∅ <-> m = ∅).
Proof.
  intros (_ & _ & _ & _ & Hdom & _). split; intros E; apply map_eq; intros h;
    rewrite lookup_empty.
  - apply Hdom. by rewrite E, lookup_empty.
  - apply Hdom. by rewrite E, lookup_empty.
Qed.

(** Closing an engine that holds nothing and opening the file again. *)
Lemma reopen_empty range D opts db :
  durable ∅ D db ->
  exists db1 db2,
    Close range db = (Ok tt, db1) /\
    OpenWithOptions (Some (contents (file db1))) D opts = Ok db2 /\
    durable ∅ D db2 /\ LRU.lru (cache db2) = [] /\
    dataEndOffset db2 = dataEndOffset db /\ index db2 = index db.
Proof.
  intros (Hs & Hdim & HD & Hmg & Hve & Hdi & Hrc & Hdo & Hk & He).
  destruct (He eq_refl) as [Hlen Hio].
  pose proof Hs as (Hc & Hoff & Hl & Hmm & Hdom & Hrec).
  assert (Hnm : forall n, mmap db <> Unmapped n).
  { intros n. rewrite Hmm. by destruct (_ <=? _). }
  assert (Hie : index db = ∅) by (by apply (store_inv_index_empty ∅ db Hs)).
  destruct (Close_header_only range db Hc Hnm (or_introl Hie)) as (db1 & Hcl & Hcont & _).
  exists db1. unfold HeaderSize in *.
  assert (Hb : contents (file db1) = Header_Encode (header db)).
  { rewrite Hcont, drop_ge by lia. by rewrite app_nil_r. }
  rewrite Hb, OpenWithOptions_eq.
  assert (Hdec : DecodeHeader (take 256 (Header_Encode (header db))) = header db).
  { rewrite <- (app_nil_r (Header_Encode _)).
    apply DecodeHeader_Encode; try done.
    - by rewrite Hmg.
    - rewrite Hve. by vm_compute.
    - by rewrite Hdi.
    - rewrite Hio. by vm_compute. }
  rewrite Hdec, length_Header_Encode.
  change (256 <? 256)%nat with false. cbn iota.
  rewrite (bool_decide_eq_true_2 _ Hmg), Hdi, Z.eqb_refl. cbn [negb].
  change (Z.of_nat 256 >? HeaderSize) with false. cbn iota.
  eexists. split; [done|]. split; [reflexivity|].
  unfold set_dataEndOffset, set_header, new_DB.
  cbn [file mmap header index cache dimension dataEndOffset LRU.NewLRUCache LRU.lru].
  split; [|split; [done|split; [unfold HeaderSize; lia|by rewrite Hie]]].
  unfold durable, store_inv.
  cbn [file mmap header index cache dimension dataEndOffset contents closed].
  rewrite length_Header_Encode. unfold HeaderSize, max_off.
  split_and!; done || lia.
Qed.

(** One session on a durable engine: inserts, a clean close, a reopen. *)
Lemma session_cycle m D range opts kvs db :
  durable m D db ->
  (forall idx, range idx ≡ₚ map_to_list idx) ->
  (forall kv, kv ∈ kvs -> m !! HashText kv.1 = None) ->
  NoDup (map (fun kv => HashText kv.1) kvs) ->
  Forall (fun kv => Z.of_nat (length kv.2) = D /\ Forall is_u32 kv.2) kvs ->
  dataEndOffset db + Z.of_nat (length kvs) * (16 + 4 * D)
    + 16 * (Z.of_nat (size (index db)) + Z.of_nat (length kvs)) <= max_off ->
  exists db1 db2 db3,
    insert_all kvs db = (Ok tt, db1) /\
    Close range db1 = (Ok tt, db2) /\
    OpenWithOptions (Some (contents (file db2))) D opts = Ok db3 /\
    durable (insert_pairs m kvs) D db3 /\
    LRU.lru (cache db3) = [] /\
    dataEndOffset db3 = dataEndOffset db + Z.of_nat (length kvs) * (16 + 4 * D) /\
    (size (index db3) <= size (index db) + length kvs)%nat /\
    (forall h v, m !! h = Some v -> insert_pairs m kvs !! h = Some v) /\
    (forall k v, (k, v) ∈ kvs -> insert_pairs m kvs !! HashText k = Some v) /\
    (forall text v, insert_pairs m kvs !! HashText text = Some v ->
       exists r hp' db', Get text [] db3 = (Ok r, hp', db') /\ deref hp' r = v).
Proof.
  intros Hdu Hrange Hnew Hnd Hty Hmax.
  assert (HD0 : 0 <= D) by (destruct Hdu as (_ & _ & HD & _); unfold is_u32 in HD; lia).
  destruct (insert_all_durable m D kvs db) as (db1 & Hall & Hdu1 & Hc1 & He1 & Hsz1);
    try done.
  { lia. }
  destruct (insert_pairs_lookup m kvs Hnd Hnew) as [Hmono Hget].
  set (m' := insert_pairs m kvs) in *.
  assert (Hfinish : forall db3, durable m' D db3 -> LRU.lru (cache db3) = [] ->
    forall text v, m' !! HashText text = Some v ->
      exists r hp' db', Get text [] db3 = (Ok r, hp', db') /\ deref hp' r = v).
  { intros db3 (Hs3 & _) Hl3 text v Hv.
    assert (Hci : cache_inv m' [] db3).
    { intros e. rewrite Hl3. by intros H%elem_of_nil. }
    destruct (Get_spec m' text [] db3 Hs3 Hci) as (r & hp' & db' & Hg & _ & _ & Hr).
    rewrite Hv in Hr. destruct Hr as (ref & -> & Hdr). by exists ref, hp', db'. }
  exists db1.
  destruct (decide (index db1 = ∅)) as [Hie|Hne].
  - assert (Hme : m' = ∅).
    { destruct Hdu1 as (Hs1 & _). by apply (store_inv_index_empty m' db1 Hs1). }
    rewrite Hme in Hdu1.
    destruct (reopen_empty range D opts db1 Hdu1)
      as (db2 & db3 & Hcl & Hop & Hdu3 & Hl3 & Hd3 & Hi3).
    exists db2, db3. rewrite <- Hme in Hdu3.
    split_and!; try done; try congruence; try (by rewrite Hi3); try (by apply Hfinish).
  - pose proof Hdu1 as (Hs1 & Hdim1 & HD1 & Hmg1 & Hve1 & Hdi1 & Hrc1 & Hdo1 & Hk1 & _).
    assert (Hkeys : forall h, is_Some (index db1 !! h) -> is_u64 h).
    { intros h [o Ho]. apply Hk1.
      destruct Hs1 as (_ & _ & _ & _ & Hdom & _).
      destruct (m' !! h) eqn:E; [by eexists|]. apply Hdom in E. congruence. }
    destruct (reopen_store_inv m' range db1 D opts Hs1 (Hrange _) Hne Hkeys)
      as (db2 & db3 & Hcl & Hop & Hs3 & Hl3 & Hi3 & Hd3 & Hh3); try done.
    { lia. }
    { rewrite Hve1. by vm_compute. }
    { rewrite Hve1. by vm_compute. }
    apply OpenWithOptions_Ok in Hop as Hfacts.
    destruct Hfacts as (_ & _ & _ & Hdim3 & _).
    assert (Hdu3 : durable m' D db3).
    { unfold durable. rewrite Hh3.
      cbn [set_IndexOffset Magic Version Dimension RecordCount DataOffset IndexOffset].
      split_and!; try done.
      intros E. exfalso. apply Hne.
      by apply (store_inv_index_empty m' db1 Hs1). }
    exists db2, db3. split_and!; try done; try congruence; try (by rewrite Hi3); try (by apply Hfinish).
Qed.

(** X23.  One session on a durable engine (sound, with a well-typed
    version-2 header): inserting pairs with new, distinct hashes, closing
    and reopening all succeed, and the reopened engine is durable again,
    with an empty cache; it holds every vector it held before and every
    vector inserted, and Get of any key whose hash it holds returns the
    vector. *)
Theorem session_keeps_vectors m D range opts kvs db :
  durable m D db ->
  (forall idx, range idx ≡ₚ map_to_list idx) ->
  (forall kv, kv ∈ kvs -> m !! HashText kv.1 = None) ->
  NoDup (map (fun kv => HashText kv.1) kvs) ->
  Forall (fun kv => Z.of_nat (length kv.2) = D /\ Forall is_u32 kv.2) kvs ->
  dataEndOffset db + Z.of_nat (length kvs) * (16 + 4 * D)
    + 16 * (Z.of_nat (size (index db)) + Z.of_nat (length kvs)) <= max_off ->
  exists db1 db2 db3,
    insert_all kvs db = (Ok tt, db1) /\
    Close range db1 = (Ok tt, db2) /\
    OpenWithOptions (Some (contents (file db2))) D opts = Ok db3 /\
    durable (insert_pairs m kvs) D db3 /\
    LRU.lru (cache db3) = [] /\
    (forall h v, m !! h = Some v -> insert_pairs m kvs !! h = Some v) /\
    (forall k v, (k, v) ∈ kvs -> insert_pairs m kvs !! HashText k = Some v) /\
    (forall text v, insert_pairs m kvs !! HashText text = Some v ->
       exists r hp' db', Get text [] db3 = (Ok r, hp', db') /\ deref hp' r = v).
Proof.
  intros Hdu Hrange Hnew Hnd Hty Hmax.
  destruct (session_cycle m D range opts kvs db Hdu Hrange Hnew Hnd Hty Hmax)
    as (db1 & db2 & db3 & H1 & H2 & H3 & H4 & H5 & _ & _ & H6 & H7 & H8).
  by exists db1, db2, db3.
Qed.

Lemma ex_one_durable : durable {[HashText "a" := ex_vec]} 1 ex_one.
Proof.
  unfold durable. split; [exact ex_one_store_inv|].
  split; [by vm_compute|]. split; [by vm_compute|]. split; [by vm_compute|].
  split; [by vm_compute|]. split; [by vm_compute|]. split; [by vm_compute|].
  split; [by vm_compute|]. split.
  - intros h [v [<- _]%lookup_singleton_Some]. apply HashText_range.
  - intros E. apply (f_equal (fun m : gmap Z (list Z) => m !! HashText "a")) in E.
    by rewrite lookup_singleton_eq, lookup_empty in E.
Qed.

Lemma session_keeps_vectors_witness :
  exists db1 db2 db3,
    insert_all [("b"%string, [0])] ex_one = (Ok tt, db1) /\
    Close map_to_list db1 = (Ok tt, db2) /\
    OpenWithOptions (Some (contents (file db2))) 1 (mkOptions true 100) = Ok db3 /\
    durable (insert_pairs {[HashText "a" := ex_vec]} [("b"%string, [0])]) 1 db3 /\
    LRU.lru (cache db3) = [] /\
    (forall h v, ({[HashText "a" := ex_vec]} : gmap Z (list Z)) !! h = Some v ->
       insert_pairs {[HashText "a" := ex_vec]} [("b"%string, [0])] !! h = Some v) /\
    (forall k v, (k, v) ∈ [("b"%string, [0])] ->
       insert_pairs {[HashText "a" := ex_vec]} [("b"%string, [0])] !! HashText k = Some v) /\
    (forall text v,
       insert_pairs {[HashText "a" := ex_vec]} [("b"%string, [0])] !! HashText text = Some v ->
       exists r hp' db', Get text [] db3 = (Ok r, hp', db') /\ deref hp' r = v).
Proof.
  apply (session_keeps_vectors {[HashText "a" := ex_vec]} 1 map_to_list
           (mkOptions true 100) [("b"%string, [0])] ex_one).
  - exact ex_one_durable.
  - reflexivity.
  - intros kv ->%list_elem_of_singleton. cbn [fst].
    apply lookup_singleton_ne. by vm_compute.
  - by_compute.
  - repeat constructor; by vm_compute.
  - by vm_compute.
Defined.

Lemma insert_pairs_None m kvs h :
  m !! h = None -> h ∉ map (fun kv => HashText kv.1) kvs ->
  insert_pairs m kvs !! h = None.
Proof.
  revert m. induction kvs as [|[k v] kvs IH]; intros m Hm Hn; [done|].
  cbn [map fst] in Hn. apply not_elem_of_cons in Hn as [Hne Hn].
  unfold insert_pairs. cbn [fold_left fst snd].
  apply IH; [|done]. by rewrite lookup_insert_ne.
Qed.

Lemma insert_pairs_app m kvs1 kvs2 :
  insert_pairs m (kvs1 ++ kvs2) = insert_pairs (insert_pairs m kvs1) kvs2.
Proof. apply fold_left_app. Qed.

(** X24.  Any number of sessions on one file, each inserting a batch
    (possibly empty) of pairs, closing and reopening: when all hashes are
    new and distinct and the file stays below the largest offset, every
    session succeeds, the final engine is durable, it holds the vectors
    held at the start and every vector of every batch, and Get returns
    them. *)
Theorem sessions_keep_vectors m D range opts batches db :
  durable m D db ->
  (forall idx, range idx ≡ₚ map_to_list idx) ->
  (forall kv, kv ∈ concat batches -> m !! HashText kv.1 = None) ->
  NoDup (map (fun kv => HashText kv.1) (concat batches)) ->
  Forall (fun kv => Z.of_nat (length kv.2) = D /\ Forall is_u32 kv.2) (concat batches) ->
  dataEndOffset db + Z.of_nat (length (concat batches)) * (16 + 4 * D)
    + 16 * (Z.of_nat (size (index db)) + Z.of_nat (length (concat batches))) <= max_off ->
  exists db',
    sessions range D opts batches db = Ok db' /\
    durable (insert_pairs m (concat batches)) D db' /\
    (forall h v, m !! h = Some v ->
       insert_pairs m (concat batches) !! h = Some v) /\
    (forall k v, (k, v) ∈ concat batches ->
       insert_pairs m (concat batches) !! HashText k = Some v) /\
    (forall hp text v,
       cache_inv (insert_pairs m (concat batches)) hp db' ->
       insert_pairs m (concat batches) !! HashText text = Some v ->
       exists r hp' db'', Get text hp db' = (Ok r, hp', db'') /\ deref hp' r = v).
Proof.
  intros Hdu Hrange Hnew Hnd Hty Hmax.
  destruct (insert_pairs_lookup m (concat batches) Hnd Hnew) as [Hmono Hget].
  assert (HD0 : 0 <= D) by (destruct Hdu as (_ & _ & HD & _); unfold is_u32 in HD; lia).
  assert (Hmain : exists db',
    sessions range D opts batches db = Ok db' /\
    durable (insert_pairs m (concat batches)) D db').
  { clear Hmono Hget. revert m db Hdu Hnew Hnd Hty Hmax.
    induction batches as [|kvs rest IH]; intros m db Hdu Hnew Hnd Hty Hmax.
    { by exists db. }
    cbn [concat] in *. rewrite map_app in Hnd.
    apply NoDup_app in Hnd as (Hnd1 & Hdisj & Hnd2).
    apply Forall_app in Hty as [Hty1 Hty2].
    rewrite length_app, Nat2Z.inj_add in Hmax.
    destruct (session_cycle m D range opts kvs db Hdu Hrange)
      as (db1 & db2 & db3 & H1 & H2 & H3 & Hdu3 & _ & Hd3 & Hsz3 & _); try done.
    { intros kv Hin. apply Hnew. apply elem_of_app. by left. }
    { nia. }
    destruct (IH (insert_pairs m kvs) db3 Hdu3) as (db' & Hs' & Hdu'); try done.
    { intros kv Hin. apply insert_pairs_None.
      - apply Hnew. apply elem_of_app. by right.
      - intros Hk. apply (Hdisj _ Hk).
        apply (list_elem_of_fmap_2 (fun kv : string * list Z => HashText kv.1) _ _ Hin). }
    { rewrite Hd3. nia. }
    exists db'. cbn [sessions]. rewrite H1, H2, H3, insert_pairs_app. done. }
  destruct Hmain as (db' & Hs' & Hdu').
  exists db'. split_and!; try done.
  intros hp text v Hci Hv.
  destruct Hdu' as (Hst & _).
  destruct (Get_spec _ text hp db' Hst Hci) as (r & hp' & db'' & Hg & _ & _ & Hr).
  rewrite Hv in Hr. destruct Hr as (ref & -> & Hdr). by exists ref, hp', db''.
Qed.

Lemma create_durable D opts :
  is_u32 D ->
  exists db0, OpenWithOptions None D opts = Ok db0 /\ durable ∅ D db0 /\
              dataEndOffset db0 = HeaderSize /\ index db0 = ∅.
Proof.
  intros HD. eexists. split; [apply create_eq|].
  destruct (create_inv D opts) as (db0 & Hopen & Hs0 & _).
  rewrite create_eq in Hopen. injection Hopen as <-.
  split; [|done]. unfold durable. split; [exact Hs0|].
  cbn [file mmap header index cache dimension dataEndOffset contents NewHeader
       Magic Version Dimension RecordCount IndexOffset DataOffset].
  rewrite length_Header_Encode.
  split_and!; try done.
  intros h [v Hv]. by rewrite lookup_empty in Hv.
Qed.

Lemma sessions_keep_vectors_witness :
  exists db',
    sessions map_to_list 1 (mkOptions true 100)
      [[("a"%string, ex_vec)]; []; [("b"%string, [0])]] ex_fresh = Ok db' /\
    durable (insert_pairs ∅ (concat [[("a"%string, ex_vec)]; []; [("b"%string, [0])]])) 1 db' /\
    (forall h v, (∅ : gmap Z (list Z)) !! h = Some v ->
       insert_pairs ∅ (concat [[("a"%string, ex_vec)]; []; [("b"%string, [0])]]) !! h = Some v) /\
    (forall k v, (k, v) ∈ concat [[("a"%string, ex_vec)]; []; [("b"%string, [0])]] ->
       insert_pairs ∅ (concat [[("a"%string, ex_vec)]; []; [("b"%string, [0])]]) !! HashText k
       = Some v) /\
    (forall hp text v,
       cache_inv (insert_pairs ∅ (concat [[("a"%string, ex_vec)]; []; [("b"%string, [0])]])) hp db' ->
       insert_pairs ∅ (concat [[("a"%string, ex_vec)]; []; [("b"%string, [0])]]) !! HashText text
       = Some v ->
       exists r hp' db'', Get text hp db' = (Ok r, hp', db'') /\ deref hp' r = v).
Proof.
  apply (sessions_keep_vectors ∅ 1 map_to_list (mkOptions true 100)
           [[("a"%string, ex_vec)]; []; [("b"%string, [0])]] ex_fresh).
  - destruct (create_durable 1 (mkOptions true 100)) as (db0 & Ho & Hd & _);
      [by vm_compute|].
    change (OpenWithOptions None 1 (mkOptions true 100)) with (Ok ex_fresh) in Ho.
    by injection Ho as <-.
  - reflexivity.
  - intros kv _. apply lookup_empty.
  - by_compute.
  - repeat constructor; by vm_compute.
  - by vm_compute.
Defined.
